(** * BoidsInBrowser: the vector-based Boid class and the Flock tick

    A shallow embedding of the steering engine of the repository: the
    [Vector] and [Boid] classes (the vector-based iteration of the boid
    code) and the [Flock] class of [Flock.js], together with the earlier
    [Flock.moveFlock] that culls and replaces boids.

    Numbers.  A JavaScript number is modelled by [num]: a real number, one
    of the two infinities, or NaN.  Arithmetic follows IEEE-754 on the
    special values (division by zero gives an infinity or NaN, NaN
    propagates, every comparison with NaN is false), and is exact on the
    finite ones: rounding, overflow, underflow and the sign of zero are
    not modelled.  [Math.sin], [Math.cos], [Math.atan2] and [Math.sqrt]
    are the mathematical functions on the finite values.

    Objects.  The boids of a flock live in the array [boids]; a boid is
    identified by its index in that array, and a method that assigns to a
    field of [this] returns the updated record, which the caller writes
    back at that index.  [Math.random] reads from a sequence of draws. *)

From Stdlib Require Import Reals Lra Lia List Bool Arith.
From Stdlib Require String.
Import ListNotations.

Open Scope R_scope.

(** ** Numbers *)

Module JS.

Inductive num : Type :=
| Fin (r : R)
| PInf
| NInf
| NaN.

(** A value that is either a number or [undefined] (a missing argument,
    or a property that the object does not have). *)
Inductive value : Type :=
| Undefined
| Number (n : num).

Definition Rltb (x y : R) : bool := if Rlt_dec x y then true else false.
Definition Rleb (x y : R) : bool := if Rle_dec x y then true else false.
Definition Reqb (x y : R) : bool := if Req_dec_T x y then true else false.

Definition zero : num := Fin 0.

Definition ToNumber (v : value) : num :=
  match v with
  | Undefined => NaN
  | Number n => n
  end.

(** Truthiness of a value: [undefined], [0] and [NaN] are falsy. *)
Definition truthy (v : value) : bool :=
  match v with
  | Undefined => false
  | Number (Fin r) => negb (Reqb r 0)
  | Number NaN => false
  | Number _ => true
  end.

(** [v || d] where [d] is a number. *)
Definition or_default (v : value) (d : num) : num :=
  if truthy v then ToNumber v else d.

Definition neg (a : num) : num :=
  match a with
  | Fin r => Fin (- r)
  | PInf => NInf
  | NInf => PInf
  | NaN => NaN
  end.

Definition add (a b : num) : num :=
  match a, b with
  | NaN, _ | _, NaN => NaN
  | Fin x, Fin y => Fin (x + y)
  | PInf, NInf | NInf, PInf => NaN
  | PInf, _ | _, PInf => PInf
  | NInf, _ | _, NInf => NInf
  end.

Definition sub (a b : num) : num := add a (neg b).

(** The infinity with the sign of [r], NaN for zero. *)
Definition inf_of_sign (r : R) : num :=
  if Rltb 0 r then PInf else if Rltb r 0 then NInf else NaN.

Definition mul (a b : num) : num :=
  match a, b with
  | NaN, _ | _, NaN => NaN
  | Fin x, Fin y => Fin (x * y)
  | Fin x, PInf | PInf, Fin x => inf_of_sign x
  | Fin x, NInf | NInf, Fin x => inf_of_sign (- x)
  | PInf, PInf | NInf, NInf => PInf
  | PInf, NInf | NInf, PInf => NInf
  end.

Definition div (a b : num) : num :=
  match a, b with
  | NaN, _ | _, NaN => NaN
  | Fin x, Fin y => if Reqb y 0 then inf_of_sign x else Fin (x / y)
  | Fin _, _ => Fin 0
  | PInf, Fin y => if Rltb y 0 then NInf else PInf
  | NInf, Fin y => if Rltb y 0 then PInf else NInf
  | _, _ => NaN
  end.

(** Comparisons; all of [<], [<=], [>] are false when an operand is NaN. *)
Definition lt (a b : num) : bool :=
  match a, b with
  | NaN, _ | _, NaN => false
  | Fin x, Fin y => Rltb x y
  | _, NInf => false
  | NInf, _ => true
  | PInf, _ => false
  | _, PInf => true
  end.

Definition le (a b : num) : bool :=
  match a, b with
  | NaN, _ | _, NaN => false
  | Fin x, Fin y => Rleb x y
  | NInf, _ => true
  | _, PInf => true
  | _, NInf => false
  | PInf, _ => false
  end.

Definition gt (a b : num) : bool := lt b a.

(** [a !== b] on numbers: NaN differs from everything, itself included. *)
Definition strict_neq (a b : num) : bool :=
  match a, b with
  | NaN, _ | _, NaN => true
  | Fin x, Fin y => negb (Reqb x y)
  | PInf, PInf | NInf, NInf => false
  | _, _ => true
  end.

Definition Math_sqrt (a : num) : num :=
  match a with
  | Fin r => if Rltb r 0 then NaN else Fin (sqrt r)
  | PInf => PInf
  | NInf | NaN => NaN
  end.

(** [Math.pow(a, 2)]. *)
Definition Math_pow2 (a : num) : num := mul a a.

Definition Math_abs (a : num) : num :=
  match a with
  | Fin r => Fin (Rabs r)
  | PInf | NInf => PInf
  | NaN => NaN
  end.

Definition Math_sin (a : num) : num :=
  match a with
  | Fin r => Fin (sin r)
  | _ => NaN
  end.

Definition Math_cos (a : num) : num :=
  match a with
  | Fin r => Fin (cos r)
  | _ => NaN
  end.

(** The angle of the point [(x, y)], in [(-PI, PI]]; [atan2 0 0 = 0]. *)
Definition atan2 (y x : R) : R :=
  if Rltb 0 x then atan (y / x)
  else if Rltb x 0 then
    (if Rleb 0 y then atan (y / x) + PI else atan (y / x) - PI)
  else if Rltb 0 y then PI / 2
  else if Rltb y 0 then - (PI / 2)
  else 0.

Definition Math_atan2 (y x : num) : num :=
  match y, x with
  | NaN, _ | _, NaN => NaN
  | Fin b, Fin a => Fin (atan2 b a)
  | Fin _, PInf => Fin 0
  | Fin b, NInf => if Rleb 0 b then Fin PI else Fin (- PI)
  | PInf, Fin _ => Fin (PI / 2)
  | NInf, Fin _ => Fin (- (PI / 2))
  | PInf, PInf => Fin (PI / 4)
  | PInf, NInf => Fin (3 * PI / 4)
  | NInf, PInf => Fin (- (PI / 4))
  | NInf, NInf => Fin (- (3 * PI / 4))
  end.

Definition Math_PI : num := Fin PI.

(** A number that is neither infinite nor NaN. *)
Definition finite (a : num) : Prop :=
  match a with
  | Fin _ => True
  | _ => False
  end.

(** The sequence of future results of [Math.random]. *)
Definition rng : Type := nat -> R.

Definition Math_random (g : rng) : num * rng :=
  (Fin (g 0%nat), fun n => g (S n)).

(** [Math.random] returns a number in [[0, 1)]. *)
Definition rng_ok (g : rng) : Prop := forall n, 0 <= g n < 1.

End JS.

Import JS.

(** ** Loops over arrays *)

(** [for (let i = start; i < a.length; i++) s = body(i, a[i], s)], on the
    part of the array that starts at index [start]. *)
Fixpoint for_each {A St : Type} (body : nat -> A -> St -> St)
         (start : nat) (a : list A) (s : St) : St :=
  match a with
  | [] => s
  | x :: rest => for_each body (S start) rest (body start x s)
  end.

(** [a[i] = x]; the index is always in range where the code assigns. *)
Fixpoint set_nth {A : Type} (i : nat) (x : A) (a : list A) : list A :=
  match a, i with
  | [], _ => []
  | _ :: rest, O => x :: rest
  | y :: rest, S j => y :: set_nth j x rest
  end.

(** [a[i] = f(i, a[i], a)] when [a[i]] exists: an iteration that updates
    the object in slot [i], reading the whole array. *)
Definition slot_step {A : Type} (f : nat -> A -> list A -> A)
           (i : nat) (a : list A) : list A :=
  match nth_error a i with
  | Some x => set_nth i (f i x a) a
  | None => a
  end.

(** [a.splice(i, 1)]: removes the element at index [i], if there is one. *)
Fixpoint splice1 {A : Type} (i : nat) (a : list A) : list A :=
  match a, i with
  | [], _ => []
  | _ :: rest, O => rest
  | y :: rest, S j => y :: splice1 j rest
  end.

(** ** class Vector *)

Module Vector.

(** The two entries of the array [this.values]. *)
Record t : Type := mk { v0 : num; v1 : num }.

Definition values (this : t) : list num := [v0 this; v1 this].

(** [new Vector(values)]: up to two entries are copied, the others stay 0;
    [None] is the call without argument. *)
Definition new (vals : option (list num)) : t :=
  match vals with
  | None => mk zero zero
  | Some l => mk (nth 0 l zero) (nth 1 l zero)
  end.

(** The properties [x] and [y] do not exist on a Vector (only [values]
    does), so reading them gives [undefined]. *)
Definition x (this : t) : value := Undefined.
Definition y (this : t) : value := Undefined.

Definition add (this v : t) : t :=
  new (Some [JS.add (v0 this) (v0 v); JS.add (v1 this) (v1 v)]).

Definition subtract (this v : t) : t :=
  new (Some [JS.sub (v0 this) (v0 v); JS.sub (v1 this) (v1 v)]).

Definition length (this : t) : num :=
  Math_sqrt (JS.add (Math_pow2 (v0 this)) (Math_pow2 (v1 this))).

Definition normalize (this : t) : t :=
  let magnitude := length this in
  if strict_neq magnitude zero then
    new (Some [div (v0 this) magnitude; div (v1 this) magnitude])
  else new None.

Definition scale (this : t) (s : num) : t :=
  new (Some [mul (v0 this) s; mul (v1 this) s]).

Definition limit (this : t) (m : num) : t :=
  if gt (length this) m then scale (normalize this) m
  else new (Some (values this)).

Definition getX (this : t) : num := v0 this.
Definition getY (this : t) : num := v1 this.

(** A division that faults on a zero divisor, and [normalize] written
    with it: [None] is the fault. *)
Definition div_checked (a b : num) : option num :=
  match b with
  | Fin r => if Reqb r 0 then None else Some (div a b)
  | _ => Some (div a b)
  end.

Definition normalize_checked (this : t) : option t :=
  let magnitude := length this in
  if strict_neq magnitude zero then
    match div_checked (v0 this) magnitude, div_checked (v1 this) magnitude with
    | Some a, Some b => Some (new (Some [a; b]))
    | _, _ => None
    end
  else Some (new None).

End Vector.

(** ** class Boid *)

Module Boid.

Record Vision : Type := mkVision { angle : num; radius : num }.

Record Weights : Type := mkWeights {
  w_separation : num;
  w_cohesion : num;
  w_alignment : num;
  w_avoidance : num
}.

Record t : Type := mk {
  size : num;
  vision : Vision;
  position : Vector.t;
  velocity : Vector.t;
  maxImpulse : num;
  pointImpulseCoeff : num;
  separationCoeff : num;
  pointImpulseLimit : num;
  weights : Weights
}.

Definition set_velocity (this : t) (v : Vector.t) : t :=
  mk (size this) (vision this) (position this) v (maxImpulse this)
     (pointImpulseCoeff this) (separationCoeff this) (pointImpulseLimit this)
     (weights this).

Definition set_position (this : t) (p : Vector.t) : t :=
  mk (size this) (vision this) p (velocity this) (maxImpulse this)
     (pointImpulseCoeff this) (separationCoeff this) (pointImpulseLimit this)
     (weights this).

(** [new Boid(startX, startY, size, speed)]; the two calls of
    [Math.random] for the velocity are made in this order. *)
Definition new (startX startY size_arg speed : value) (g : rng) : t * rng :=
  let size := or_default size_arg (Fin 15) in
  let vision := mkVision (div Math_PI (Fin 4)) (mul size (Fin 4)) in
  let position :=
    Vector.new (Some [or_default startX (Fin 10); or_default startY (Fin 10)]) in
  let (r1, g1) := Math_random g in
  let (r2, g2) := Math_random g1 in
  let velocity :=
    Vector.new (Some [sub (mul r1 (Fin 4)) (Fin 2);
                      sub (mul r2 (Fin 4)) (Fin 2)]) in
  (mk size vision position velocity
      (or_default speed (Fin 5)) (Fin 15) (Fin 10) (Fin 100)
      (mkWeights (Fin 1) (Fin 1) (Fin (14 / 10)) (Fin (17 / 10))),
   g2).

Definition angleTo (this : t) (x y : num) : num :=
  Math_atan2 (sub y (Vector.getY (position this)))
             (sub x (Vector.getX (position this))).

(** [x] and [y] are values: [separation] passes [undefined] here. *)
Definition distanceTo (this : t) (x y : value) : num :=
  Math_sqrt
    (add (Math_pow2 (sub (ToNumber x) (Vector.getX (position this))))
         (Math_pow2 (sub (ToNumber y) (Vector.getY (position this))))).

Definition distanceBetweenAngles (a b : num) : num :=
  Math_atan2 (Math_sin (sub a b)) (Math_cos (sub a b)).

Definition getDirection (this : t) : num :=
  angleTo this
    (add (Vector.getX (position this)) (Vector.getX (velocity this)))
    (add (Vector.getY (position this)) (Vector.getY (velocity this))).

Definition canSee (this : t) (x y : num) : bool :=
  let direction := getDirection this in
  let distance := distanceTo this (Number x) (Number y) in
  if le distance (radius (vision this)) then
    let relDirection :=
      if gt direction Math_PI then sub direction (mul (Fin 2) Math_PI)
      else direction in
    let fov := sub Math_PI (angle (vision this)) in
    let targetAngle := angleTo this x y in
    if le (Math_abs (distanceBetweenAngles targetAngle relDirection)) fov
    then true
    else false
  else false.

Definition pointImpulse (this : t) (point : Vector.t) : Vector.t :=
  let diff := Vector.subtract point (position this) in
  let impulse := Vector.new (Some (Vector.values diff)) in
  let dist := Vector.length diff in
  let impulse :=
    if lt dist (div (radius (vision this)) (Fin 2)) then Vector.new None
    else if le dist (pointImpulseCoeff this) then
      Vector.scale (Vector.normalize impulse)
        (div (Fin 1)
             (div (mul (Vector.length (velocity this)) dist)
                  (pointImpulseCoeff this)))
    else Vector.scale (Vector.normalize diff) (Vector.length (velocity this)) in
  Vector.limit impulse (maxImpulse this).

(** [1 / count] for a loop counter. *)
Definition one_over (count : nat) : num := div (Fin 1) (Fin (INR count)).

(** The test [boids[i] != this && this.canSee(...)] shared by the three
    neighbour rules; [self] is the index of [this] in [boids]. *)
Definition sees_other (this : t) (self i : nat) (other : t) : bool :=
  negb (Nat.eqb i self)
  && canSee this (Vector.getX (position other)) (Vector.getY (position other)).

Definition separation_body (this : t) (self : nat)
           (i : nat) (other : t) (acc : Vector.t * nat) : Vector.t * nat :=
  let (sum, count) := acc in
  if sees_other this self i other then
    let distance :=
      distanceTo this (Vector.x (position other)) (Vector.y (position other)) in
    let sep :=
      add (add (size this) (size other))
          (mul (Fin 25) (separationCoeff this)) in
    if gt sep (Fin 0) && lt sep distance then
      let diff := Vector.subtract (position this) (position other) in
      (Vector.add sum (Vector.scale (Vector.normalize diff) sep), S count)
    else (sum, count)
  else (sum, count).

Definition separation (this : t) (self : nat) (boids : list t) : Vector.t :=
  let (sum, count) :=
    for_each (separation_body this self) 0 boids (Vector.new None, O) in
  let sum :=
    if Nat.ltb 0 count then
      Vector.subtract
        (Vector.scale
           (Vector.normalize (Vector.scale sum (one_over count)))
           (Vector.length (velocity this)))
        (velocity this)
    else sum in
  Vector.limit sum (maxImpulse this).

Definition alignment_body (this : t) (self : nat)
           (i : nat) (other : t) (acc : Vector.t * nat) : Vector.t * nat :=
  let (sum, count) := acc in
  if sees_other this self i other then
    (Vector.add sum (velocity other), S count)
  else (sum, count).

Definition alignment (this : t) (self : nat) (boids : list t) : Vector.t :=
  let align := Vector.new None in
  let (sum, count) :=
    for_each (alignment_body this self) 0 boids (Vector.new None, O) in
  if Nat.ltb 0 count then
    let sum :=
      Vector.scale (Vector.normalize (Vector.scale sum (one_over count)))
                   (Vector.length (velocity this)) in
    Vector.limit (Vector.subtract sum (velocity this)) (maxImpulse this)
  else align.

Definition cohesion_body (this : t) (self : nat)
           (i : nat) (other : t) (acc : Vector.t * nat) : Vector.t * nat :=
  let (sum, count) := acc in
  if sees_other this self i other then
    (Vector.add sum (position other), S count)
  else (sum, count).

(** The statement [sum.scale(1 / count)] computes a new vector and drops
    it: [scale] does not change [sum]. *)
Definition cohesion (this : t) (self : nat) (boids : list t) : Vector.t :=
  let (sum, count) :=
    for_each (cohesion_body this self) 0 boids (Vector.new None, O) in
  if Nat.ltb 0 count then
    let _ := Vector.scale sum (one_over count) in
    pointImpulse this sum
  else sum.

(** [None] is the result [false]. *)
Definition wallAvoidance (this : t) (width height : num) : option Vector.t :=
  let x := Vector.getX (position this) in
  let y := Vector.getY (position this) in
  if canSee this (Fin 0) y
     || canSee this x (Fin 0)
     || canSee this width y
     || canSee this x height
  then Some (pointImpulse this
               (Vector.new (Some [div width (Fin 2); div height (Fin 2)])))
  else None.

Definition wallCollision (this : t) (width height : num) : bool :=
  let x := Vector.getX (position this) in
  let y := Vector.getY (position this) in
  gt (Fin 0) x || gt (Fin 0) y || gt x width || gt y height.

Definition applyImpulse (this : t) (impulse : Vector.t) (weight : num) : t :=
  set_velocity this
    (Vector.limit (Vector.add (velocity this) (Vector.scale impulse weight))
                  (maxImpulse this)).

Definition applyRules (this : t) (self : nat) (boids : list t)
           (width height : num) : t :=
  let sep := separation this self boids in
  let align := alignment this self boids in
  let coh := cohesion this self boids in
  let avoidWalls := wallAvoidance this width height in
  let this := applyImpulse this sep (w_separation (weights this)) in
  let this := applyImpulse this align (w_alignment (weights this)) in
  let this := applyImpulse this coh (w_cohesion (weights this)) in
  match avoidWalls with
  | Some impulse => applyImpulse this impulse (w_avoidance (weights this))
  | None => this
  end.

Definition move (this : t) : t :=
  set_position this (Vector.add (position this) (velocity this)).

End Boid.

(** ** class Flock (Flock.js) *)

(** [for (let i = 0; i < n; i++) s = body(i, s)]. *)
Definition for_upto {St : Type} (n : nat) (body : nat -> St -> St) (s : St) : St :=
  fold_left (fun s i => body i s) (seq 0 n) s.

(** The value of an [unsigned long] attribute such as [canvas.width]. *)
Definition of_nat (n : nat) : num := Fin (INR n).

Module Flock.

(** [canvas.width], [canvas.height] and the array [boids]. *)
Record t : Type := mk {
  canvas_width : nat;
  canvas_height : nat;
  boids : list Boid.t
}.

Definition size (this : t) : nat := length (boids this).

Definition addRandomBoid (this : t) (g : rng) : t * rng :=
  let (r1, g1) := Math_random g in
  let (r2, g2) := Math_random g1 in
  let (b, g3) :=
    Boid.new (Number (mul r1 (of_nat (canvas_width this))))
             (Number (mul r2 (of_nat (canvas_height this))))
             (Number (mul (of_nat (canvas_height this)) (Fin (3 / 100))))
             Undefined g2 in
  (mk (canvas_width this) (canvas_height this) (boids this ++ [b]), g3).

(** The constructor, once the canvas has its final width and height;
    [initialSize] is an integer count or is missing. *)
Definition new (width height : nat) (initialSize : option nat) (g : rng)
  : t * rng :=
  let size :=
    match initialSize with
    | Some (S n) => S n
    | _ => 5%nat
    end in
  for_upto size (fun _ s => addRandomBoid (fst s) (snd s))
           (mk width height [], g).

(** One iteration of the first loop of [moveFlock]: boid [i] updates its
    own velocity, in the array. *)
Definition decide_step (width height : num) : nat -> list Boid.t -> list Boid.t :=
  slot_step (fun i b boids => Boid.applyRules b i boids width height).

(** One iteration of the second loop. *)
Definition move_step : nat -> list Boid.t -> list Boid.t :=
  slot_step (fun _ b _ => Boid.move b).

(** The array after the first loop of [moveFlock]. *)
Definition decide (this : t) : list Boid.t :=
  for_upto (length (boids this))
           (decide_step (of_nat (canvas_width this)) (of_nat (canvas_height this)))
           (boids this).

Definition moveFlock (this : t) : t :=
  let boids := decide this in
  let boids := for_upto (length boids) move_step boids in
  mk (canvas_width this) (canvas_height this) boids.

End Flock.

(** ** The earlier Flock.moveFlock, which culls and replaces *)

Module EarlierFlock.

Section WithBoid.

(** The boid class of that iteration has a direction and a position, and
    further records ([appearance], [vision], [decision]) that [moveFlock]
    does not read; its methods [detectObstacles] and [decideDirection]
    write only to fields of [this]. *)
Variable Rest : Type.

Record boid : Type := mkBoid {
  direction : num;
  position_x : num;
  position_y : num;
  rest : Rest
}.

(** The fields that [new Boid(x, y, direction, size)] derives from the
    size. *)
Variable new_rest : num -> Rest.

(** [this.detectObstacles([], width, height)]. *)
Variable detectObstacles : boid -> num -> num -> boid.

(** [this.decideDirection(boids)], [this] being [boids[i]]: the desired
    direction, the updated [this], and the draws left. *)
Variable decideDirection : boid -> nat -> list boid -> rng -> num * boid * rng.

Record t : Type := mk {
  canvas_width : nat;
  canvas_height : nat;
  canvas_clientWidth : nat;
  canvas_clientHeight : nat;
  boids : list boid
}.

Definition set_boids (this : t) (bs : list boid) : t :=
  mk (canvas_width this) (canvas_height this)
     (canvas_clientWidth this) (canvas_clientHeight this) bs.

Definition size (this : t) : nat := length (boids this).

Definition Boid_new (startX startY startDirection size_arg : value) : boid :=
  mkBoid (or_default startDirection (Fin 0))
         (or_default startX (Fin 0)) (or_default startY (Fin 0))
         (new_rest (or_default size_arg (Fin 15))).

Definition addRandomBoid (this : t) (g : rng) : t * rng :=
  let (r1, g1) := Math_random g in
  let (r2, g2) := Math_random g1 in
  let (r3, g3) := Math_random g2 in
  let b :=
    Boid_new (Number (mul r1 (of_nat (canvas_width this))))
             (Number (mul r2 (of_nat (canvas_height this))))
             (Number (neg (sub (mul (mul r3 (Fin 2)) Math_PI) Math_PI)))
             (Number (mul (of_nat (canvas_height this)) (Fin (3 / 100)))) in
  (set_boids this (boids this ++ [b]), g3).

(** [addBoid(x, y)], called with two numbers. *)
Definition addBoid (this : t) (x y : num) (g : rng) : t * rng :=
  let x := if lt x (Fin 0) then Fin 0 else x in
  let x := if gt x (of_nat (canvas_width this))
           then of_nat (canvas_width this) else x in
  let y := if lt y (Fin 0) then Fin 0 else y in
  let y := if gt y (of_nat (canvas_width this))
           then of_nat (canvas_height this) else y in
  let (r, g1) := Math_random g in
  let b :=
    Boid_new (Number x) (Number y)
             (Number (neg (sub (mul (mul r (Fin 2)) Math_PI) Math_PI)))
             (Number (mul (of_nat (canvas_height this)) (Fin (3 / 100)))) in
  (set_boids this (boids this ++ [b]), g1).

(** The state of the first loop: the array, [terminate], the draws. *)
Definition turn_state : Type := list boid * list nat * rng.

Definition turn_step (width height : num) (i : nat) (s : turn_state)
  : turn_state :=
  let '(bs, terminate, g) := s in
  match nth_error bs i with
  | None => s
  | Some b =>
    let boidSpeed := Fin (15 / 10) in
    let maxTurn := div Math_PI (Fin 30) in
    let b := detectObstacles b width height in
    let bs := set_nth i b bs in
    let '(desiredDirection, b, g) := decideDirection b i bs g in
    let turnAngle :=
      Math_atan2 (Math_sin (sub desiredDirection (direction b)))
                 (Math_cos (sub desiredDirection (direction b))) in
    let turnAngle :=
      if gt (Math_abs turnAngle) maxTurn
      then (if gt turnAngle (Fin 0) then maxTurn else neg maxTurn)
      else turnAngle in
    let dir := add (direction b) turnAngle in
    let px := add (position_x b) (mul boidSpeed (Math_cos dir)) in
    let py := add (position_y b) (mul boidSpeed (Math_sin dir)) in
    let b := mkBoid dir px py (rest b) in
    let terminate :=
      if lt px (Fin 0) || lt py (Fin 0) || gt px width || gt py height
      then terminate ++ [i]
      else terminate in
    (set_nth i b bs, terminate, g)
  end.

(** One iteration of the second loop: [splice], then [addRandomBoid]. *)
Definition replace_step (index : nat) (s : t * rng) : t * rng :=
  let (this, g) := s in
  addRandomBoid (set_boids this (splice1 index (boids this))) g.

(** [moveFlock], and with it the list [terminate] of the culled indices
    as the second loop reads it (reversed). *)
Definition moveFlock_trace (this : t) (g : rng) : t * rng * list nat :=
  let '(bs, terminate, g) :=
    for_upto (size this)
             (turn_step (of_nat (canvas_clientWidth this))
                        (of_nat (canvas_clientHeight this)))
             (boids this, [], g) in
  let terminate := rev terminate in
  (fold_left (fun s index => replace_step index s) terminate
             (set_boids this bs, g),
   terminate).

Definition moveFlock (this : t) (g : rng) : t * rng :=
  fst (moveFlock_trace this g).

End WithBoid.

End EarlierFlock.

(** ** Drawing (Flock.js) *)

(** The rendering context [ctx] is modelled by the calls made on it, the
    oldest first; an assignment to [ctx.fillStyle] counts as a call. *)
Module Context2D.

Inductive call : Type :=
| clearRect (x y w h : num)
| save
| restore
| translate (x y : num)
| rotate (angle : num)
| set_fillStyle (style : String.string)
| beginPath
| moveTo (x y : num)
| lineTo (x y : num)
| arc (x y radius startAngle endAngle : num) (counterclockwise : bool)
| stroke
| fill.

Definition t : Type := list call.

(** The number of drawing states on the stack of the context after the
    calls, from [depth] before them: [save] pushes one, [restore] pops one
    and does nothing on an empty stack. *)
Definition saved_states (calls : t) (depth : nat) : nat :=
  fold_left (fun d c =>
               match c with
               | save => S d
               | restore => Nat.pred d
               | _ => d
               end) calls depth.

(** The points that the calls [translate] move the origin to. *)
Definition translations (calls : t) : list (num * num) :=
  flat_map (fun c => match c with translate x y => [(x, y)] | _ => [] end) calls.

End Context2D.

Module Drawing.

Import String Context2D.

(** How a method ends: it returns, or it throws a TypeError on reading a
    property of [undefined]. *)
Inductive outcome : Type := Returned | TypeError.

Definition drawBoid (this : Flock.t) (ctx : Context2D.t) (index : nat)
  : Context2D.t * outcome :=
  let ctx := ctx ++ [save] in
  match nth_error (Flock.boids this) index with
  | None => (ctx, TypeError)
  | Some boid =>
    let size := Boid.size boid in
    (ctx ++ [translate (Vector.getX (Boid.position boid))
                       (Vector.getY (Boid.position boid));
             rotate (Boid.getDirection boid);
             set_fillStyle "rgba(102, 153, 255, 1.0)"%string;
             beginPath;
             moveTo (div size (Fin 2)) (Fin 0);
             lineTo (div size (Fin 2)) (Fin 0);
             lineTo (div (neg size) (Fin 3)) (div (neg size) (Fin 3));
             lineTo (div (neg size) (Fin 8)) (Fin 0);
             lineTo (div (neg size) (Fin 3)) (div size (Fin 3));
             lineTo (div size (Fin 2)) (Fin 0);
             stroke;
             fill;
             restore],
     Returned)
  end.

Definition drawBoidVision (this : Flock.t) (ctx : Context2D.t) (index : nat)
  : Context2D.t * outcome :=
  let ctx := ctx ++ [save] in
  match nth_error (Flock.boids this) index with
  | None => (ctx, TypeError)
  | Some boid =>
    (ctx ++ [translate (Vector.getX (Boid.position boid))
                       (Vector.getY (Boid.position boid));
             rotate (sub (Boid.getDirection boid) Math_PI);
             beginPath;
             arc (Fin 0) (Fin 0) (Boid.radius (Boid.vision boid))
                 (Boid.angle (Boid.vision boid))
                 (sub (mul (Fin 2) Math_PI) (Boid.angle (Boid.vision boid)))
                 false;
             lineTo (Fin 0) (Fin 0);
             set_fillStyle "rgba(0, 0, 0, 0.25)"%string;
             fill;
             restore;
             save],
     Returned)
  end.

(** [drawFlock], on the context [this.ctx] of a canvas whose
    [clientWidth] is given; a call that throws ends the method. *)
Definition drawFlock (this : Flock.t) (clientWidth : num) (ctx : Context2D.t)
  : Context2D.t * outcome :=
  let ctx := ctx ++ [clearRect (Fin 0) (Fin 0) clientWidth clientWidth] in
  let vision :=
    if (0 <? List.length (Flock.boids this))%nat
    then drawBoidVision this ctx 0
    else (ctx, Returned) in
  match snd vision with
  | TypeError => vision
  | Returned =>
    for_upto (List.length (Flock.boids this))
             (fun i s =>
                match snd s with
                | TypeError => s
                | Returned => drawBoid this (fst s) i
                end)
             (fst vision, Returned)
  end.

(** [step]: one animation cycle. *)
Definition step (clientWidth : num) (s : Flock.t * Context2D.t)
  : Flock.t * (Context2D.t * outcome) :=
  let this := Flock.moveFlock (fst s) in
  (this, drawFlock this clientWidth (snd s)).

End Drawing.

(** ** Example boids and flocks *)

(** The boid that [new Boid(x, y, size)] makes at a position and with a
    size that are not 0, when the draws put its velocity at [(vx, vy)]. *)
Definition boid_at (px py vx vy size : R) : Boid.t :=
  Boid.mk (Fin size) (Boid.mkVision (Fin (PI / 4)) (Fin (size * 4)))
          (Vector.mk (Fin px) (Fin py)) (Vector.mk (Fin vx) (Fin vy))
          (Fin 5) (Fin 15) (Fin 10) (Fin 100)
          (Boid.mkWeights (Fin 1) (Fin 1) (Fin (14 / 10)) (Fin (17 / 10))).

(** The boid that [new Boid(100, 100, 6)] makes when both draws of
    [Math.random] are 1/2. *)
Definition still_boid : Boid.t :=
  fst (Boid.new (Number (Fin 100)) (Number (Fin 100)) (Number (Fin 6))
                Undefined (fun _ => 1 / 2)).

(** A boid of the default size at (100, 100) that heads along the
    negative x-axis. *)
Definition west_boid : Boid.t := boid_at 100 100 (- 1) 0 15.

(** Two boids of the default size, 10 apart on the line y = 100: the
    first heads towards the second, the second heads down the canvas. *)
Definition close_pair : list Boid.t :=
  [boid_at 100 100 1 0 15; boid_at 110 100 0 1 15].

(** A boid with two neighbours ahead of it, at 10 and at 20. *)
Definition row_of_three : list Boid.t :=
  [boid_at 100 100 1 0 15; boid_at 110 100 1 0 15; boid_at 120 100 1 0 15].


(** A flock on a canvas of 1000 by 500: two boids near the right edge,
    one behind the other, both heading for the edge. *)
Definition leader : Boid.t := boid_at 950 250 1 0 15.
Definition follower : Boid.t := boid_at 940 250 1 0 15.
Definition in_line : Flock.t := Flock.mk 1000 500 [leader; follower].

(** The draws of [Math.random] for a flock of two on a canvas of 400 by
    200: positions (100, 100) and (113, 100), velocities (0, 0) and
    (1, 0). *)
Definition stalled_draws : rng :=
  fun n => nth n [1 / 4; 1 / 2; 1 / 2; 1 / 2; 113 / 400; 1 / 2; 3 / 4; 1 / 2] 0.

Definition stalled : Flock.t := fst (Flock.new 400 200 (Some 2%nat) stalled_draws).


(** Draws for a flock of two on a canvas of 400 by 300: the first boid
    at (100, 100) with velocity (0, 0), the second at (113, 100) with
    velocity (1, 0). *)
Definition resting_draws : rng :=
  fun n => nth n [1 / 4; 1 / 3; 1 / 2; 1 / 2; 113 / 400; 1 / 3; 3 / 4; 1 / 2]
               (1 / 4).

(** Draws for a flock of two moving boids on the same canvas: velocities
    (1, -1) and (-1, 1). *)
Definition moving_draws : rng :=
  fun n => nth n [1 / 4; 1 / 3; 3 / 4; 1 / 4; 113 / 400; 1 / 3; 1 / 4; 3 / 4]
               (1 / 4).

(** ** Regular boids *)

Definition finite_vector (v : Vector.t) : Prop :=
  finite (Vector.v0 v) /\ finite (Vector.v1 v).

(** A boid whose numbers are finite, whose [maxImpulse] is not negative
    and whose [pointImpulseCoeff] is below half its vision radius, as for
    the boids of the default size 15 (coefficient 15, radius 60). *)
Definition regular (b : Boid.t) : Prop :=
  finite_vector (Boid.position b)
  /\ finite_vector (Boid.velocity b)
  /\ (exists a r c m,
        Boid.vision b = Boid.mkVision (Fin a) (Fin r)
        /\ Boid.pointImpulseCoeff b = Fin c
        /\ Boid.maxImpulse b = Fin m
        /\ c < r / 2 /\ 0 <= m)
  /\ finite (Boid.w_separation (Boid.weights b))
  /\ finite (Boid.w_alignment (Boid.weights b))
  /\ finite (Boid.w_cohesion (Boid.weights b))
  /\ finite (Boid.w_avoidance (Boid.weights b)).

(** The speed bound: [|velocity| <= maxImpulse]. *)
Definition within_maxImpulse (b : Boid.t) : Prop :=
  le (Vector.length (Boid.velocity b)) (Boid.maxImpulse b) = true.

(** The speed bound with a tolerance: the velocity is finite and its
    length is at most [maxImpulse + eps]. *)
Definition speed_within (eps : R) (b : Boid.t) : Prop :=
  exists vx vy m,
    Boid.velocity b = Vector.mk (Fin vx) (Fin vy)
    /\ Boid.maxImpulse b = Fin m
    /\ sqrt (vx * vx + vy * vy) <= m + eps.

(** A vector with a NaN entry. *)
Definition has_NaN (v : Vector.t) : Prop :=
  Vector.v0 v = NaN \/ Vector.v1 v = NaN.

(** The test of the earlier [moveFlock] for a boid that has left the
    canvas, whose [clientWidth] and [clientHeight] are [w] and [h]. *)
Definition left_canvas {Rest : Type} (w h : num) (b : EarlierFlock.boid Rest)
  : bool :=
  lt (EarlierFlock.position_x Rest b) (Fin 0)
  || lt (EarlierFlock.position_y Rest b) (Fin 0)
  || gt (EarlierFlock.position_x Rest b) w
  || gt (EarlierFlock.position_y Rest b) h.

(** Whether the boid at an index of the array has left the canvas. *)
Definition left_canvas_at {Rest : Type} (w h : num)
           (bs : list (EarlierFlock.boid Rest)) (i : nat) : bool :=
  match nth_error bs i with
  | Some b => left_canvas w h b
  | None => false
  end.

(** * Properties *)

(** ** Real comparisons *)

Lemma Rltb_true (a b : R) : a < b -> Rltb a b = true.
Proof. intros H. unfold Rltb. destruct (Rlt_dec a b); [reflexivity | contradiction]. Qed.

Lemma Rltb_false (a b : R) : b <= a -> Rltb a b = false.
Proof. intros H. unfold Rltb. destruct (Rlt_dec a b); [lra | reflexivity]. Qed.

Lemma Rleb_true (a b : R) : a <= b -> Rleb a b = true.
Proof. intros H. unfold Rleb. destruct (Rle_dec a b); [reflexivity | contradiction]. Qed.

Lemma Rleb_false (a b : R) : b < a -> Rleb a b = false.
Proof. intros H. unfold Rleb. destruct (Rle_dec a b); [lra | reflexivity]. Qed.

Lemma Reqb_true (a b : R) : a = b -> Reqb a b = true.
Proof. intros H. unfold Reqb. destruct (Req_dec_T a b); [reflexivity | contradiction]. Qed.

Lemma Reqb_false (a b : R) : a <> b -> Reqb a b = false.
Proof. intros H. unfold Reqb. destruct (Req_dec_T a b); [contradiction | reflexivity]. Qed.

Lemma Rleb_spec (a b : R) : Rleb a b = true <-> a <= b.
Proof. unfold Rleb. destruct (Rle_dec a b); split; intros; auto; discriminate. Qed.

(** ** Square roots and angles *)

Lemma sumsq_nonneg (a b : R) : 0 <= a * a + b * b.
Proof. nra. Qed.

Lemma sqrt_sumsq_pos (a b : R) : a <> 0 \/ b <> 0 -> 0 < sqrt (a * a + b * b).
Proof. intros H. apply sqrt_lt_R0. destruct H; nra. Qed.

Lemma sqrt_sumsq_zero : sqrt (0 * 0 + 0 * 0) = 0.
Proof. replace (0 * 0 + 0 * 0) with 0 by ring. apply sqrt_0. Qed.

Lemma sqrt_sumsq_x (a : R) : sqrt (a * a + 0 * 0) = Rabs a.
Proof.
  replace (a * a + 0 * 0) with (Rsqr a) by (unfold Rsqr; ring).
  apply sqrt_Rsqr_abs.
Qed.

Lemma sqrt_sumsq_y (b : R) : sqrt (0 * 0 + b * b) = Rabs b.
Proof.
  replace (0 * 0 + b * b) with (Rsqr b) by (unfold Rsqr; ring).
  apply sqrt_Rsqr_abs.
Qed.

Lemma atan2_x_pos (x : R) : 0 < x -> atan2 0 x = 0.
Proof.
  intros H. unfold atan2. rewrite Rltb_true by assumption.
  replace (0 / x) with 0 by (field; lra). apply atan_0.
Qed.

Lemma atan2_x_neg (x : R) : x < 0 -> atan2 0 x = PI.
Proof.
  intros H. unfold atan2. rewrite Rltb_false by lra. rewrite Rltb_true by assumption.
  rewrite Rleb_true by lra.
  replace (0 / x) with 0 by (field; lra). rewrite atan_0. ring.
Qed.

Lemma atan2_0_0 : atan2 0 0 = 0.
Proof. unfold atan2. now rewrite !Rltb_false by lra. Qed.

Lemma atan2_range (y x : R) : - PI < atan2 y x <= PI.
Proof.
  pose proof PI_RGT_0 as Hpi. pose proof (atan_bound (y / x)) as Hb.
  unfold atan2, Rltb, Rleb.
  destruct (Rlt_dec 0 x) as [Hx | Hx]; [lra |].
  destruct (Rlt_dec x 0) as [Hx' | Hx'].
  - destruct (Rle_dec 0 y) as [Hy | Hy].
    + assert (y / x <= 0).
      { unfold Rdiv. assert (/ x < 0) by (apply Rinv_lt_0_compat; lra). nra. }
      assert (atan (y / x) <= 0).
      { destruct (Req_dec (y / x) 0) as [-> | Hne]; [rewrite atan_0; lra |].
        rewrite <- atan_0. left. apply atan_increasing. lra. }
      lra.
    + assert (0 < y / x).
      { unfold Rdiv. assert (/ x < 0) by (apply Rinv_lt_0_compat; lra). nra. }
      assert (0 < atan (y / x)).
      { rewrite <- atan_0. apply atan_increasing. lra. }
      lra.
  - destruct (Rlt_dec 0 y); [lra |].
    destruct (Rlt_dec y 0); lra.
Qed.

(** [Math.atan2(Math.sin(t), Math.cos(t))] gives an angle in [(-PI, PI]]
    back. *)
Lemma atan2_sin_cos (t : R) : - PI < t <= PI -> atan2 (sin t) (cos t) = t.
Proof.
  intros [Hlo Hhi]. pose proof PI_RGT_0 as Hpi.
  unfold atan2, Rltb, Rleb.
  destruct (Rlt_dec 0 (cos t)) as [Hc | Hc].
  - assert (- (PI / 2) < t < PI / 2) as Ht.
    { split.
      - destruct (Rlt_dec (- (PI / 2)) t) as [|Hn]; [assumption | exfalso].
        assert (cos (- t) <= 0) by (apply cos_le_0; lra).
        rewrite cos_neg in *. lra.
      - destruct (Rlt_dec t (PI / 2)) as [|Hn]; [assumption | exfalso].
        assert (cos t <= 0) by (apply cos_le_0; lra). lra. }
    change (sin t / cos t) with (tan t). now apply atan_tan.
  - destruct (Rlt_dec (cos t) 0) as [Hc' | Hc'].
    + assert (t < - (PI / 2) \/ PI / 2 < t) as [Ht | Ht].
      { destruct (Rlt_dec t (- (PI / 2))); [now left |].
        destruct (Rlt_dec (PI / 2) t); [now right | exfalso].
        assert (0 <= cos t) by (apply cos_ge_0; lra). lra. }
      * assert (sin t < 0) by (apply sin_lt_0_var; lra).
        destruct (Rle_dec 0 (sin t)); [lra |].
        assert (sin t / cos t = tan (t + PI)) as ->.
        { unfold tan. rewrite neg_sin, neg_cos. field. lra. }
        rewrite atan_tan by lra. ring.
      * assert (0 <= sin t) by (apply sin_ge_0; lra).
        destruct (Rle_dec 0 (sin t)); [| lra].
        assert (sin t / cos t = tan (t - PI)) as ->.
        { unfold tan.
          assert (sin t = - sin (t - PI)) as Hs
            by (rewrite <- neg_sin; f_equal; ring).
          assert (cos t = - cos (t - PI)) as Hk
            by (rewrite <- neg_cos; f_equal; ring).
          rewrite Hs, Hk. field. lra. }
        rewrite atan_tan by lra. ring.
    + assert (cos t = 0) as Hz by lra.
      assert (t = - (PI / 2) \/ t = PI / 2) as [-> | ->].
      { destruct (Rlt_dec t (- (PI / 2))).
        - exfalso. assert (cos (- t) < 0) by (apply cos_lt_0; lra).
          rewrite cos_neg in *. lra.
        - destruct (Rlt_dec (PI / 2) t).
          + exfalso. assert (cos t < 0) by (apply cos_lt_0; lra). lra.
          + destruct (Req_dec t (- (PI / 2))); [now left |].
            destruct (Req_dec t (PI / 2)); [now right | exfalso].
            assert (0 < cos t) by (apply cos_gt_0; lra). lra. }
      * rewrite sin_neg, sin_PI2.
        repeat match goal with
               | |- context [Rlt_dec ?a ?b] => destruct (Rlt_dec a b); try lra
               end.
      * rewrite sin_PI2.
        destruct (Rlt_dec 0 1); [reflexivity | lra].
Qed.

(** At the lower end of the range the result is [PI]: the sine is the
    exact zero here. *)
Lemma atan2_sin_cos_neg_PI : atan2 (sin (- PI)) (cos (- PI)) = PI.
Proof.
  rewrite sin_neg, cos_neg, sin_PI, cos_PI.
  replace (- 0) with 0 by ring. apply atan2_x_neg. lra.
Qed.

(** ** Vectors with finite entries *)

Lemma length_fin (a b : R) :
  Vector.length (Vector.mk (Fin a) (Fin b)) = Fin (sqrt (a * a + b * b)).
Proof.
  unfold Vector.length, Math_pow2. cbn.
  now rewrite Rltb_false by apply sumsq_nonneg.
Qed.

Lemma normalize_zero :
  Vector.normalize (Vector.mk (Fin 0) (Fin 0)) = Vector.mk (Fin 0) (Fin 0).
Proof.
  unfold Vector.normalize. rewrite length_fin, sqrt_sumsq_zero.
  cbn. now rewrite Reqb_true by reflexivity.
Qed.

Lemma normalize_fin (a b : R) :
  a <> 0 \/ b <> 0 ->
  Vector.normalize (Vector.mk (Fin a) (Fin b)) =
  Vector.mk (Fin (a / sqrt (a * a + b * b))) (Fin (b / sqrt (a * a + b * b))).
Proof.
  intros H. pose proof (sqrt_sumsq_pos a b H) as Hs.
  unfold Vector.normalize. rewrite length_fin. cbn.
  now rewrite !Reqb_false by lra.
Qed.

Lemma scale_fin (a b s : R) :
  Vector.scale (Vector.mk (Fin a) (Fin b)) (Fin s) =
  Vector.mk (Fin (a * s)) (Fin (b * s)).
Proof. reflexivity. Qed.

Lemma add_fin (a b c d : R) :
  Vector.add (Vector.mk (Fin a) (Fin b)) (Vector.mk (Fin c) (Fin d)) =
  Vector.mk (Fin (a + c)) (Fin (b + d)).
Proof. reflexivity. Qed.

Lemma subtract_fin (a b c d : R) :
  Vector.subtract (Vector.mk (Fin a) (Fin b)) (Vector.mk (Fin c) (Fin d)) =
  Vector.mk (Fin (a - c)) (Fin (b - d)).
Proof. reflexivity. Qed.

Lemma limit_fin_le (a b m : R) :
  sqrt (a * a + b * b) <= m ->
  Vector.limit (Vector.mk (Fin a) (Fin b)) (Fin m) = Vector.mk (Fin a) (Fin b).
Proof.
  intros H. unfold Vector.limit. rewrite length_fin. cbn.
  now rewrite Rltb_false by assumption.
Qed.

Lemma limit_fin_gt (a b m : R) :
  m < sqrt (a * a + b * b) ->
  Vector.limit (Vector.mk (Fin a) (Fin b)) (Fin m) =
  Vector.mk (Fin (a / sqrt (a * a + b * b) * m))
            (Fin (b / sqrt (a * a + b * b) * m)).
Proof.
  intros H. unfold Vector.limit. rewrite length_fin. cbn [gt lt].
  rewrite Rltb_true by assumption.
  destruct (Req_dec a 0) as [Ha | Ha]; [destruct (Req_dec b 0) as [Hb | Hb] |].
  - subst. rewrite normalize_zero, scale_fin.
    rewrite sqrt_sumsq_zero. f_equal; f_equal; unfold Rdiv; ring.
  - rewrite normalize_fin by now right. apply scale_fin.
  - rewrite normalize_fin by now left. apply scale_fin.
Qed.

(** Limiting the zero vector. *)
Lemma limit_zero (m : num) :
  m <> NInf -> Vector.limit (Vector.mk (Fin 0) (Fin 0)) m = Vector.mk (Fin 0) (Fin 0).
Proof.
  intros Hm. destruct m as [m | | |].
  - destruct (Rle_dec 0 m).
    + apply limit_fin_le. rewrite sqrt_sumsq_zero. assumption.
    + rewrite limit_fin_gt by (rewrite sqrt_sumsq_zero; lra).
      rewrite sqrt_sumsq_zero. f_equal; f_equal; unfold Rdiv; ring.
  - unfold Vector.limit. now rewrite length_fin.
  - contradiction.
  - unfold Vector.limit. now rewrite length_fin.
Qed.

(** The length of a limited vector is at most the limit, when the limit
    is not negative. *)
Lemma limit_fin_bound (a b m : R) :
  0 <= m ->
  exists a' b',
    Vector.limit (Vector.mk (Fin a) (Fin b)) (Fin m) = Vector.mk (Fin a') (Fin b')
    /\ sqrt (a' * a' + b' * b') <= m.
Proof.
  intros Hm. destruct (Rle_dec (sqrt (a * a + b * b)) m) as [Hle | Hgt].
  - exists a, b. split; [now apply limit_fin_le | assumption].
  - assert (m < sqrt (a * a + b * b)) as Hlt by lra.
    eexists _, _. split; [now apply limit_fin_gt |].
    set (s := sqrt (a * a + b * b)) in *.
    assert (0 < s) as Hs by lra.
    assert (s * s = a * a + b * b) as Hss
      by (apply sqrt_sqrt, sumsq_nonneg).
    replace (a / s * m * (a / s * m) + b / s * m * (b / s * m))
      with (m * m).
    + rewrite sqrt_square by assumption. lra.
    + replace (a / s * m * (a / s * m) + b / s * m * (b / s * m))
        with ((a * a + b * b) / (s * s) * (m * m)) by (field; lra).
      rewrite <- Hss. field. lra.
Qed.

(** ** C7: normalize *)

(** C7.  [Vector.normalize] of the zero vector is the zero vector, and for
    every vector (entries finite, infinite or NaN) the divisions that
    [normalize] makes never have a zero divisor: the version of
    [normalize] whose division faults on a zero divisor returns, and it
    returns the result of [normalize]. *)
Theorem normalize_total :
  Vector.normalize (Vector.new None) = Vector.new None
  /\ forall v : Vector.t,
       Vector.normalize_checked v = Some (Vector.normalize v).
Proof.
  split.
  - apply normalize_zero.
  - intros v. unfold Vector.normalize_checked, Vector.normalize.
    destruct (Vector.length v) as [r | | |] eqn:Hlen; cbn [strict_neq zero].
    + unfold Vector.div_checked.
      destruct (Reqb r 0) eqn:Hr; cbn [negb]; reflexivity.
    + reflexivity.
    + reflexivity.
    + reflexivity.
Qed.

(** ** The heading of a stationary boid *)

(** A boid whose velocity is the zero vector, at a position with finite
    coordinates, has direction 0: [getDirection] takes
    [Math.atan2(0, 0)], which is 0. *)
Lemma getDirection_stationary (this : Boid.t) :
  Boid.velocity this = Vector.new None ->
  finite (Vector.getX (Boid.position this)) ->
  finite (Vector.getY (Boid.position this)) ->
  Boid.getDirection this = Fin 0.
Proof.
  intros Hv Hx Hy.
  unfold Boid.getDirection, Boid.angleTo. rewrite Hv.
  destruct (Boid.position this) as [[px | | |] [py | | |]];
    cbn in Hx, Hy; try contradiction.
  cbn. f_equal.
  replace (py + 0 + - py) with 0 by ring.
  replace (px + 0 + - px) with 0 by ring.
  apply atan2_0_0.
Qed.

Lemma or_default_fin (r : R) (d : num) :
  r <> 0 -> or_default (Number (Fin r)) d = Fin r.
Proof.
  intros H. unfold or_default, truthy. now rewrite Reqb_false by assumption.
Qed.

Lemma or_default_zero (d : num) : or_default (Number (Fin 0)) d = d.
Proof.
  unfold or_default, truthy. now rewrite Reqb_true by reflexivity.
Qed.

Lemma still_boid_velocity : Boid.velocity still_boid = Vector.new None.
Proof.
  unfold still_boid, Boid.new. cbn.
  unfold Vector.new, zero. cbn. f_equal; f_equal; lra.
Qed.

Lemma still_boid_direction : Boid.getDirection still_boid = Fin 0.
Proof.
  apply getDirection_stationary.
  - apply still_boid_velocity.
  - unfold still_boid, Boid.new. cbn. now rewrite or_default_fin by lra.
  - unfold still_boid, Boid.new. cbn. now rewrite or_default_fin by lra.
Qed.

(** ** C9: the boids that the flock creates *)

(** The boid that [addRandomBoid] pushes: the flock grows by exactly this
    boid, whose velocity comes from the third and fourth draw. *)
Lemma addRandomBoid_pushes (fl : Flock.t) (g : rng) :
  exists b,
    Flock.boids (fst (Flock.addRandomBoid fl g)) = Flock.boids fl ++ [b]
    /\ Boid.velocity b =
       Vector.mk (Fin (g 2%nat * 4 - 2)) (Fin (g 3%nat * 4 - 2))
    /\ Boid.position b =
       Vector.mk
         (or_default (Number (Fin (g 0%nat * INR (Flock.canvas_width fl)))) (Fin 10))
         (or_default (Number (Fin (g 1%nat * INR (Flock.canvas_height fl)))) (Fin 10))
    /\ Boid.maxImpulse b = Fin 5.
Proof.
  unfold Flock.addRandomBoid, Boid.new, Math_random. cbn.
  eexists. split; [reflexivity |]. cbn. repeat split.
Qed.

(** C9, at the failing draw.  When the two draws that [new Boid] makes
    for the velocity are both 1/2, the boid that [addRandomBoid] adds to
    the flock has the zero vector as its velocity. *)
Theorem addRandomBoid_zero_velocity (fl : Flock.t) (g : rng) :
  g 2%nat = 1 / 2 -> g 3%nat = 1 / 2 ->
  exists b,
    Flock.boids (fst (Flock.addRandomBoid fl g)) = Flock.boids fl ++ [b]
    /\ Boid.velocity b = Vector.new None
    /\ Vector.length (Boid.velocity b) = Fin 0.
Proof.
  intros H2 H3.
  destruct (addRandomBoid_pushes fl g) as (b & Hb & Hv & _).
  exists b. split; [assumption |].
  rewrite Hv, H2, H3.
  replace (1 / 2 * 4 - 2) with 0 by lra.
  split; [reflexivity |].
  rewrite length_fin. now rewrite sqrt_sumsq_zero.
Qed.

Lemma addRandomBoid_zero_velocity_witness :
  exists b,
    Flock.boids (fst (Flock.addRandomBoid (Flock.mk 400 200 []) (fun _ => 1 / 2)))
    = [b]
    /\ Boid.velocity b = Vector.new None
    /\ Vector.length (Boid.velocity b) = Fin 0.
Proof.
  exact (addRandomBoid_zero_velocity (Flock.mk 400 200 []) (fun _ => 1 / 2)
           eq_refl eq_refl).
Defined.

(** Every other pair of draws gives a velocity that is not zero. *)
Lemma addRandomBoid_velocity_nonzero (fl : Flock.t) (g : rng) :
  g 2%nat <> 1 / 2 \/ g 3%nat <> 1 / 2 ->
  exists b,
    Flock.boids (fst (Flock.addRandomBoid fl g)) = Flock.boids fl ++ [b]
    /\ Boid.velocity b <> Vector.new None.
Proof.
  intros H.
  destruct (addRandomBoid_pushes fl g) as (b & Hb & Hv & _).
  exists b. split; [assumption |].
  rewrite Hv. unfold Vector.new, zero. intros Heq.
  injection Heq as Hx Hy. lra.
Qed.

(** The new boid is inside the canvas when the canvas is at least 10 wide
    and 10 high (a draw of 0 puts it at the default coordinate 10). *)
Lemma addRandomBoid_within_bounds (fl : Flock.t) (g : rng) :
  rng_ok g ->
  (10 <= Flock.canvas_width fl)%nat -> (10 <= Flock.canvas_height fl)%nat ->
  exists b x y,
    Flock.boids (fst (Flock.addRandomBoid fl g)) = Flock.boids fl ++ [b]
    /\ Boid.position b = Vector.mk (Fin x) (Fin y)
    /\ 0 <= x <= INR (Flock.canvas_width fl)
    /\ 0 <= y <= INR (Flock.canvas_height fl).
Proof.
  intros Hg Hw Hh.
  destruct (addRandomBoid_pushes fl g) as (b & Hb & _ & Hp & _).
  apply le_INR in Hw, Hh.
  assert (INR 10 = 10) as E by (simpl; lra). rewrite E in Hw, Hh.
  assert (forall r w : R, 0 <= r < 1 -> 10 <= w ->
            exists x, or_default (Number (Fin (r * w))) (Fin 10) = Fin x
                      /\ 0 <= x <= w) as Hc.
  { intros r w Hr Hw'. destruct (Req_dec (r * w) 0) as [Hz | Hz].
    - exists 10. rewrite Hz, or_default_zero. split; [reflexivity | lra].
    - exists (r * w). rewrite or_default_fin by assumption.
      split; [reflexivity | nra]. }
  destruct (Hc (g 0%nat) (INR (Flock.canvas_width fl)) (Hg _) Hw) as (x & Hx & Hxr).
  destruct (Hc (g 1%nat) (INR (Flock.canvas_height fl)) (Hg _) Hh) as (y & Hy & Hyr).
  exists b, x, y. rewrite Hp, Hx, Hy. auto.
Qed.

(** ** Loops *)

Lemma set_nth_length {A : Type} (i : nat) (x : A) (a : list A) :
  length (set_nth i x a) = length a.
Proof.
  revert i. induction a as [| y a IH]; intros [| i]; cbn; auto.
Qed.

Lemma splice1_length {A : Type} (i : nat) (a : list A) :
  (i < length a)%nat -> S (length (splice1 i a)) = length a.
Proof.
  revert i. induction a as [| y a IH]; intros [| i] H; cbn in *; try lia.
  rewrite IH by lia. reflexivity.
Qed.

(** An invariant of the body, for the indices below the bound, is an
    invariant of the loop. *)
Lemma for_upto_inv {St : Type} (P : St -> Prop) (n : nat)
      (body : nat -> St -> St) (s : St) :
  (forall i s, (i < n)%nat -> P s -> P (body i s)) ->
  P s -> P (for_upto n body s).
Proof.
  unfold for_upto. intros Hbody.
  assert (forall l s, Forall (fun i => (i < n)%nat) l -> P s ->
                      P (fold_left (fun s i => body i s) l s)) as Hl.
  { induction l as [| i l IH]; intros s0 Hall Hs; cbn; [assumption |].
    inversion Hall; subst. apply IH; auto. }
  intros Hs. apply Hl; [| assumption].
  apply Forall_forall. intros i Hi. apply in_seq in Hi. lia.
Qed.

Lemma decide_step_length (w h : num) (i : nat) (bs : list Boid.t) :
  length (Flock.decide_step w h i bs) = length bs.
Proof.
  unfold Flock.decide_step, slot_step.
  destruct (nth_error bs i); [apply set_nth_length | reflexivity].
Qed.

Lemma move_step_length (i : nat) (bs : list Boid.t) :
  length (Flock.move_step i bs) = length bs.
Proof.
  unfold Flock.move_step, slot_step.
  destruct (nth_error bs i); [apply set_nth_length | reflexivity].
Qed.

Lemma decide_length (fl : Flock.t) :
  length (Flock.decide fl) = length (Flock.boids fl).
Proof.
  unfold Flock.decide.
  apply (for_upto_inv (fun bs => length bs = length (Flock.boids fl)));
    [| reflexivity].
  intros i bs _ H. now rewrite decide_step_length.
Qed.

Lemma moveFlock_size (fl : Flock.t) :
  Flock.size (Flock.moveFlock fl) = Flock.size fl.
Proof.
  unfold Flock.size, Flock.moveFlock. cbn [Flock.boids].
  rewrite <- (decide_length fl).
  apply (for_upto_inv (fun bs => length bs = length (Flock.decide fl)));
    [| reflexivity].
  intros i bs _ H. now rewrite move_step_length.
Qed.

Section EarlierFlockFacts.

Variable Rest : Type.
Variable new_rest : num -> Rest.
Variable detectObstacles :
  EarlierFlock.boid Rest -> num -> num -> EarlierFlock.boid Rest.
Variable decideDirection :
  EarlierFlock.boid Rest -> nat -> list (EarlierFlock.boid Rest) -> rng ->
  num * EarlierFlock.boid Rest * rng.

Lemma earlier_addRandomBoid_size (fl : EarlierFlock.t Rest) (g : rng) :
  EarlierFlock.size Rest (fst (EarlierFlock.addRandomBoid Rest new_rest fl g))
  = S (EarlierFlock.size Rest fl).
Proof.
  unfold EarlierFlock.addRandomBoid, EarlierFlock.size. cbn.
  rewrite length_app. cbn. lia.
Qed.

(** Culling the boid at a valid index and adding a random one keeps the
    size. *)
Lemma replace_step_size (index : nat) (fl : EarlierFlock.t Rest) (g : rng) :
  (index < EarlierFlock.size Rest fl)%nat ->
  EarlierFlock.size Rest (fst (EarlierFlock.replace_step Rest new_rest index (fl, g)))
  = EarlierFlock.size Rest fl.
Proof.
  intros H. unfold EarlierFlock.replace_step.
  rewrite earlier_addRandomBoid_size.
  unfold EarlierFlock.size in *. cbn. now apply splice1_length.
Qed.

(** An iteration of the first loop writes to the array at index [i] and
    pushes at most [i] on [terminate]. *)
Lemma turn_step_shape (w h : num) (i : nat) (bs : list (EarlierFlock.boid Rest))
      (terminate : list nat) (g : rng) :
  exists bs' (culled : bool) g',
    EarlierFlock.turn_step Rest detectObstacles decideDirection w h i
                           (bs, terminate, g)
    = (bs', (if culled then terminate ++ [i] else terminate), g')
    /\ length bs' = length bs.
Proof.
  unfold EarlierFlock.turn_step.
  destruct (nth_error bs i) as [b |].
  - destruct (decideDirection _ _ _ _) as [[desired b'] g'].
    eexists _, _, _. split; [reflexivity |].
    now rewrite !set_nth_length.
  - exists bs, false, g. split; reflexivity.
Qed.

Lemma turn_step_inv (n : nat) (w h : num) (i : nat)
      (s : EarlierFlock.turn_state Rest) :
  (i < n)%nat ->
  length (fst (fst s)) = n /\ Forall (fun j => (j < n)%nat) (snd (fst s)) ->
  let s' := EarlierFlock.turn_step Rest detectObstacles decideDirection w h i s in
  length (fst (fst s')) = n /\ Forall (fun j => (j < n)%nat) (snd (fst s')).
Proof.
  intros Hi [Hlen Hall]. destruct s as [[bs terminate] g]. cbn in Hlen, Hall.
  destruct (turn_step_shape w h i bs terminate g) as (bs' & culled & g' & -> & Hl).
  cbn. split; [congruence |].
  destruct culled; [| assumption].
  rewrite Forall_app. split; [assumption | constructor; [assumption | constructor]].
Qed.

(** After the first loop the array has its size, and [terminate] holds
    indices of the array. *)
Lemma turn_loop_inv (fl : EarlierFlock.t Rest) (g : rng) :
  let s :=
    for_upto (EarlierFlock.size Rest fl)
      (EarlierFlock.turn_step Rest detectObstacles decideDirection
         (of_nat (EarlierFlock.canvas_clientWidth Rest fl))
         (of_nat (EarlierFlock.canvas_clientHeight Rest fl)))
      (EarlierFlock.boids Rest fl, [], g) in
  length (fst (fst s)) = EarlierFlock.size Rest fl
  /\ Forall (fun j => (j < EarlierFlock.size Rest fl)%nat) (snd (fst s)).
Proof.
  cbv zeta.
  apply (for_upto_inv
           (fun s : EarlierFlock.turn_state Rest =>
              length (fst (fst s)) = EarlierFlock.size Rest fl
              /\ Forall (fun j => (j < EarlierFlock.size Rest fl)%nat)
                        (snd (fst s)))).
  - intros i s Hi Hs. now apply turn_step_inv.
  - cbn. split; [reflexivity | constructor].
Qed.

Lemma earlier_moveFlock_culled (fl : EarlierFlock.t Rest) (g : rng) :
  Forall (fun index => (index < EarlierFlock.size Rest fl)%nat)
         (snd (EarlierFlock.moveFlock_trace Rest new_rest detectObstacles
                 decideDirection fl g)).
Proof.
  unfold EarlierFlock.moveFlock_trace.
  pose proof (turn_loop_inv fl g) as Hinv. cbv zeta in Hinv.
  destruct (for_upto _ _ _) as [[bs terminate] g'].
  destruct Hinv as [_ Hall]. cbn in Hall. cbn [snd].
  now apply Forall_rev.
Qed.

Lemma earlier_moveFlock_size (fl : EarlierFlock.t Rest) (g : rng) :
  EarlierFlock.size Rest
    (fst (EarlierFlock.moveFlock Rest new_rest detectObstacles decideDirection fl g))
  = EarlierFlock.size Rest fl.
Proof.
  unfold EarlierFlock.moveFlock, EarlierFlock.moveFlock_trace.
  pose proof (turn_loop_inv fl g) as Hinv. cbv zeta in Hinv.
  set (n := EarlierFlock.size Rest fl) in *.
  destruct (for_upto n _ _) as [[bs terminate] g'].
  destruct Hinv as [Hlen Hall].
  cbn in Hlen, Hall. cbn [fst].
  assert (forall l (s : EarlierFlock.t Rest * rng),
             Forall (fun j => (j < n)%nat) l ->
             EarlierFlock.size Rest (fst s) = n ->
             EarlierFlock.size Rest
               (fst (fold_left
                       (fun s index => EarlierFlock.replace_step Rest new_rest index s)
                       l s)) = n) as Hfold.
  { induction l as [| j l IH]; intros s Hl Hs; cbn; [assumption |].
    inversion Hl; subst. apply IH; [assumption |].
    destruct s as [fl0 g0]. rewrite replace_step_size; cbn in *; [assumption | lia]. }
  apply Hfold.
  - apply Forall_rev. assumption.
  - assumption.
Qed.

End EarlierFlockFacts.

(** ** C3: the population *)

(** C3.  A tick keeps the number of boids.  [Flock.moveFlock] of Flock.js
    neither removes nor adds a boid.  The earlier [moveFlock] removes each
    boid that left the canvas and adds a random one for it: every culled
    index is an index of the array, so that each [splice] removes one
    boid and the [addRandomBoid] after it adds one, and the size after
    the tick is the size before it. *)
Theorem population_constant :
  (forall fl : Flock.t, Flock.size (Flock.moveFlock fl) = Flock.size fl)
  /\ (forall (Rest : Type) new_rest detectObstacles decideDirection
             (fl : EarlierFlock.t Rest) (g : rng),
        EarlierFlock.size Rest
          (fst (EarlierFlock.moveFlock Rest new_rest detectObstacles
                  decideDirection fl g))
        = EarlierFlock.size Rest fl)
  /\ (forall (Rest : Type) new_rest detectObstacles decideDirection
             (fl : EarlierFlock.t Rest) (g : rng),
        Forall (fun index => (index < EarlierFlock.size Rest fl)%nat)
               (snd (EarlierFlock.moveFlock_trace Rest new_rest detectObstacles
                       decideDirection fl g))).
Proof.
  split; [exact moveFlock_size |].
  split; [exact earlier_moveFlock_size | exact earlier_moveFlock_culled].
Qed.

(** ** Vision, for a boid with finite position, velocity and vision *)

Section Vision.

Variable this : Boid.t.
Variables px py vx vy a r : R.
Hypothesis Hpos : Boid.position this = Vector.mk (Fin px) (Fin py).
Hypothesis Hvel : Boid.velocity this = Vector.mk (Fin vx) (Fin vy).
Hypothesis Hvis : Boid.vision this = Boid.mkVision (Fin a) (Fin r).

Lemma angleTo_fin (x y : R) :
  Boid.angleTo this (Fin x) (Fin y) = Fin (atan2 (y - py) (x - px)).
Proof. unfold Boid.angleTo. rewrite Hpos. reflexivity. Qed.

Lemma distanceTo_fin (x y : R) :
  Boid.distanceTo this (Number (Fin x)) (Number (Fin y)) =
  Fin (sqrt ((x - px) * (x - px) + (y - py) * (y - py))).
Proof.
  unfold Boid.distanceTo. rewrite Hpos.
  exact (length_fin (x - px) (y - py)).
Qed.

Lemma getDirection_fin : Boid.getDirection this = Fin (atan2 vy vx).
Proof.
  unfold Boid.getDirection. rewrite Hpos, Hvel.
  cbn [Vector.getX Vector.getY Vector.v0 Vector.v1 add].
  rewrite angleTo_fin. f_equal. f_equal; ring.
Qed.

(** [canSee] as a condition on the distance and on the angle between the
    bearing of the point and the heading. *)
Lemma canSee_fin (x y : R) :
  Boid.canSee this (Fin x) (Fin y) =
  Rleb (sqrt ((x - px) * (x - px) + (y - py) * (y - py))) r
  && Rleb (Rabs (atan2 (sin (atan2 (y - py) (x - px) - atan2 vy vx))
                       (cos (atan2 (y - py) (x - px) - atan2 vy vx))))
          (PI - a).
Proof.
  unfold Boid.canSee.
  rewrite getDirection_fin, distanceTo_fin, angleTo_fin, Hvis.
  cbn [Boid.radius Boid.angle le gt lt Math_PI].
  rewrite (Rltb_false PI) by apply atan2_range.
  destruct (Rleb _ r); [| reflexivity].
  cbn. now destruct (Rleb _ _).
Qed.

(** A boid that heads along the positive x-axis, or does not move. *)
Lemma canSee_heading_east (x y : R) :
  vy = 0 -> 0 <= vx ->
  Boid.canSee this (Fin x) (Fin y) =
  Rleb (sqrt ((x - px) * (x - px) + (y - py) * (y - py))) r
  && Rleb (Rabs (atan2 (y - py) (x - px))) (PI - a).
Proof.
  intros Hvy Hvx. rewrite canSee_fin, Hvy.
  assert (atan2 0 vx = 0) as ->.
  { destruct (Req_dec vx 0) as [Hz | Hne];
      [rewrite Hz; apply atan2_0_0 | apply atan2_x_pos; lra]. }
  rewrite Rminus_0_r. rewrite atan2_sin_cos by apply atan2_range.
  reflexivity.
Qed.

(** Points on the horizontal or on the vertical line through the boid
    that are farther than the vision radius. *)
Lemma canSee_far_x (x : R) :
  r < x - px \/ r < px - x -> Boid.canSee this (Fin x) (Fin py) = false.
Proof.
  intros H. rewrite canSee_fin, Rminus_diag, sqrt_sumsq_x.
  rewrite Rleb_false; [reflexivity |].
  unfold Rabs. destruct (Rcase_abs (x - px)); lra.
Qed.

Lemma canSee_far_y (y : R) :
  r < y - py \/ r < py - y -> Boid.canSee this (Fin px) (Fin y) = false.
Proof.
  intros H. rewrite canSee_fin, Rminus_diag, sqrt_sumsq_y.
  rewrite Rleb_false; [reflexivity |].
  unfold Rabs. destruct (Rcase_abs (y - py)); lra.
Qed.

End Vision.

(** ** The constructor *)

Lemma Boid_new_fin (x y sz : R) (g : rng) :
  x <> 0 -> y <> 0 -> sz <> 0 ->
  Boid.new (Number (Fin x)) (Number (Fin y)) (Number (Fin sz)) Undefined g
  = (boid_at x y (g 0%nat * 4 - 2) (g 1%nat * 4 - 2) sz,
     fun n => g (S (S n))).
Proof.
  intros Hx Hy Hs. unfold Boid.new, Math_random, boid_at.
  rewrite !or_default_fin by assumption. cbn.
  now rewrite Reqb_false by lra.
Qed.

(** [addRandomBoid] when no draw for the position is 0 and the canvas is
    not empty. *)
Lemma addRandomBoid_fin (fl : Flock.t) (g : rng) :
  g 0%nat * INR (Flock.canvas_width fl) <> 0 ->
  g 1%nat * INR (Flock.canvas_height fl) <> 0 ->
  INR (Flock.canvas_height fl) * (3 / 100) <> 0 ->
  Flock.addRandomBoid fl g
  = (Flock.mk (Flock.canvas_width fl) (Flock.canvas_height fl)
       (Flock.boids fl
        ++ [boid_at (g 0%nat * INR (Flock.canvas_width fl))
                    (g 1%nat * INR (Flock.canvas_height fl))
                    (g 2%nat * 4 - 2) (g 3%nat * 4 - 2)
                    (INR (Flock.canvas_height fl) * (3 / 100))]),
     fun n => g (S (S (S (S n))))).
Proof.
  intros Hx Hy Hs. unfold Flock.addRandomBoid, Math_random, of_nat.
  cbn [mul]. now rewrite Boid_new_fin by assumption.
Qed.

(** ** C6: a point at the position of the boid *)

(** C6, as the code has it.  For a boid with finite position, velocity,
    vision angle and vision radius, [canSee] of the boid's own position
    returns (it is a function), and it returns true exactly when the
    vision radius is not negative and the direction of the boid is at
    most [PI - angle] away from 0. *)
Theorem canSee_coincident (this : Boid.t) (px py vx vy a r : R) :
  Boid.position this = Vector.mk (Fin px) (Fin py) ->
  Boid.velocity this = Vector.mk (Fin vx) (Fin vy) ->
  Boid.vision this = Boid.mkVision (Fin a) (Fin r) ->
  exists d,
    Boid.getDirection this = Fin d
    /\ Boid.distanceTo this (Number (Fin px)) (Number (Fin py)) = Fin 0
    /\ (Boid.canSee this (Fin px) (Fin py) = true <->
        0 <= r /\ Rabs d <= PI - a).
Proof.
  intros Hpos Hvel Hvis. exists (atan2 vy vx).
  split; [now apply (getDirection_fin this px py) |].
  split.
  { rewrite (distanceTo_fin this px py) by assumption.
    rewrite !Rminus_diag. now rewrite sqrt_sumsq_zero. }
  rewrite (canSee_fin this px py vx vy a r) by assumption.
  rewrite !Rminus_diag, sqrt_sumsq_zero, atan2_0_0, Rminus_0_l.
  assert (Rabs (atan2 (sin (- atan2 vy vx)) (cos (- atan2 vy vx)))
          = Rabs (atan2 vy vx)) as ->.
  { pose proof (atan2_range vy vx) as [Hlo Hhi].
    destruct (Req_dec (atan2 vy vx) PI) as [-> | Hne].
    - now rewrite atan2_sin_cos_neg_PI.
    - rewrite atan2_sin_cos by lra. apply Rabs_Ropp. }
  rewrite andb_true_iff, !Rleb_spec. reflexivity.
Qed.

Lemma canSee_coincident_witness :
  exists d,
    Boid.getDirection west_boid = Fin d
    /\ Boid.distanceTo west_boid (Number (Fin 100)) (Number (Fin 100)) = Fin 0
    /\ (Boid.canSee west_boid (Fin 100) (Fin 100) = true <->
        0 <= 15 * 4 /\ Rabs d <= PI - PI / 4).
Proof.
  exact (canSee_coincident west_boid 100 100 (- 1) 0 (PI / 4) (15 * 4)
           eq_refl eq_refl eq_refl).
Defined.

(** C6, as stated, fails.  The boid heads along the negative x-axis, its
    vision angle [PI / 4] is between 0 and [PI], the point is at distance
    0, and [canSee] returns false. *)
Lemma canSee_coincident_counterexample :
  Boid.angle (Boid.vision west_boid) = Fin (PI / 4)
  /\ 0 < PI / 4 < PI
  /\ Boid.getDirection west_boid = Fin PI
  /\ Boid.distanceTo west_boid
       (Number (Vector.getX (Boid.position west_boid)))
       (Number (Vector.getY (Boid.position west_boid))) = Fin 0
  /\ Boid.canSee west_boid (Vector.getX (Boid.position west_boid))
                  (Vector.getY (Boid.position west_boid)) = false.
Proof.
  pose proof PI_RGT_0 as Hpi.
  split; [reflexivity |]. split; [lra |].
  assert (atan2 0 (- 1) = PI) as Hdir by (apply atan2_x_neg; lra).
  split.
  { rewrite (getDirection_fin west_boid 100 100 (- 1) 0) by reflexivity.
    now rewrite Hdir. }
  split.
  { cbn [west_boid boid_at Boid.position Vector.getX Vector.getY
         Vector.v0 Vector.v1].
    rewrite (distanceTo_fin west_boid 100 100) by reflexivity.
    rewrite !Rminus_diag. now rewrite sqrt_sumsq_zero. }
  cbn [west_boid boid_at Boid.position Vector.getX Vector.getY
       Vector.v0 Vector.v1].
  rewrite (canSee_fin west_boid 100 100 (- 1) 0 (PI / 4) (15 * 4))
    by reflexivity.
  rewrite !Rminus_diag, atan2_0_0, Hdir, Rminus_0_l, atan2_sin_cos_neg_PI.
  rewrite Rabs_right by lra.
  rewrite (Rleb_false PI) by lra. apply andb_false_r.
Qed.

(** ** C4: separation *)

Lemma for_each_unchanged {A St : Type} (body : nat -> A -> St -> St)
      (a : list A) (start : nat) (s : St) :
  (forall i x, body i x s = s) -> for_each body start a s = s.
Proof.
  intros Hbody. revert start. induction a as [| x a IH]; intros start; cbn.
  - reflexivity.
  - rewrite Hbody. apply IH.
Qed.

(** The distance that [separation] computes: [position.x] and
    [position.y] are [undefined], so the distance is NaN. *)
Lemma separation_distance_NaN (this other : Boid.t) :
  Boid.distanceTo this (Vector.x (Boid.position other))
                  (Vector.y (Boid.position other)) = NaN.
Proof. reflexivity. Qed.

Lemma lt_NaN_r (a : num) : lt a NaN = false.
Proof. now destruct a. Qed.

(** No iteration of the loop of [separation] adds to the sum: the test
    [sep < distance] is false for the distance NaN. *)
Lemma separation_body_unchanged (this : Boid.t) (self i : nat) (other : Boid.t)
      (acc : Vector.t * nat) :
  Boid.separation_body this self i other acc = acc.
Proof.
  unfold Boid.separation_body. destruct acc as [sum count].
  rewrite separation_distance_NaN, lt_NaN_r, andb_false_r.
  now destruct (Boid.sees_other this self i other).
Qed.

(** [separation] returns the zero vector, whatever the flock is. *)
Lemma separation_zero (this : Boid.t) (self : nat) (boids : list Boid.t) :
  Boid.maxImpulse this <> NInf ->
  Boid.separation this self boids = Vector.new None.
Proof.
  intros Hm. unfold Boid.separation.
  rewrite for_each_unchanged by (intros; apply separation_body_unchanged).
  cbn [Nat.ltb Nat.leb]. now apply limit_zero.
Qed.

(** C4, at the failing input.  In [close_pair] the first boid sees the
    second, which is at distance 10, closer than the desired separation
    (15 + 15 + 10, and also 15 + 15 + 25 * 10, the value that the code
    computes); the distance that [separation] compares is NaN, and the
    separation impulse of the first boid is the zero vector. *)
Theorem separation_ignores_close_neighbor :
  let this := boid_at 100 100 1 0 15 in
  let other := boid_at 110 100 0 1 15 in
  Boid.sees_other this 0 1 other = true
  /\ Vector.length (Vector.subtract (Boid.position this) (Boid.position other))
     = Fin 10
  /\ Boid.distanceTo this (Vector.x (Boid.position other))
                     (Vector.y (Boid.position other)) = NaN
  /\ Boid.separation this 0 close_pair = Vector.new None.
Proof.
  cbv zeta. pose proof PI_RGT_0 as Hpi.
  split.
  { unfold Boid.sees_other. cbn [Nat.eqb negb andb boid_at Boid.position
                                 Vector.getX Vector.getY Vector.v0 Vector.v1].
    rewrite (canSee_heading_east _ 100 100 1 0 (PI / 4) (15 * 4))
      by (reflexivity || lra).
    replace (110 - 100) with 10 by lra. rewrite Rminus_diag.
    rewrite sqrt_sumsq_x, atan2_x_pos by lra.
    rewrite Rabs_R0, Rabs_right by lra.
    now rewrite !Rleb_true by lra. }
  split.
  { cbn [boid_at Boid.position]. rewrite subtract_fin, length_fin.
    replace (100 - 110) with (- (10)) by lra. rewrite Rminus_diag.
    rewrite sqrt_sumsq_x, Rabs_Ropp, Rabs_right by lra. reflexivity. }
  split; [reflexivity |].
  apply separation_zero. discriminate.
Qed.

(** ** Point impulses, for a boid with finite fields *)

(** The vector of length [k] in the direction of [(a, b)]. *)
Lemma unit_scaled_length (a b k : R) :
  a <> 0 \/ b <> 0 -> 0 <= k ->
  let s := sqrt (a * a + b * b) in
  sqrt (a / s * k * (a / s * k) + b / s * k * (b / s * k)) = k.
Proof.
  intros Hab Hk s. pose proof (sqrt_sumsq_pos a b Hab) as Hs. fold s in Hs.
  assert (s * s = a * a + b * b) as Hss by (apply sqrt_sqrt, sumsq_nonneg).
  replace (a / s * k * (a / s * k) + b / s * k * (b / s * k)) with (k * k).
  - now apply sqrt_square.
  - replace (a / s * k * (a / s * k) + b / s * k * (b / s * k))
      with ((a * a + b * b) / (s * s) * (k * k)) by (field; lra).
    rewrite <- Hss. field. lra.
Qed.

Section PointImpulse.

Variable this : Boid.t.
Variables px py vx vy a r c m : R.
Hypothesis Hpos : Boid.position this = Vector.mk (Fin px) (Fin py).
Hypothesis Hvel : Boid.velocity this = Vector.mk (Fin vx) (Fin vy).
Hypothesis Hvis : Boid.vision this = Boid.mkVision (Fin a) (Fin r).
Hypothesis Hcoeff : Boid.pointImpulseCoeff this = Fin c.
Hypothesis Hmax : Boid.maxImpulse this = Fin m.

(** The target is closer than half the vision radius: no impulse. *)
Lemma pointImpulse_near (x y : R) :
  sqrt ((x - px) * (x - px) + (y - py) * (y - py)) < r / 2 ->
  Boid.pointImpulse this (Vector.mk (Fin x) (Fin y)) = Vector.new None.
Proof.
  intros Hd. unfold Boid.pointImpulse.
  rewrite Hpos, Hvis, Hmax, subtract_fin, length_fin.
  cbn [Boid.radius div lt]. rewrite Reqb_false by lra.
  rewrite Rltb_true by assumption.
  apply limit_zero. discriminate.
Qed.

(** The target is farther than half the vision radius and than the
    near-field coefficient: the unit vector towards it, scaled to the
    current speed, then limited. *)
Lemma pointImpulse_far (x y : R) :
  let d := sqrt ((x - px) * (x - px) + (y - py) * (y - py)) in
  r / 2 <= d -> c < d ->
  Boid.pointImpulse this (Vector.mk (Fin x) (Fin y)) =
  Vector.limit
    (Vector.mk (Fin ((x - px) / d * sqrt (vx * vx + vy * vy)))
               (Fin ((y - py) / d * sqrt (vx * vx + vy * vy))))
    (Fin m).
Proof.
  intros d Hr Hc. unfold Boid.pointImpulse.
  rewrite Hpos, Hvis, Hmax, Hvel, Hcoeff, subtract_fin, !length_fin.
  cbn [Boid.radius div lt le]. rewrite Reqb_false by lra.
  fold d. rewrite Rltb_false by assumption. rewrite Rleb_false by assumption.
  f_equal.
  destruct (Req_dec (x - px) 0) as [Hx | Hx];
    [destruct (Req_dec (y - py) 0) as [Hy | Hy] |].
  - unfold d. rewrite Hx, Hy, normalize_zero, scale_fin.
    f_equal; f_equal; unfold Rdiv; ring.
  - rewrite normalize_fin by now right. apply scale_fin.
  - rewrite normalize_fin by now left. apply scale_fin.
Qed.

End PointImpulse.

(** ** C5: cohesion *)

(** C5, at the failing input.  The first boid of [row_of_three] sees its
    two neighbours, at (110, 100) and (120, 100).  [cohesion] applies
    [pointImpulse] to the sum (230, 200) of their positions: the scaled
    vector is dropped.  The mean (115, 100) is closer than half the
    vision radius, so that the impulse towards the mean is the zero
    vector, while the impulse that [cohesion] returns is not. *)
Theorem cohesion_targets_sum :
  let this := boid_at 100 100 1 0 15 in
  Boid.sees_other this 0 1 (boid_at 110 100 1 0 15) = true
  /\ Boid.sees_other this 0 2 (boid_at 120 100 1 0 15) = true
  /\ Boid.cohesion this 0 row_of_three
     = Boid.pointImpulse this (Vector.mk (Fin 230) (Fin 200))
  /\ Boid.pointImpulse this
       (Vector.scale (Vector.mk (Fin 230) (Fin 200)) (Boid.one_over 2))
     = Vector.new None
  /\ Boid.cohesion this 0 row_of_three <> Vector.new None.
Proof.
  cbv zeta. pose proof PI_RGT_0 as Hpi.
  assert (forall x, 100 < x <= 160 ->
            Boid.canSee (boid_at 100 100 1 0 15) (Fin x) (Fin 100) = true)
    as Hsee.
  { intros x Hx.
    rewrite (canSee_heading_east _ 100 100 1 0 (PI / 4) (15 * 4))
      by (reflexivity || lra).
    rewrite Rminus_diag, sqrt_sumsq_x, atan2_x_pos by lra.
    rewrite Rabs_R0, Rabs_right by lra.
    now rewrite !Rleb_true by lra. }
  assert (Boid.cohesion (boid_at 100 100 1 0 15) 0 row_of_three
          = Boid.pointImpulse (boid_at 100 100 1 0 15)
                              (Vector.mk (Fin 230) (Fin 200))) as Hcoh.
  { unfold Boid.cohesion, row_of_three. cbn [for_each].
    unfold Boid.cohesion_body at 3. unfold Boid.sees_other.
    cbn [Nat.eqb negb andb].
    unfold Boid.cohesion_body at 2. unfold Boid.sees_other.
    cbn [Nat.eqb negb andb boid_at Boid.position Vector.getX Vector.getY
         Vector.v0 Vector.v1].
    rewrite Hsee by lra.
    unfold Boid.cohesion_body. unfold Boid.sees_other.
    cbn [Nat.eqb negb andb boid_at Boid.position Vector.getX Vector.getY
         Vector.v0 Vector.v1].
    rewrite Hsee by lra.
    cbn [Nat.ltb Nat.leb]. unfold Vector.new, zero. rewrite !add_fin.
    f_equal. f_equal; f_equal; lra. }
  assert (15 < sqrt ((230 - 100) * (230 - 100) + (200 - 100) * (200 - 100))
          /\ 15 * 4 / 2 <= sqrt ((230 - 100) * (230 - 100) + (200 - 100) * (200 - 100)))
    as [Hfar1 Hfar2].
  { assert (30 <= sqrt ((230 - 100) * (230 - 100) + (200 - 100) * (200 - 100))).
    { rewrite <- (sqrt_square 30) at 1 by lra. apply sqrt_le_1_alt. lra. }
    lra. }
  split.
  { unfold Boid.sees_other. cbn [Nat.eqb negb andb boid_at Boid.position
                                 Vector.getX Vector.getY Vector.v0 Vector.v1].
    apply Hsee. lra. }
  split.
  { unfold Boid.sees_other. cbn [Nat.eqb negb andb boid_at Boid.position
                                 Vector.getX Vector.getY Vector.v0 Vector.v1].
    apply Hsee. lra. }
  split; [exact Hcoh |].
  split.
  { unfold Boid.one_over. cbn [INR div]. rewrite Reqb_false by lra.
    rewrite scale_fin.
    apply (pointImpulse_near _ 100 100 (PI / 4) (15 * 4) 5); try reflexivity.
    replace (230 * (1 / (1 + 1)) - 100) with 15 by lra.
    replace (200 * (1 / (1 + 1)) - 100) with 0 by lra.
    rewrite sqrt_sumsq_x, Rabs_right by lra. lra. }
  rewrite Hcoh.
  rewrite (pointImpulse_far _ 100 100 1 0 (PI / 4) (15 * 4) 15 5)
    by (reflexivity || assumption).
  set (d := sqrt ((230 - 100) * (230 - 100) + (200 - 100) * (200 - 100))) in *.
  rewrite sqrt_sumsq_x, Rabs_right by lra.
  rewrite limit_fin_le.
  - unfold Vector.new, zero. intros Heq. injection Heq as Hx _.
    assert (0 < (230 - 100) / d * 1); [| lra].
    apply Rmult_lt_0_compat; [| lra].
    apply Rdiv_lt_0_compat; lra.
  - pose proof (unit_scaled_length (230 - 100) (200 - 100) 1) as Hu.
    cbv zeta in Hu. fold d in Hu. rewrite Hu; [lra | left; lra | lra].
Qed.

(** ** C8: a boid that sees nothing *)

Lemma for_each_unchanged_nth {A St : Type} (body : nat -> A -> St -> St)
      (a : list A) (start : nat) (s : St) :
  (forall j x, nth_error a j = Some x -> body (start + j)%nat x s = s) ->
  for_each body start a s = s.
Proof.
  revert start. induction a as [| x a IH]; intros start Hbody; cbn.
  - reflexivity.
  - pose proof (Hbody 0%nat x eq_refl) as H0.
    rewrite Nat.add_0_r in H0. rewrite H0.
    apply IH. intros j y Hj.
    rewrite Nat.add_succ_comm. now apply Hbody.
Qed.

(** Limiting to a positive length scales by a factor in [(0, 1]]. *)
Lemma limit_positive_multiple (a b m : R) :
  0 < m ->
  exists k, 0 < k <= 1
            /\ Vector.limit (Vector.mk (Fin a) (Fin b)) (Fin m)
               = Vector.mk (Fin (a * k)) (Fin (b * k))
            /\ (sqrt (a * a + b * b) <= m -> k = 1).
Proof.
  intros Hm. destruct (Rle_dec (sqrt (a * a + b * b)) m) as [Hle | Hgt].
  - exists 1. split; [lra |]. split; [| reflexivity].
    rewrite limit_fin_le by assumption. f_equal; f_equal; ring.
  - assert (m < sqrt (a * a + b * b)) as Hlt by lra.
    exists (m / sqrt (a * a + b * b)).
    assert (0 < sqrt (a * a + b * b)) as Hs by lra.
    split.
    + split; [apply Rdiv_lt_0_compat; lra |].
      apply (Rmult_le_reg_r (sqrt (a * a + b * b))); [lra |].
      unfold Rdiv. rewrite Rmult_assoc, Rinv_l by lra. lra.
    + split; [| lra].
      rewrite limit_fin_gt by assumption. f_equal; f_equal; field; lra.
Qed.

(** Applying a zero impulse keeps the direction of the velocity. *)
Lemma applyImpulse_zero (this : Boid.t) (vx vy m w : R) :
  Boid.velocity this = Vector.mk (Fin vx) (Fin vy) ->
  Boid.maxImpulse this = Fin m -> 0 < m ->
  exists k, 0 < k <= 1
            /\ Boid.applyImpulse this (Vector.new None) (Fin w)
               = Boid.set_velocity this (Vector.mk (Fin (vx * k)) (Fin (vy * k)))
            /\ (sqrt (vx * vx + vy * vy) <= m -> k = 1).
Proof.
  intros Hv Hmax Hm. unfold Boid.applyImpulse.
  rewrite Hv, Hmax. unfold Vector.new, zero. rewrite scale_fin, add_fin.
  replace (vx + 0 * w) with vx by ring. replace (vy + 0 * w) with vy by ring.
  destruct (limit_positive_multiple vx vy m Hm) as (k & Hk & -> & Hone).
  exists k. auto.
Qed.

Section SeesNothing.

Variable this : Boid.t.
Variable self : nat.
Variable boids : list Boid.t.
Hypothesis Hblind :
  forall i other, nth_error boids i = Some other -> i <> self ->
    Boid.canSee this (Vector.getX (Boid.position other))
                (Vector.getY (Boid.position other)) = false.

Lemma sees_no_other (i : nat) (other : Boid.t) :
  nth_error boids i = Some other -> Boid.sees_other this self i other = false.
Proof.
  intros Hi. unfold Boid.sees_other.
  destruct (Nat.eqb_spec i self) as [Heq | Hne]; [reflexivity |].
  cbn [negb andb]. exact (Hblind i other Hi Hne).
Qed.

Lemma alignment_sees_nothing :
  Boid.alignment this self boids = Vector.new None.
Proof.
  unfold Boid.alignment. rewrite for_each_unchanged_nth; [reflexivity |].
  intros j x Hj. unfold Boid.alignment_body. cbn [Nat.add].
  now rewrite sees_no_other.
Qed.

Lemma cohesion_sees_nothing :
  Boid.cohesion this self boids = Vector.new None.
Proof.
  unfold Boid.cohesion. rewrite for_each_unchanged_nth; [reflexivity |].
  intros j x Hj. unfold Boid.cohesion_body. cbn [Nat.add].
  now rewrite sees_no_other.
Qed.

End SeesNothing.

(** A zero impulse only clamps the velocity. *)
Lemma applyImpulse_zero_limit (this : Boid.t) (vx vy w : R) :
  Boid.velocity this = Vector.mk (Fin vx) (Fin vy) ->
  Boid.applyImpulse this (Vector.new None) (Fin w)
  = Boid.set_velocity this
      (Vector.limit (Vector.mk (Fin vx) (Fin vy)) (Boid.maxImpulse this)).
Proof.
  intros Hv. unfold Boid.applyImpulse.
  rewrite Hv. unfold Vector.new, zero. rewrite scale_fin, add_fin.
  replace (vx + 0 * w) with vx by ring. replace (vy + 0 * w) with vy by ring.
  reflexivity.
Qed.

Lemma set_velocity_same (this : Boid.t) :
  Boid.set_velocity this (Boid.velocity this) = this.
Proof. now destruct this. Qed.






(** ** Loops that write one array slot per iteration *)

Lemma for_upto_S {St : Type} (n : nat) (body : nat -> St -> St) (s : St) :
  for_upto (S n) body s = body n (for_upto n body s).
Proof.
  unfold for_upto. rewrite seq_S, fold_left_app. reflexivity.
Qed.

Lemma set_nth_app {A : Type} (done rest : list A) (old x : A) :
  set_nth (length done) x (done ++ old :: rest) = done ++ x :: rest.
Proof.
  induction done as [| y done IH]; cbn; [reflexivity | now rewrite IH].
Qed.

Lemma skipn_nth_error {A : Type} (k : nat) (l : list A) (b : A) :
  nth_error l k = Some b -> skipn k l = b :: skipn (S k) l.
Proof.
  revert l. induction k as [| k IH]; intros [| y l] H; cbn in *; try discriminate.
  - now injection H as ->.
  - now apply IH.
Qed.

Section SlotLoop.

Variable A : Type.
(** The new value of slot [i], from its old value and the whole array. *)
Variable F : nat -> A -> list A -> A.

(** After [k] iterations the array is a finished part of length [k]
    followed by the untouched rest, and each finished slot was computed
    from the finished slots before it and the untouched slots from it
    on. *)
Lemma slot_loop_prefix (l0 : list A) (k : nat) :
  (k <= length l0)%nat ->
  exists done,
    for_upto k (slot_step F) l0 = done ++ skipn k l0
    /\ length done = k
    /\ forall i b, nth_error l0 i = Some b -> (i < k)%nat ->
         nth_error done i = Some (F i b (firstn i done ++ skipn i l0)).
Proof.
  induction k as [| k IH]; intros Hk.
  - exists []. repeat split. intros i b _ Hi. lia.
  - destruct IH as (done & Hfor & Hlen & Hdone); [lia |].
    destruct (nth_error l0 k) as [b |] eqn:Hb;
      [| apply nth_error_None in Hb; lia].
    exists (done ++ [F k b (done ++ skipn k l0)]).
    rewrite for_upto_S, Hfor. unfold slot_step.
    rewrite (skipn_nth_error k l0 b Hb).
    rewrite nth_error_app2 by lia. rewrite Hlen, Nat.sub_diag. cbn [nth_error].
    rewrite <- Hlen at 1. rewrite set_nth_app.
    split; [now rewrite <- app_assoc |].
    split; [rewrite length_app; cbn; lia |].
    intros i bi Hbi Hi.
    destruct (Nat.eq_dec i k) as [-> | Hne].
    + rewrite nth_error_app2 by lia. rewrite Hlen, Nat.sub_diag. cbn [nth_error].
      rewrite Hb in Hbi. injection Hbi as <-.
      rewrite firstn_app, <- Hlen, firstn_all, Nat.sub_diag. cbn [firstn].
      rewrite app_nil_r, Hlen.
      now rewrite <- (skipn_nth_error k l0 b Hb).
    + rewrite nth_error_app1 by lia.
      rewrite firstn_app.
      replace (i - length done)%nat with 0%nat by lia. cbn [firstn].
      rewrite app_nil_r. apply Hdone; [assumption | lia].
Qed.

Lemma slot_loop_spec (l0 : list A) :
  let l := for_upto (length l0) (slot_step F) l0 in
  length l = length l0
  /\ forall i,
       nth_error l i =
       option_map (fun b => F i b (firstn i l ++ skipn i l0)) (nth_error l0 i).
Proof.
  cbv zeta.
  destruct (slot_loop_prefix l0 (length l0) (le_n _)) as (done & -> & Hlen & Hdone).
  rewrite skipn_all, app_nil_r. split; [assumption |].
  intros i. destruct (nth_error l0 i) as [b |] eqn:Hb; cbn [option_map].
  - apply Hdone; [assumption |]. apply nth_error_Some. congruence.
  - apply nth_error_None. apply nth_error_None in Hb. lia.
Qed.

End SlotLoop.

(** ** C2: the two phases of a tick *)

Lemma applyImpulse_position (this : Boid.t) (impulse : Vector.t) (weight : num) :
  Boid.position (Boid.applyImpulse this impulse weight) = Boid.position this.
Proof. reflexivity. Qed.

Lemma applyRules_position (this : Boid.t) (self : nat) (boids : list Boid.t)
      (width height : num) :
  Boid.position (Boid.applyRules this self boids width height)
  = Boid.position this.
Proof.
  unfold Boid.applyRules.
  destruct (Boid.wallAvoidance this width height); reflexivity.
Qed.

Lemma move_velocity (this : Boid.t) :
  Boid.velocity (Boid.move this) = Boid.velocity this.
Proof. reflexivity. Qed.

(** The second loop of [moveFlock] moves every boid. *)
Lemma move_loop_map (boids : list Boid.t) :
  for_upto (length boids) Flock.move_step boids = map Boid.move boids.
Proof.
  destruct (slot_loop_spec Boid.t (fun _ b _ => Boid.move b) boids) as [_ Hnth].
  apply nth_error_ext. intros i. unfold Flock.move_step.
  rewrite Hnth, nth_error_map. reflexivity.
Qed.

(** All moves of a tick come after all decisions. *)
Lemma moveFlock_boids (fl : Flock.t) :
  Flock.boids (Flock.moveFlock fl) = map Boid.move (Flock.decide fl).
Proof.
  unfold Flock.moveFlock. cbn [Flock.boids]. apply move_loop_map.
Qed.

(** Boid [i] decides from the array in which the boids before it have
    decided already. *)
Lemma decide_nth (fl : Flock.t) (i : nat) :
  nth_error (Flock.decide fl) i =
  option_map
    (fun b =>
       Boid.applyRules b i
         (firstn i (Flock.decide fl) ++ skipn i (Flock.boids fl))
         (of_nat (Flock.canvas_width fl)) (of_nat (Flock.canvas_height fl)))
    (nth_error (Flock.boids fl) i).
Proof.
  pose proof
    (slot_loop_spec Boid.t
       (fun i b boids =>
          Boid.applyRules b i boids
            (of_nat (Flock.canvas_width fl)) (of_nat (Flock.canvas_height fl)))
       (Flock.boids fl)) as [_ Hnth].
  apply Hnth.
Qed.

Lemma decide_positions (fl : Flock.t) :
  map Boid.position (Flock.decide fl) = map Boid.position (Flock.boids fl).
Proof.
  apply nth_error_ext. intros i. rewrite !nth_error_map, decide_nth.
  destruct (nth_error (Flock.boids fl) i); cbn [option_map]; [| reflexivity].
  now rewrite applyRules_position.
Qed.

(** C2, as the code has it.  In a tick every [applyRules] call is made
    before any [move] call, and the first loop changes no position.  It
    does change velocities: [applyRules] writes the velocity of its boid
    in the array, so that boid [i] decides from the array in which the
    boids before it already have their new velocity and the boids from
    [i] on still have the velocity of the start of the tick. *)
Theorem moveFlock_phases (fl : Flock.t) :
  Flock.boids (Flock.moveFlock fl) = map Boid.move (Flock.decide fl)
  /\ map Boid.position (Flock.decide fl) = map Boid.position (Flock.boids fl)
  /\ forall i,
       nth_error (Flock.decide fl) i =
       option_map
         (fun b =>
            Boid.applyRules b i
              (firstn i (Flock.decide fl) ++ skipn i (Flock.boids fl))
              (of_nat (Flock.canvas_width fl)) (of_nat (Flock.canvas_height fl)))
         (nth_error (Flock.boids fl) i).
Proof.
  split; [apply moveFlock_boids |].
  split; [apply decide_positions | apply decide_nth].
Qed.

(** ** Boids on a horizontal line, heading along the positive x-axis *)

(** A point ahead, within the vision radius, is seen. *)
Lemma sees_ahead (px py vx sz x : R) :
  0 <= vx -> px < x -> x - px <= sz * 4 ->
  Boid.canSee (boid_at px py vx 0 sz) (Fin x) (Fin py) = true.
Proof.
  intros Hv Hx Hr. pose proof PI_RGT_0 as Hpi.
  rewrite (canSee_heading_east _ px py vx 0 (PI / 4) (sz * 4))
    by (reflexivity || assumption).
  rewrite Rminus_diag, sqrt_sumsq_x, atan2_x_pos by lra.
  rewrite Rabs_R0, Rabs_right by lra.
  now rewrite !Rleb_true by lra.
Qed.

(** A point straight behind is not seen, however close. *)
Lemma blind_behind (px py vx sz x : R) :
  0 <= vx -> x < px ->
  Boid.canSee (boid_at px py vx 0 sz) (Fin x) (Fin py) = false.
Proof.
  intros Hv Hx. pose proof PI_RGT_0 as Hpi.
  rewrite (canSee_heading_east _ px py vx 0 (PI / 4) (sz * 4))
    by (reflexivity || assumption).
  rewrite Rminus_diag, atan2_x_neg by lra.
  rewrite (Rabs_right PI) by lra.
  rewrite (Rleb_false PI) by lra. apply andb_false_r.
Qed.

(** The impulse towards a far point straight behind turns the boid
    around at its current speed. *)
Lemma pointImpulse_behind (px py vx sz x : R) :
  0 <= vx <= 5 -> sz * 4 / 2 <= px - x -> 15 < px - x ->
  Boid.pointImpulse (boid_at px py vx 0 sz) (Vector.mk (Fin x) (Fin py))
  = Vector.mk (Fin (- vx)) (Fin 0).
Proof.
  intros Hv Hr Hc.
  assert (sqrt ((x - px) * (x - px) + (py - py) * (py - py)) = px - x) as Hd.
  { rewrite Rminus_diag, sqrt_sumsq_x. rewrite Rabs_left by lra. ring. }
  rewrite (pointImpulse_far _ px py vx 0 (PI / 4) (sz * 4) 15 5)
    by (reflexivity || (rewrite Hd; lra)).
  rewrite Hd, sqrt_sumsq_x, (Rabs_right vx) by lra.
  replace ((x - px) / (px - x) * vx) with (- vx) by (field; lra).
  replace ((py - py) / (px - x) * vx) with 0 by (field; lra).
  apply limit_fin_le. rewrite sqrt_sumsq_x, Rabs_Ropp, Rabs_right; lra.
Qed.

Lemma applyImpulse_on_axis (this : Boid.t) (vx ix w : R) :
  Boid.velocity this = Vector.mk (Fin vx) (Fin 0) ->
  Boid.maxImpulse this = Fin 5 ->
  -5 <= vx + ix * w <= 5 ->
  Boid.applyImpulse this (Vector.mk (Fin ix) (Fin 0)) (Fin w)
  = Boid.set_velocity this (Vector.mk (Fin (vx + ix * w)) (Fin 0)).
Proof.
  intros Hv Hm Hb. unfold Boid.applyImpulse.
  rewrite Hv, Hm, scale_fin, add_fin.
  replace (0 + 0 * w) with 0 by ring.
  rewrite limit_fin_le; [reflexivity |].
  rewrite sqrt_sumsq_x. unfold Rabs. destruct (Rcase_abs _); lra.
Qed.

(** Rule composition for such a boid when the impulses lie on the x-axis
    and no step goes over [maxImpulse]. *)
Lemma applyRules_on_axis (px py vx sz ax cx : R) (wall : option R)
      (self : nat) (boids : list Boid.t) (width height : num) :
  let this := boid_at px py vx 0 sz in
  Boid.alignment this self boids = Vector.mk (Fin ax) (Fin 0) ->
  Boid.cohesion this self boids = Vector.mk (Fin cx) (Fin 0) ->
  Boid.wallAvoidance this width height
  = option_map (fun wx => Vector.mk (Fin wx) (Fin 0)) wall ->
  let wx := match wall with Some wx => wx | None => 0 end in
  -5 <= vx <= 5 ->
  -5 <= vx + ax * (14 / 10) <= 5 ->
  -5 <= vx + ax * (14 / 10) + cx <= 5 ->
  -5 <= vx + ax * (14 / 10) + cx + wx * (17 / 10) <= 5 ->
  Boid.applyRules this self boids width height
  = boid_at px py (vx + ax * (14 / 10) + cx + wx * (17 / 10)) 0 sz.
Proof.
  intros this Hal Hco Hwall wx H0 H1 H2 H3.
  unfold Boid.applyRules.
  rewrite separation_zero by discriminate. rewrite Hal, Hco, Hwall.
  unfold Vector.new, zero, this.
  rewrite (applyImpulse_on_axis _ vx 0 1) by (reflexivity || lra).
  cbn [boid_at Boid.set_velocity Boid.weights Boid.w_alignment Boid.size
       Boid.vision Boid.position Boid.maxImpulse Boid.pointImpulseCoeff
       Boid.separationCoeff Boid.pointImpulseLimit].
  rewrite (applyImpulse_on_axis _ (vx + 0 * 1) ax (14 / 10))
    by (reflexivity || lra).
  cbn [boid_at Boid.set_velocity Boid.weights Boid.w_cohesion Boid.size
       Boid.vision Boid.position Boid.maxImpulse Boid.pointImpulseCoeff
       Boid.separationCoeff Boid.pointImpulseLimit].
  rewrite (applyImpulse_on_axis _ (vx + 0 * 1 + ax * (14 / 10)) cx 1)
    by (reflexivity || lra).
  cbn [boid_at Boid.set_velocity Boid.weights Boid.w_avoidance Boid.size
       Boid.vision Boid.position Boid.maxImpulse Boid.pointImpulseCoeff
       Boid.separationCoeff Boid.pointImpulseLimit].
  destruct wall as [w |]; cbn [option_map]; subst wx.
  - rewrite (applyImpulse_on_axis _ (vx + 0 * 1 + ax * (14 / 10) + cx * 1) w (17 / 10))
      by (reflexivity || lra).
    transitivity
      (boid_at px py (vx + 0 * 1 + ax * (14 / 10) + cx * 1 + w * (17 / 10)) 0 sz);
      [reflexivity | f_equal; ring].
  - transitivity (boid_at px py (vx + 0 * 1 + ax * (14 / 10) + cx * 1) 0 sz);
      [reflexivity | f_equal; ring].
Qed.

Lemma of_nat_1000 : of_nat 1000 = Fin 1000.
Proof.
  unfold of_nat. rewrite INR_IZR_INZ. reflexivity.
Qed.

Lemma of_nat_500 : of_nat 500 = Fin 500.
Proof.
  unfold of_nat. rewrite INR_IZR_INZ. reflexivity.
Qed.

Lemma normalize_axis (a : R) :
  a <> 0 ->
  Vector.normalize (Vector.mk (Fin a) (Fin 0)) = Vector.mk (Fin (a / Rabs a)) (Fin 0).
Proof.
  intros Ha. rewrite normalize_fin by now left.
  rewrite sqrt_sumsq_x. f_equal. f_equal. unfold Rdiv. ring.
Qed.

(** [alignment] from the sum and the count that its loop ends with, when
    the sum lies on the x-axis. *)
Lemma alignment_on_axis (px py vx sz sx : R) (n self : nat) (boids : list Boid.t) :
  let this := boid_at px py vx 0 sz in
  for_each (Boid.alignment_body this self) 0 boids (Vector.new None, O)
  = (Vector.mk (Fin sx) (Fin 0), S n) ->
  sx <> 0 -> 0 <= vx ->
  -5 <= sx / Rabs sx * vx - vx <= 5 ->
  Boid.alignment this self boids
  = Vector.mk (Fin (sx / Rabs sx * vx - vx)) (Fin 0).
Proof.
  intros this Hloop Hsx Hvx. unfold Boid.alignment. rewrite Hloop.
  cbn [Nat.ltb Nat.leb].
  assert (0 < INR (S n)) as Hn by (apply lt_0_INR; lia).
  set (c := INR (S n)) in *.
  unfold Boid.one_over. fold c. clearbody c.
  cbn [div]. rewrite Reqb_false by lra.
  rewrite scale_fin.
  replace (0 * (1 / c)) with 0 by ring.
  assert (sx * (1 / c) <> 0) as Hne.
  { unfold Rdiv. rewrite Rmult_1_l. apply Rmult_integral_contrapositive_currified;
      [assumption | apply Rinv_neq_0_compat; lra]. }
  rewrite normalize_axis by assumption.
  assert (sx * (1 / c) / Rabs (sx * (1 / c)) = sx / Rabs sx) as ->.
  { rewrite Rabs_mult. rewrite (Rabs_right (1 / c)).
    - field. repeat split; first [lra | apply Rabs_no_R0; assumption].
    - apply Rle_ge. unfold Rdiv. rewrite Rmult_1_l. left.
      now apply Rinv_0_lt_compat. }
  cbn [this boid_at Boid.velocity Boid.maxImpulse].
  rewrite length_fin, sqrt_sumsq_x, (Rabs_right vx) by lra.
  rewrite scale_fin, subtract_fin.
  replace (0 * vx - 0) with 0 by ring.
  intros Hb. apply limit_fin_le. rewrite sqrt_sumsq_x.
  set (e := sx / Rabs sx * vx - vx) in *.
  unfold Rabs. destruct (Rcase_abs e); lra.
Qed.

(** ** The flock [in_line] *)

(** Near the right edge of the canvas of 1000 by 500, heading for it: the
    wall impulse points back to the centre of the canvas. *)
Lemma wallAvoidance_right_edge (px vx : R) :
  0 <= vx <= 5 -> 940 <= px < 1000 ->
  Boid.wallAvoidance (boid_at px 250 vx 0 15) (Fin 1000) (Fin 500)
  = Some (Vector.mk (Fin (- vx)) (Fin 0)).
Proof.
  intros Hv Hp. unfold Boid.wallAvoidance.
  cbn [boid_at Boid.position Vector.getX Vector.getY Vector.v0 Vector.v1].
  change (Boid.mk (Fin 15) (Boid.mkVision (Fin (PI / 4)) (Fin (15 * 4)))
            (Vector.mk (Fin px) (Fin 250)) (Vector.mk (Fin vx) (Fin 0))
            (Fin 5) (Fin 15) (Fin 10) (Fin 100)
            (Boid.mkWeights (Fin 1) (Fin 1) (Fin (14 / 10)) (Fin (17 / 10))))
    with (boid_at px 250 vx 0 15).
  rewrite (blind_behind px 250 vx 15 0) by lra.
  rewrite (canSee_far_y (boid_at px 250 vx 0 15) px 250 vx 0 (PI / 4) (15 * 4)
                        eq_refl eq_refl eq_refl 0) by (right; lra).
  rewrite (sees_ahead px 250 vx 15 1000) by lra.
  cbn [orb div]. rewrite !Reqb_false by lra.
  replace (500 / 2) with 250 by lra.
  change (Vector.new (Some [Fin (1000 / 2); Fin 250]))
    with (Vector.mk (Fin (1000 / 2)) (Fin 250)).
  rewrite pointImpulse_behind by lra. reflexivity.
Qed.

(** The leader sees neither the follower nor any wall but the right one,
    and turns around. *)
Lemma leader_decides :
  Boid.applyRules leader 0 [leader; follower] (Fin 1000) (Fin 500)
  = boid_at 950 250 (- (7 / 10)) 0 15.
Proof.
  assert (forall i other,
            nth_error [leader; follower] i = Some other ->
            i <> 0%nat ->
            Boid.canSee leader (Vector.getX (Boid.position other))
                        (Vector.getY (Boid.position other)) = false)
    as Hblind.
  { intros [| [| i]] other Hi Hne; cbn in Hi.
    - contradiction.
    - injection Hi as <-. apply (blind_behind 950 250 1 15 940); lra.
    - destruct i; discriminate. }
  unfold leader at 1.
  rewrite (applyRules_on_axis 950 250 1 15 0 0 (Some (- 1))).
  - f_equal. lra.
  - now apply alignment_sees_nothing.
  - now apply cohesion_sees_nothing.
  - cbn [option_map]. rewrite wallAvoidance_right_edge by lra. reflexivity.
  - lra.
  - lra.
  - lra.
  - lra.
Qed.

(** The follower sees the leader, 10 ahead of it, and aligns with the
    velocity that it finds there. *)
Lemma follower_decides (u : R) :
  u <> 0 ->
  Boid.applyRules follower 1 [boid_at 950 250 u 0 15; follower]
                  (Fin 1000) (Fin 500)
  = boid_at 940 250 (1 + (u / Rabs u - 1) * (14 / 10) - 17 / 10) 0 15.
Proof.
  intros Hu.
  assert (Boid.canSee follower (Fin 950) (Fin 250) = true) as Hsee
    by (apply (sees_ahead 940 250 1 15 950); lra).
  assert (-1 <= u / Rabs u <= 1) as Hsign.
  { unfold Rabs. destruct (Rcase_abs u).
    - replace (u / - u) with (- 1) by (field; lra). lra.
    - replace (u / u) with 1 by (field; lra). lra. }
  unfold follower at 1.
  rewrite (applyRules_on_axis 940 250 1 15 (u / Rabs u * 1 - 1) 0 (Some (- 1))).
  - f_equal. lra.
  - apply (alignment_on_axis 940 250 1 15 u 0); try lra.
    cbn [for_each]. unfold Boid.alignment_body, Boid.sees_other.
    cbn [Nat.eqb negb andb boid_at Boid.position Boid.velocity
         Vector.getX Vector.getY Vector.v0 Vector.v1].
    fold follower. rewrite Hsee.
    unfold Vector.new, zero. rewrite add_fin.
    f_equal. f_equal; f_equal; ring.
  - unfold Boid.cohesion. cbn [for_each].
    unfold Boid.cohesion_body, Boid.sees_other.
    cbn [Nat.eqb negb andb boid_at Boid.position Boid.velocity
         Vector.getX Vector.getY Vector.v0 Vector.v1].
    fold follower. rewrite Hsee.
    cbn [Nat.ltb Nat.leb]. unfold Vector.new at 1, zero. rewrite add_fin.
    apply (pointImpulse_near _ 940 250 (PI / 4) (15 * 4) 5); try reflexivity.
    replace (0 + 950 - 940) with 10 by lra.
    replace (0 + 250 - 250) with 0 by lra.
    rewrite sqrt_sumsq_x, Rabs_right; lra.
  - cbn [option_map]. rewrite wallAvoidance_right_edge by lra. reflexivity.
  - lra.
  - lra.
  - lra.
  - lra.
Qed.

(** C2, as stated, fails on [in_line].  The first loop of [moveFlock]
    changes the velocity of the leader from (1, 0) to (-7/10, 0) before
    the follower decides; the follower aligns with the changed velocity
    and ends the loop with the velocity (-35/10, 0), whereas deciding
    from the array of the start of the tick gives it (-7/10, 0). *)
Lemma decide_not_from_snapshot :
  Flock.decide in_line
  = [boid_at 950 250 (- (7 / 10)) 0 15; boid_at 940 250 (- (35 / 10)) 0 15]
  /\ Boid.velocity leader <> Boid.velocity (boid_at 950 250 (- (7 / 10)) 0 15)
  /\ Boid.applyRules follower 1 (Flock.boids in_line)
       (of_nat (Flock.canvas_width in_line)) (of_nat (Flock.canvas_height in_line))
     = boid_at 940 250 (- (7 / 10)) 0 15
  /\ boid_at 940 250 (- (35 / 10)) 0 15 <> boid_at 940 250 (- (7 / 10)) 0 15.
Proof.
  assert (Rabs (- (7 / 10)) = 7 / 10) as Habs
    by (rewrite Rabs_left; lra).
  split; [| split; [| split]].
  - unfold Flock.decide, for_upto, in_line.
    cbn [Flock.boids Flock.canvas_width Flock.canvas_height length seq fold_left].
    rewrite of_nat_1000, of_nat_500.
    unfold Flock.decide_step, slot_step. cbn [nth_error].
    rewrite leader_decides. cbn [set_nth nth_error].
    rewrite follower_decides by lra. cbn [set_nth].
    rewrite Habs. do 2 f_equal. f_equal. field.
  - unfold leader, boid_at. cbn [Boid.velocity]. intros H.
    injection H as H. lra.
  - unfold in_line. cbn [Flock.boids Flock.canvas_width Flock.canvas_height].
    rewrite of_nat_1000, of_nat_500.
    unfold leader. rewrite follower_decides by lra.
    rewrite Rabs_R1. f_equal. field.
  - unfold boid_at. intros H. injection H as H. lra.
Qed.
Lemma INR_400 : INR 400 = 400.
Proof. rewrite INR_IZR_INZ. reflexivity. Qed.

Lemma INR_200 : INR 200 = 200.
Proof. rewrite INR_IZR_INZ. reflexivity. Qed.

(** The flock that the constructor makes from [stalled_draws]. *)
Lemma stalled_boids :
  stalled = Flock.mk 400 200 [boid_at 100 100 0 0 6; boid_at 113 100 1 0 6].
Proof.
  unfold stalled, Flock.new, for_upto. cbn [seq fold_left fst snd].
  assert (forall (bs : list Boid.t) (g : rng) (x vx : R),
             g 0%nat * 400 = x -> x <> 0 -> g 1%nat = 1 / 2 ->
             g 2%nat * 4 - 2 = vx -> g 3%nat = 1 / 2 ->
             Flock.addRandomBoid (Flock.mk 400 200 bs) g
             = (Flock.mk 400 200 (bs ++ [boid_at x 100 vx 0 6]),
                fun n => g (S (S (S (S n)))))) as Hadd.
  { intros bs g x vx Hx Hx0 Hy Hvx Hvy.
    rewrite addRandomBoid_fin;
      cbn [Flock.canvas_width Flock.canvas_height Flock.boids];
      rewrite ?INR_400, ?INR_200; try lra.
    rewrite Hx, Hy, Hvx, Hvy. do 4 f_equal. f_equal; lra. }
  rewrite (Hadd [] stalled_draws 100 0) by (unfold stalled_draws; cbn [nth]; lra).
  cbn [fst snd app].
  rewrite (Hadd _ _ 113 1) by (unfold stalled_draws; cbn [nth]; lra).
  reflexivity.
Qed.

(** ** C1: the speed bound *)

(** [applyImpulse] keeps the length of the velocity at [maxImpulse] or
    below when the velocity, the impulse and the weight are finite and
    [maxImpulse] is not negative. *)
Lemma applyImpulse_bounded (this : Boid.t) (vx vy ix iy w m : R) :
  Boid.velocity this = Vector.mk (Fin vx) (Fin vy) ->
  Boid.maxImpulse this = Fin m -> 0 <= m ->
  exists s,
    Vector.length (Boid.velocity
                     (Boid.applyImpulse this (Vector.mk (Fin ix) (Fin iy)) (Fin w)))
    = Fin s
    /\ s <= m.
Proof.
  intros Hv Hm Hpos. unfold Boid.applyImpulse.
  rewrite Hv, Hm, scale_fin, add_fin. cbn [Boid.velocity Boid.set_velocity].
  destruct (limit_fin_bound (vx + ix * w) (vy + iy * w) m Hpos)
    as (a' & b' & -> & Hle).
  rewrite length_fin. eauto.
Qed.

(** The impulse towards a point in the near field, straight ahead of a
    boid that stands still: the scale factor is [1 / 0]. *)
Lemma pointImpulse_standing (px py sz x : R) :
  sz * 4 / 2 <= x - px <= 15 -> 0 < x - px ->
  Boid.pointImpulse (boid_at px py 0 0 sz) (Vector.mk (Fin x) (Fin py))
  = Vector.mk PInf NaN.
Proof.
  intros Hd Hpos. unfold Boid.pointImpulse.
  cbn [boid_at Boid.position Boid.vision Boid.radius Boid.velocity
       Boid.pointImpulseCoeff Boid.maxImpulse].
  rewrite subtract_fin.
  rewrite !length_fin, Rminus_diag, !sqrt_sumsq_x, Rabs_R0.
  rewrite (Rabs_right (x - px)) by lra.
  cbn [div lt le mul]. rewrite Reqb_false by lra.
  rewrite Rltb_false by lra. rewrite Rleb_true by lra.
  rewrite Reqb_false by lra.
  rewrite (Reqb_true (0 * (x - px) / 15) 0) by (unfold Rdiv; ring).
  unfold inf_of_sign at 1. rewrite Rltb_true by lra.
  change (Vector.new (Some (Vector.values (Vector.mk (Fin (x - px)) (Fin 0)))))
    with (Vector.mk (Fin (x - px)) (Fin 0)).
  rewrite normalize_axis by lra. rewrite (Rabs_right (x - px)) by lra.
  unfold Vector.scale. cbn [Vector.v0 Vector.v1 mul].
  unfold inf_of_sign.
  rewrite (Rltb_true 0 ((x - px) / (x - px)))
    by (apply Rdiv_lt_0_compat; lra).
  rewrite !Rltb_false by lra.
  reflexivity.
Qed.

(** An impulse with an infinite and a NaN entry takes the velocity with
    it: its length is NaN, which no limit is below. *)
Lemma applyImpulse_runaway (this : Boid.t) (vx vy w : R) :
  Boid.velocity this = Vector.mk (Fin vx) (Fin vy) -> 0 < w ->
  Boid.applyImpulse this (Vector.mk PInf NaN) (Fin w)
  = Boid.set_velocity this (Vector.mk PInf NaN).
Proof.
  intros Hv Hw. unfold Boid.applyImpulse. rewrite Hv.
  unfold Vector.scale. cbn [Vector.v0 Vector.v1 mul].
  unfold inf_of_sign. rewrite Rltb_true by assumption.
  unfold Vector.add. cbn [Vector.v0 Vector.v1 add Vector.new nth].
  unfold Vector.limit.
  change (Vector.length (Vector.mk PInf NaN)) with NaN.
  unfold gt. now rewrite lt_NaN_r.
Qed.

(** The first boid of [stalled] decides: the second boid is 13 ahead of
    it, inside the near field of [pointImpulse], and its own speed is 0. *)
Lemma stalled_boid_decides :
  Boid.applyRules (boid_at 100 100 0 0 6) 0
                  [boid_at 100 100 0 0 6; boid_at 113 100 1 0 6]
                  (Fin 400) (Fin 200)
  = Boid.set_velocity (boid_at 100 100 0 0 6) (Vector.mk PInf NaN).
Proof.
  assert (Boid.canSee (boid_at 100 100 0 0 6) (Fin 113) (Fin 100) = true) as Hsee
    by (apply (sees_ahead 100 100 0 6 113); lra).
  assert (Boid.alignment (boid_at 100 100 0 0 6) 0
                         [boid_at 100 100 0 0 6; boid_at 113 100 1 0 6]
          = Vector.mk (Fin 0) (Fin 0)) as Hal.
  { rewrite (alignment_on_axis 100 100 0 6 1 0); rewrite ?Rabs_R1; try lra.
    - f_equal. f_equal. lra.
    - cbn [for_each]. unfold Boid.alignment_body, Boid.sees_other.
      cbn [Nat.eqb negb andb].
      change (Boid.position (boid_at 113 100 1 0 6))
        with (Vector.mk (Fin 113) (Fin 100)).
      cbn [Vector.getX Vector.getY Vector.v0 Vector.v1].
      rewrite Hsee. unfold Vector.new, zero.
      change (Boid.velocity (boid_at 113 100 1 0 6))
        with (Vector.mk (Fin 1) (Fin 0)).
      rewrite add_fin. f_equal. f_equal; f_equal; ring. }
  assert (Boid.cohesion (boid_at 100 100 0 0 6) 0
                        [boid_at 100 100 0 0 6; boid_at 113 100 1 0 6]
          = Vector.mk PInf NaN) as Hco.
  { unfold Boid.cohesion. cbn [for_each].
    unfold Boid.cohesion_body, Boid.sees_other. cbn [Nat.eqb negb andb].
    change (Boid.position (boid_at 113 100 1 0 6))
      with (Vector.mk (Fin 113) (Fin 100)).
    cbn [Vector.getX Vector.getY Vector.v0 Vector.v1].
    rewrite Hsee. cbn [Nat.ltb Nat.leb]. unfold Vector.new at 1, zero.
    rewrite add_fin.
    replace (0 + 113) with 113 by ring. replace (0 + 100) with 100 by ring.
    apply pointImpulse_standing; lra. }
  assert (Boid.wallAvoidance (boid_at 100 100 0 0 6) (Fin 400) (Fin 200) = None)
    as Hwall.
  { unfold Boid.wallAvoidance.
    change (Boid.position (boid_at 100 100 0 0 6))
      with (Vector.mk (Fin 100) (Fin 100)).
    cbn [Vector.getX Vector.getY Vector.v0 Vector.v1].
    rewrite (blind_behind 100 100 0 6 0) by lra.
    rewrite (canSee_far_y (boid_at 100 100 0 0 6) 100 100 0 0 (PI / 4) (6 * 4)
                          eq_refl eq_refl eq_refl 0) by (right; lra).
    rewrite (canSee_far_x (boid_at 100 100 0 0 6) 100 100 0 0 (PI / 4) (6 * 4)
                          eq_refl eq_refl eq_refl 400) by (left; lra).
    rewrite (canSee_far_y (boid_at 100 100 0 0 6) 100 100 0 0 (PI / 4) (6 * 4)
                          eq_refl eq_refl eq_refl 200) by (left; lra).
    reflexivity. }
  unfold Boid.applyRules.
  rewrite separation_zero by discriminate. rewrite Hal, Hco, Hwall.
  unfold Vector.new, zero.
  rewrite (applyImpulse_on_axis _ 0 0 1) by (reflexivity || lra).
  cbn [boid_at Boid.set_velocity Boid.weights Boid.w_alignment Boid.size
       Boid.vision Boid.position Boid.maxImpulse Boid.pointImpulseCoeff
       Boid.separationCoeff Boid.pointImpulseLimit].
  rewrite (applyImpulse_on_axis _ (0 + 0 * 1) 0 (14 / 10)) by (reflexivity || lra).
  cbn [boid_at Boid.set_velocity Boid.weights Boid.w_cohesion Boid.size
       Boid.vision Boid.position Boid.maxImpulse Boid.pointImpulseCoeff
       Boid.separationCoeff Boid.pointImpulseLimit].
  rewrite (applyImpulse_runaway _ (0 + 0 * 1 + 0 * (14 / 10)) 0 1)
    by (reflexivity || lra).
  reflexivity.
Qed.

(** C1, at the failing input.  In the flock [stalled], as the constructor
    makes it, every velocity is shorter than [maxImpulse].  After one
    tick the velocity of the first boid is (Infinity, NaN): [pointImpulse]
    divides by the speed 0 of that boid, [limit] lets the impulse and
    then the velocity through because their length is NaN, and the test
    [|velocity| <= maxImpulse] is false for it. *)
Theorem stalled_boid_exceeds_maxImpulse :
  Forall (fun b => le (Vector.length (Boid.velocity b)) (Boid.maxImpulse b) = true)
         (Flock.boids stalled)
  /\ exists b,
       nth_error (Flock.boids (Flock.moveFlock stalled)) 0 = Some b
       /\ Boid.velocity b = Vector.mk PInf NaN
       /\ Boid.maxImpulse b = Fin 5
       /\ le (Vector.length (Boid.velocity b)) (Boid.maxImpulse b) = false.
Proof.
  rewrite stalled_boids. split.
  - cbn [Flock.boids]. repeat constructor;
      cbn [boid_at Boid.velocity Boid.maxImpulse];
      rewrite length_fin, sqrt_sumsq_x; cbn [le]; apply Rleb_true;
      rewrite ?Rabs_R0, ?Rabs_R1; lra.
  - exists (Boid.move (Boid.set_velocity (boid_at 100 100 0 0 6)
                                         (Vector.mk PInf NaN))).
    split; [| repeat split].
    rewrite moveFlock_boids, nth_error_map, decide_nth.
    cbn [Flock.boids Flock.canvas_width Flock.canvas_height nth_error
         option_map firstn skipn app].
    unfold of_nat. rewrite INR_400, INR_200.
    now rewrite stalled_boid_decides.
Qed.

(** ** C10: a stationary boid in a tick *)

(** C10, at the failing input.  The first boid of [stalled] stands still:
    its velocity is the zero vector, and [getDirection] returns 0 for it.
    The tick gives it the velocity (Infinity, NaN), by the division of
    [pointImpulse] by its speed 0, and moves it to (Infinity, NaN):
    after the tick [getDirection] returns NaN for it, and [canSee] is
    false for every point. *)
Theorem stationary_boid_loses_heading :
  exists b b',
    nth_error (Flock.boids stalled) 0 = Some b
    /\ Boid.velocity b = Vector.new None
    /\ Boid.getDirection b = Fin 0
    /\ nth_error (Flock.boids (Flock.moveFlock stalled)) 0 = Some b'
    /\ Boid.velocity b' = Vector.mk PInf NaN
    /\ Boid.getDirection b' = NaN
    /\ forall x y : num, Boid.canSee b' x y = false.
Proof.
  exists (boid_at 100 100 0 0 6),
         (Boid.move (Boid.set_velocity (boid_at 100 100 0 0 6)
                                       (Vector.mk PInf NaN))).
  rewrite stalled_boids.
  split; [reflexivity |]. split; [reflexivity |].
  split; [apply getDirection_stationary; [reflexivity | exact I | exact I] |].
  split.
  { rewrite moveFlock_boids, nth_error_map, decide_nth.
    cbn [Flock.boids Flock.canvas_width Flock.canvas_height nth_error
         option_map firstn skipn app].
    unfold of_nat. rewrite INR_400, INR_200.
    now rewrite stalled_boid_decides. }
  split; [reflexivity |]. split; [reflexivity |].
  intros [x | | |] [y | | |]; reflexivity.
Qed.

(** * Further properties of the code *)

(** The numbers of the model are exact on finite values.  The properties
    of this part are stated so that they do not rest on it: through
    special values, signs and comparisons, through the operations of the
    code themselves, or with a margin. *)

(** ** class Vector *)

Lemma add_comm (a b : num) : add a b = add b a.
Proof.
  destruct a, b; cbn; try reflexivity. f_equal. ring.
Qed.

Lemma add_zero_r (a : num) : add a (Fin 0) = a.
Proof.
  destruct a; cbn; try reflexivity. f_equal. ring.
Qed.

(** X1.  [add] is commutative and has the zero vector as neutral element
    for all entries, NaN and the infinities included.  A vector with
    finite entries minus itself is the zero vector.  Adding a vector with
    an infinite entry and subtracting it again does not give the vector
    back: the entry becomes NaN. *)
Theorem Vector_add_subtract :
  (forall v w : Vector.t, Vector.add v w = Vector.add w v)
  /\ (forall v : Vector.t, Vector.add v (Vector.new None) = v)
  /\ (forall a b : R,
        Vector.subtract (Vector.mk (Fin a) (Fin b)) (Vector.mk (Fin a) (Fin b))
        = Vector.new None)
  /\ (forall (a : R) (y w : num),
        Vector.getX (Vector.subtract (Vector.add (Vector.mk (Fin a) y)
                                                 (Vector.mk PInf w))
                                     (Vector.mk PInf w))
        = NaN).
Proof.
  split; [| split; [| split]].
  - intros [a b] [c d]. unfold Vector.add. cbn [Vector.v0 Vector.v1].
    now rewrite (add_comm a c), (add_comm b d).
  - intros [a b]. unfold Vector.add, Vector.new, zero.
    cbn [Vector.v0 Vector.v1 nth]. now rewrite !add_zero_r.
  - intros a b. rewrite subtract_fin. unfold Vector.new, zero.
    f_equal; f_equal; ring.
  - intros a y w. reflexivity.
Qed.

(** X2.  [length] is never negative, whatever the entries are.  It is
    NaN exactly when an entry is NaN, it is Infinity when an entry is
    infinite and none is NaN, and it is 0 for the zero vector. *)
Theorem Vector_length_sign :
  (forall v : Vector.t, lt (Vector.length v) (Fin 0) = false)
  /\ (forall v : Vector.t,
        Vector.length v = NaN <-> Vector.v0 v = NaN \/ Vector.v1 v = NaN)
  /\ Forall (fun s : num =>
               (forall a : R, Vector.length (Vector.mk s (Fin a)) = PInf
                              /\ Vector.length (Vector.mk (Fin a) s) = PInf)
               /\ Vector.length (Vector.mk s PInf) = PInf
               /\ Vector.length (Vector.mk s NInf) = PInf)
            [PInf; NInf]
  /\ Vector.length (Vector.new None) = Fin 0.
Proof.
  assert (forall x, mul x x = NaN /\ x = NaN \/ mul x x = PInf
                    \/ exists r, mul x x = Fin r /\ 0 <= r) as Hsq.
  { intros [r | | |]; cbn; auto. right. right. exists (r * r).
    split; [reflexivity | nra]. }
  split; [| split; [| split]].
  - intros [a b]. unfold Vector.length, Math_pow2. cbn [Vector.v0 Vector.v1].
    destruct (Hsq a) as [[-> _] | [-> | (r & -> & Hr)]];
      destruct (Hsq b) as [[-> _] | [-> | (s & -> & Hs)]]; cbn; try reflexivity.
    rewrite (Rltb_false (r + s)) by lra. cbn.
    apply Rltb_false. apply sqrt_pos.
  - intros [a b]. unfold Vector.length, Math_pow2. cbn [Vector.v0 Vector.v1].
    split.
    + destruct (Hsq a) as [[_ ->] | [Ea | (r & Ea & Hr)]]; [now left | |];
        (destruct (Hsq b) as [[_ ->] | [Eb | (s & Eb & Hs)]]; [now right | |]);
        rewrite Ea, Eb; cbn; try discriminate.
      rewrite (Rltb_false (r + s)) by lra. discriminate.
    + intros [-> | ->]; [reflexivity |]. now destruct a.
  - repeat constructor; intros a; unfold Vector.length, Math_pow2; cbn;
      split; reflexivity.
  - unfold Vector.new, zero. rewrite length_fin. now rewrite sqrt_sumsq_zero.
Qed.

(** X3.  [normalize] of a vector with finite entries has finite entries,
    and no entry changes its sign.  A vector that is not finite gets no
    direction: an infinite entry becomes NaN and a finite entry beside it
    0, and with a NaN entry both entries become NaN. *)
Theorem Vector_normalize_signs :
  (forall a b : R,
     exists a' b',
       Vector.normalize (Vector.mk (Fin a) (Fin b)) = Vector.mk (Fin a') (Fin b')
       /\ 0 <= a * a' /\ 0 <= b * b')
  /\ Forall (fun s : num =>
               forall a : R,
                 Vector.normalize (Vector.mk s (Fin a)) = Vector.mk NaN (Fin 0)
                 /\ Vector.normalize (Vector.mk (Fin a) s) = Vector.mk (Fin 0) NaN)
            [PInf; NInf]
  /\ (forall x y : num,
        Vector.normalize (Vector.mk NaN y) = Vector.mk NaN NaN
        /\ Vector.normalize (Vector.mk x NaN) = Vector.mk NaN NaN).
Proof.
  split; [| split].
  - intros a b.
    destruct (Req_dec a 0) as [Ha | Ha]; [destruct (Req_dec b 0) as [Hb | Hb] |].
    + subst. rewrite normalize_zero. exists 0, 0. split; [reflexivity | lra].
    + rewrite normalize_fin by now right.
      pose proof (sqrt_sumsq_pos a b (or_intror Hb)) as Hs.
      eexists _, _. split; [reflexivity |].
      assert (0 < / sqrt (a * a + b * b)) by now apply Rinv_0_lt_compat.
      unfold Rdiv. split; nra.
    + rewrite normalize_fin by now left.
      pose proof (sqrt_sumsq_pos a b (or_introl Ha)) as Hs.
      eexists _, _. split; [reflexivity |].
      assert (0 < / sqrt (a * a + b * b)) by now apply Rinv_0_lt_compat.
      unfold Rdiv. split; nra.
  - repeat constructor; intros a; split; reflexivity.
  - intros x y. split; [now destruct y | now destruct x].
Qed.

(** X5.  [limit] does not repair a vector that is not finite.  A vector
    with a NaN entry is returned as it is, whatever the limit, because
    its length is NaN and the test [length() > m] fails; so is every
    vector when the limit is NaN or Infinity.  A vector with an infinite
    entry gets NaN for that entry and 0 for a finite entry beside it.
    The zero vector is kept by every finite limit. *)
Theorem Vector_limit_not_finite :
  (forall x y m : num,
     Vector.limit (Vector.mk NaN y) m = Vector.mk NaN y
     /\ Vector.limit (Vector.mk x NaN) m = Vector.mk x NaN)
  /\ (forall v : Vector.t, Vector.limit v NaN = v /\ Vector.limit v PInf = v)
  /\ Forall (fun s : num =>
               forall a m : R,
                 Vector.limit (Vector.mk s (Fin a)) (Fin m) = Vector.mk NaN (Fin 0)
                 /\ Vector.limit (Vector.mk (Fin a) s) (Fin m)
                    = Vector.mk (Fin 0) NaN)
            [PInf; NInf]
  /\ (forall m : R, Vector.limit (Vector.new None) (Fin m) = Vector.new None).
Proof.
  split; [| split; [| split]].
  - intros x y m. split.
    + unfold Vector.limit, Vector.length, Math_pow2, gt. cbn [Vector.v0 Vector.v1 mul add Math_sqrt].
      now rewrite lt_NaN_r.
    + unfold Vector.limit, Vector.length, Math_pow2, gt. cbn [Vector.v0 Vector.v1].
      assert (add (mul x x) (mul NaN NaN) = NaN) as -> by now destruct (mul x x).
      cbn [Math_sqrt]. now rewrite lt_NaN_r.
  - intros [x y]. unfold Vector.limit, gt. split.
    + reflexivity.
    + now destruct (Vector.length (Vector.mk x y)).
  - apply Forall_cons; [| apply Forall_cons; [| apply Forall_nil]];
      intros a m; split;
      unfold Vector.limit, Vector.normalize, Vector.length, Math_pow2, gt,
             Vector.scale, Vector.new, zero; cbn;
      f_equal; f_equal; ring.
  - intros m. apply limit_zero. discriminate.
Qed.

(** X6.  A negative limit is not respected.  For a vector with finite
    entries that is not the zero vector, [limit(m)] with [m < 0] never
    returns the vector as it is: every entry of the result is 0 or has
    the opposite sign of the entry that it comes from (their product is
    at most 0). *)
Theorem Vector_limit_negative (a b m : R) :
  a <> 0 \/ b <> 0 -> m < 0 ->
  let r := Vector.limit (Vector.mk (Fin a) (Fin b)) (Fin m) in
  le (mul (Fin a) (Vector.getX r)) (Fin 0) = true
  /\ le (mul (Fin b) (Vector.getY r)) (Fin 0) = true
  /\ r <> Vector.mk (Fin a) (Fin b).
Proof.
  intros Hab Hm r. subst r. pose proof (sqrt_sumsq_pos a b Hab) as Hs.
  rewrite limit_fin_gt by lra.
  set (s := sqrt (a * a + b * b)) in *.
  assert (0 < / s) as Hi by now apply Rinv_0_lt_compat.
  assert (a * (a / s * m) <= 0) as Hx.
  { replace (a * (a / s * m)) with (- (a * a * (/ s * - m))) by (unfold Rdiv; ring).
    assert (0 <= a * a * (/ s * - m)); [| lra].
    apply Rmult_le_pos; [nra |]. apply Rmult_le_pos; lra. }
  assert (b * (b / s * m) <= 0) as Hy.
  { replace (b * (b / s * m)) with (- (b * b * (/ s * - m))) by (unfold Rdiv; ring).
    assert (0 <= b * b * (/ s * - m)); [| lra].
    apply Rmult_le_pos; [nra |]. apply Rmult_le_pos; lra. }
  cbn [Vector.getX Vector.getY Vector.v0 Vector.v1 mul le].
  split; [now apply Rleb_true |]. split; [now apply Rleb_true |].
  intros Heq. injection Heq as Ea Eb. rewrite Ea in Hx. rewrite Eb in Hy.
  destruct Hab as [Ha | Hb]; nra.
Qed.

Lemma Vector_limit_negative_witness :
  le (mul (Fin 3)
          (Vector.getX (Vector.limit (Vector.mk (Fin 3) (Fin 4)) (Fin (- 1)))))
     (Fin 0) = true
  /\ le (mul (Fin 4)
             (Vector.getY (Vector.limit (Vector.mk (Fin 3) (Fin 4)) (Fin (- 1)))))
        (Fin 0) = true
  /\ Vector.limit (Vector.mk (Fin 3) (Fin 4)) (Fin (- 1))
     <> Vector.mk (Fin 3) (Fin 4).
Proof.
  apply (Vector_limit_negative 3 4 (- 1)); [left |]; lra.
Defined.

(** ** The Boid constructor *)

(** X7.  An argument of the constructor that is missing, 0 or NaN is
    replaced by its default: the coordinate 10, the size 15 (with vision
    radius 60), [maxImpulse] 5.  In particular no boid is created at the
    coordinate 0.  The vision radius is always four times the size, and
    the constructor takes exactly two draws from [Math.random]. *)
Theorem Boid_new_defaults (startX startY size speed : value) (g : rng) :
  Forall (fun v =>
            Vector.getX (Boid.position (fst (Boid.new v startY size speed g)))
            = Fin 10
            /\ Vector.getY (Boid.position (fst (Boid.new startX v size speed g)))
               = Fin 10
            /\ Boid.size (fst (Boid.new startX startY v speed g)) = Fin 15
            /\ Boid.radius (Boid.vision (fst (Boid.new startX startY v speed g)))
               = Fin (15 * 4)
            /\ Boid.maxImpulse (fst (Boid.new startX startY size v g)) = Fin 5)
         [Undefined; Number (Fin 0); Number NaN]
  /\ Boid.radius (Boid.vision (fst (Boid.new startX startY size speed g)))
     = mul (Boid.size (fst (Boid.new startX startY size speed g))) (Fin 4)
  /\ snd (Boid.new startX startY size speed g) = (fun n => g (S (S n))).
Proof.
  split; [| split; reflexivity].
  repeat constructor; unfold Boid.new, Math_random; cbn;
    rewrite ?or_default_zero; reflexivity.
Qed.

(** The speed that two draws in [0, 1) give to a new boid. *)
Lemma initial_speed (g : rng) :
  rng_ok g ->
  sqrt ((g 0%nat * 4 - 2) * (g 0%nat * 4 - 2)
        + (g 1%nat * 4 - 2) * (g 1%nat * 4 - 2)) < 5.
Proof.
  intros Hg. pose proof (Hg 0%nat) as H0. pose proof (Hg 1%nat) as H1.
  set (x := g 0%nat * 4 - 2). set (y := g 1%nat * 4 - 2).
  assert (-2 <= x < 2) as Hx by (unfold x; lra).
  assert (-2 <= y < 2) as Hy by (unfold y; lra).
  clearbody x y.
  apply Rle_lt_trans with (sqrt 8).
  - apply sqrt_le_1_alt. nra.
  - replace 5 with (sqrt (5 * 5)) by (apply sqrt_square; lra).
    apply sqrt_lt_1_alt. lra.
Qed.

(** X8.  When [Math.random] returns numbers in [0, 1), both entries of
    the initial velocity are in [-2, 2), so that the initial speed is
    below the default [maxImpulse] 5. *)
Theorem Boid_new_velocity (startX startY size speed : value) (g : rng) :
  rng_ok g ->
  exists vx vy,
    Boid.velocity (fst (Boid.new startX startY size speed g))
    = Vector.mk (Fin vx) (Fin vy)
    /\ -2 <= vx < 2 /\ -2 <= vy < 2
    /\ lt (Vector.length (Boid.velocity (fst (Boid.new startX startY size speed g))))
          (Fin 5) = true.
Proof.
  intros Hg. pose proof (Hg 0%nat) as H0. pose proof (Hg 1%nat) as H1.
  exists (g 0%nat * 4 - 2), (g 1%nat * 4 - 2).
  split; [reflexivity |]. split; [lra |]. split; [lra |].
  unfold Boid.new, Math_random. cbn [fst Boid.velocity].
  change (Vector.new (Some [sub (mul (Fin (g 0%nat)) (Fin 4)) (Fin 2);
                            sub (mul (Fin (g 1%nat)) (Fin 4)) (Fin 2)]))
    with (Vector.mk (Fin (g 0%nat * 4 - 2)) (Fin (g 1%nat * 4 - 2))).
  rewrite length_fin. cbn [lt]. apply Rltb_true. now apply initial_speed.
Qed.

Lemma Boid_new_velocity_witness :
  exists vx vy,
    Boid.velocity (fst (Boid.new Undefined Undefined Undefined Undefined
                                 (fun _ => 1 / 2)))
    = Vector.mk (Fin vx) (Fin vy)
    /\ -2 <= vx < 2 /\ -2 <= vy < 2
    /\ lt (Vector.length
             (Boid.velocity (fst (Boid.new Undefined Undefined Undefined Undefined
                                           (fun _ => 1 / 2)))))
          (Fin 5) = true.
Proof.
  apply Boid_new_velocity. intros n. lra.
Defined.

(** ** Angles *)

Lemma Math_atan2_le_PI (y x : num) : lt Math_PI (Math_atan2 y x) = false.
Proof.
  pose proof PI_RGT_0 as Hpi. unfold Math_PI.
  destruct y as [b | | |], x as [a | | |]; cbn; try reflexivity;
    try (apply Rltb_false; lra).
  - apply Rltb_false. apply atan2_range.
  - destruct (Rleb 0 b); cbn; apply Rltb_false; lra.
Qed.

(** X9.  [angleTo] and [getDirection] never return more than [Math.PI],
    for any boid and any point, so that the branch of [canSee] for a
    direction above [Math.PI] is never taken; for finite positions and
    points the angle is in [(-PI, PI]]. *)
Theorem angleTo_range :
  (forall (this : Boid.t) (x y : num),
     gt (Boid.angleTo this x y) Math_PI = false)
  /\ (forall this : Boid.t, gt (Boid.getDirection this) Math_PI = false)
  /\ (forall (this : Boid.t) (px py x y : R),
        exists t,
          Boid.angleTo (Boid.set_position this (Vector.mk (Fin px) (Fin py)))
                       (Fin x) (Fin y) = Fin t
          /\ - PI < t <= PI).
Proof.
  split; [| split].
  - intros this x y. apply Math_atan2_le_PI.
  - intros this. apply Math_atan2_le_PI.
  - intros this px py x y. exists (atan2 (y - py) (x - px)).
    split; [reflexivity | apply atan2_range].
Qed.

Lemma Math_atan2_ge_neg_PI (y x : num) :
  lt (Math_atan2 y x) (neg Math_PI) = false.
Proof.
  pose proof PI_RGT_0 as Hpi. unfold Math_PI. cbn [neg].
  destruct y as [b | | |], x as [a | | |]; cbn; try reflexivity;
    try (apply Rltb_false; lra).
  - apply Rltb_false. pose proof (atan2_range b a). lra.
  - destruct (Rleb 0 b); cbn; apply Rltb_false; lra.
Qed.

(** X10.  [distanceBetweenAngles] never returns more than [Math.PI] nor
    less than [-Math.PI], whatever its arguments are, and it returns NaN
    when one of the angles is infinite or NaN. *)
Theorem distanceBetweenAngles_range :
  (forall a b : num,
     gt (Boid.distanceBetweenAngles a b) Math_PI = false
     /\ lt (Boid.distanceBetweenAngles a b) (neg Math_PI) = false)
  /\ Forall (fun s : num =>
               forall b : num,
                 Boid.distanceBetweenAngles s b = NaN
                 /\ Boid.distanceBetweenAngles b s = NaN)
            [PInf; NInf; NaN].
Proof.
  split.
  - intros a b. split; [apply Math_atan2_le_PI | apply Math_atan2_ge_neg_PI].
  - apply Forall_cons; [| apply Forall_cons; [| apply Forall_cons; [| apply Forall_nil]]];
      intros [b | | |]; split; reflexivity.
Qed.

(** ** Vision *)

Section VisionCone.

Variable this : Boid.t.
Variables px py vx vy a r : R.
Hypothesis Hpos : Boid.position this = Vector.mk (Fin px) (Fin py).
Hypothesis Hvel : Boid.velocity this = Vector.mk (Fin vx) (Fin vy).
Hypothesis Hvis : Boid.vision this = Boid.mkVision (Fin a) (Fin r).

(** X12.  Vision is local.  A boid with finite position, velocity and
    vision, whose vision radius is at least 1, sees no point whose
    distance from it is at least twice the vision radius, whatever its
    heading is. *)
Theorem canSee_beyond_radius (x y : R) :
  1 <= r ->
  2 * r <= sqrt ((x - px) * (x - px) + (y - py) * (y - py)) ->
  Boid.canSee this (Fin x) (Fin y) = false.
Proof.
  intros Hr H. rewrite (canSee_fin this px py vx vy a r) by assumption.
  now rewrite Rleb_false by lra.
Qed.

End VisionCone.

Lemma canSee_beyond_radius_witness :
  Boid.canSee (boid_at 100 100 3 4 15) (Fin 250) (Fin 100) = false.
Proof.
  apply (canSee_beyond_radius (boid_at 100 100 3 4 15) 100 100 3 4
                              (PI / 4) (15 * 4) eq_refl eq_refl eq_refl).
  - lra.
  - rewrite Rminus_diag, sqrt_sumsq_x, Rabs_right; lra.
Defined.

(** ** Point impulses *)

Section PointImpulseFields.

Variable this : Boid.t.
Variables px py vx vy a r c m : R.
Hypothesis Hpos : Boid.position this = Vector.mk (Fin px) (Fin py).
Hypothesis Hvel : Boid.velocity this = Vector.mk (Fin vx) (Fin vy).
Hypothesis Hvis : Boid.vision this = Boid.mkVision (Fin a) (Fin r).
Hypothesis Hcoeff : Boid.pointImpulseCoeff this = Fin c.
Hypothesis Hmax : Boid.maxImpulse this = Fin m.
Hypothesis Hm : 0 <= m.

(** When [pointImpulseCoeff] is below half the vision radius the near
    field is empty, and every point impulse is finite and at most
    [maxImpulse] long. *)
Lemma pointImpulse_bounded (x y : R) :
  c < r / 2 ->
  exists ix iy,
    Boid.pointImpulse this (Vector.mk (Fin x) (Fin y)) = Vector.mk (Fin ix) (Fin iy)
    /\ sqrt (ix * ix + iy * iy) <= m.
Proof.
  intros Hc.
  set (d := sqrt ((x - px) * (x - px) + (y - py) * (y - py))).
  destruct (Rlt_dec d (r / 2)) as [Hnear | Hfar].
  - exists 0, 0. split.
    + now apply (pointImpulse_near this px py a r m).
    + now rewrite sqrt_sumsq_zero.
  - rewrite (pointImpulse_far this px py vx vy a r c m) by (assumption || (fold d; lra)).
    apply limit_fin_bound. assumption.
Qed.

End PointImpulseFields.

(** ** Walls *)

(** X18.  A boid with finite position, velocity and vision, whose
    vision radius is at least 1 and whose distance to each of the four
    edges of the canvas is at least twice that radius, gets no wall
    impulse ([wallAvoidance] returns [false]), whatever its heading
    is. *)
Theorem wallAvoidance_interior (this : Boid.t) (px py vx vy a r w h : R) :
  Boid.position this = Vector.mk (Fin px) (Fin py) ->
  Boid.velocity this = Vector.mk (Fin vx) (Fin vy) ->
  Boid.vision this = Boid.mkVision (Fin a) (Fin r) ->
  1 <= r ->
  2 * r <= px -> 2 * r <= w - px -> 2 * r <= py -> 2 * r <= h - py ->
  Boid.wallAvoidance this (Fin w) (Fin h) = None.
Proof.
  intros Hpos Hvel Hvis Hr H1 H2 H3 H4. unfold Boid.wallAvoidance.
  rewrite Hpos. cbn [Vector.getX Vector.getY Vector.v0 Vector.v1].
  rewrite (canSee_far_x this px py vx vy a r Hpos Hvel Hvis 0) by (right; lra).
  rewrite (canSee_far_y this px py vx vy a r Hpos Hvel Hvis 0) by (right; lra).
  rewrite (canSee_far_x this px py vx vy a r Hpos Hvel Hvis w) by (left; lra).
  rewrite (canSee_far_y this px py vx vy a r Hpos Hvel Hvis h) by (left; lra).
  reflexivity.
Qed.

Lemma wallAvoidance_interior_witness :
  Boid.wallAvoidance (boid_at 500 250 3 4 15) (Fin 1000) (Fin 500) = None.
Proof.
  apply (wallAvoidance_interior (boid_at 500 250 3 4 15) 500 250 3 4
                                (PI / 4) (15 * 4) 1000 500);
    try reflexivity; lra.
Defined.

(** X19.  [wallCollision] of a boid with finite coordinates on a canvas
    with finite sides is true exactly when the boid is outside the closed
    box from (0, 0) to (width, height); a boid whose coordinates are NaN
    is never reported as out of the box. *)
Theorem wallCollision_outside :
  (forall (this : Boid.t) (x y w h : R),
     Boid.wallCollision (Boid.set_position this (Vector.mk (Fin x) (Fin y)))
                        (Fin w) (Fin h) = true
     <-> x < 0 \/ y < 0 \/ w < x \/ h < y)
  /\ (forall (this : Boid.t) (w h : num),
        Boid.wallCollision (Boid.set_position this (Vector.mk NaN NaN)) w h
        = false).
Proof.
  split.
  - intros this x y w h. unfold Boid.wallCollision.
    cbn [Boid.set_position Boid.position Vector.getX Vector.getY
         Vector.v0 Vector.v1 gt lt].
    rewrite !orb_true_iff. unfold Rltb.
    destruct (Rlt_dec x 0), (Rlt_dec y 0), (Rlt_dec w x), (Rlt_dec h y);
      split; intros H; try tauto;
      repeat match goal with
             | H : _ \/ _ |- _ => destruct H
             end; try discriminate; try lra.
  - intros this w h. unfold Boid.wallCollision.
    cbn [Boid.set_position Boid.position Vector.getX Vector.getY
         Vector.v0 Vector.v1 gt lt].
    now destruct w, h.
Qed.

(** ** Ticks of a flock of regular boids *)

Lemma finite_inv (a : num) : finite a -> exists r, a = Fin r.
Proof. destruct a; cbn; intros H; try contradiction. eauto. Qed.

Lemma finite_vector_inv (v : Vector.t) :
  finite_vector v -> exists a b, v = Vector.mk (Fin a) (Fin b).
Proof.
  destruct v as [x y]. intros [Hx Hy]. cbn in Hx, Hy.
  destruct (finite_inv x Hx) as [a ->]. destruct (finite_inv y Hy) as [b ->].
  eauto.
Qed.

Lemma finite_vector_fin (a b : R) : finite_vector (Vector.mk (Fin a) (Fin b)).
Proof. split; exact I. Qed.

Lemma normalize_finite (a b : R) :
  exists a' b', Vector.normalize (Vector.mk (Fin a) (Fin b))
                = Vector.mk (Fin a') (Fin b').
Proof.
  destruct (Req_dec a 0) as [Ha | Ha]; [destruct (Req_dec b 0) as [Hb | Hb] |].
  - subst. rewrite normalize_zero. eauto.
  - rewrite normalize_fin by now right. eauto.
  - rewrite normalize_fin by now left. eauto.
Qed.

Lemma one_over_fin (count : nat) :
  (0 < count)%nat -> Boid.one_over count = Fin (1 / INR count).
Proof.
  intros H. unfold Boid.one_over. cbn [div].
  assert (0 < INR count) as Hc by now apply lt_0_INR.
  rewrite Reqb_false; [reflexivity |]. now apply Rgt_not_eq.
Qed.

(** The loops of [alignment] and [cohesion] add finite vectors. *)
Lemma sum_loop_finite (f : Boid.t -> Vector.t) (test : nat -> Boid.t -> bool)
      (boids : list Boid.t) :
  Forall (fun b => finite_vector (f b)) boids ->
  forall start sum count,
    finite_vector sum ->
    finite_vector
      (fst (for_each
              (fun i other (acc : Vector.t * nat) =>
                 let (sum, count) := acc in
                 if test i other then (Vector.add sum (f other), S count)
                 else (sum, count))
              start boids (sum, count))).
Proof.
  induction 1 as [| b boids Hb _ IH]; intros start sum count Hsum; cbn [for_each].
  - exact Hsum.
  - destruct (test start b); [| now apply IH].
    apply IH.
    destruct (finite_vector_inv _ Hsum) as (x & y & ->).
    destruct (finite_vector_inv _ Hb) as (u & v & ->).
    rewrite add_fin. apply finite_vector_fin.
Qed.

Section RegularRules.

Variable this : Boid.t.
Variable self : nat.
Variable boids : list Boid.t.
Hypothesis Hthis : regular this.
Hypothesis Hboids : Forall regular boids.

Lemma alignment_finite : finite_vector (Boid.alignment this self boids).
Proof.
  destruct Hthis as (_ & Hv & (a & r & c & m & _ & _ & Hm & _ & Hm0) & _).
  unfold Boid.alignment.
  pose proof (sum_loop_finite Boid.velocity (Boid.sees_other this self) boids)
    as Hloop.
  specialize (Hloop (Forall_impl _ (fun b (H : regular b) => proj1 (proj2 H)) Hboids)
                    0%nat (Vector.new None) 0%nat (finite_vector_fin 0 0)).
  change (fun (i : nat) (other : Boid.t) (acc : Vector.t * nat) =>
            let (sum, count) := acc in
            if Boid.sees_other this self i other
            then (Vector.add sum (Boid.velocity other), S count)
            else (sum, count))
    with (Boid.alignment_body this self) in Hloop.
  destruct (for_each _ _ _ _) as [sum count]. cbn [fst] in Hloop.
  destruct (Nat.ltb_spec 0 count) as [Hc | Hc]; [| apply finite_vector_fin].
  destruct (finite_vector_inv _ Hloop) as (x & y & ->).
  destruct (finite_vector_inv _ Hv) as (vx & vy & ->).
  rewrite one_over_fin, scale_fin by assumption.
  destruct (normalize_finite (x * (1 / INR count)) (y * (1 / INR count)))
    as (nx & ny & ->).
  rewrite length_fin, scale_fin, subtract_fin, Hm.
  destruct (limit_fin_bound (nx * sqrt (vx * vx + vy * vy) - vx)
                            (ny * sqrt (vx * vx + vy * vy) - vy) m Hm0)
    as (ix & iy & -> & _).
  apply finite_vector_fin.
Qed.

Lemma cohesion_finite : finite_vector (Boid.cohesion this self boids).
Proof.
  destruct Hthis as (Hp & Hv & (a & r & c & m & Hvis & Hco & Hm & Hcr & Hm0) & _).
  unfold Boid.cohesion.
  pose proof (sum_loop_finite Boid.position (Boid.sees_other this self) boids)
    as Hloop.
  specialize (Hloop (Forall_impl _ (fun b (H : regular b) => proj1 H) Hboids)
                    0%nat (Vector.new None) 0%nat (finite_vector_fin 0 0)).
  change (fun (i : nat) (other : Boid.t) (acc : Vector.t * nat) =>
            let (sum, count) := acc in
            if Boid.sees_other this self i other
            then (Vector.add sum (Boid.position other), S count)
            else (sum, count))
    with (Boid.cohesion_body this self) in Hloop.
  destruct (for_each _ _ _ _) as [sum count]. cbn [fst] in Hloop.
  destruct (Nat.ltb 0 count); [| exact Hloop].
  destruct (finite_vector_inv _ Hloop) as (x & y & ->).
  destruct (finite_vector_inv _ Hp) as (px & py & Hpos).
  destruct (finite_vector_inv _ Hv) as (vx & vy & Hvel).
  destruct (pointImpulse_bounded this px py vx vy a r c m Hpos Hvel Hvis Hco Hm
                                 Hm0 x y Hcr) as (ix & iy & -> & _).
  apply finite_vector_fin.
Qed.

Lemma wallAvoidance_finite (w h : nat) :
  match Boid.wallAvoidance this (of_nat w) (of_nat h) with
  | Some impulse => finite_vector impulse
  | None => True
  end.
Proof.
  destruct Hthis as (Hp & Hv & (a & r & c & m & Hvis & Hco & Hm & Hcr & Hm0) & _).
  unfold Boid.wallAvoidance.
  destruct (_ || _ || _ || _); [| exact I].
  destruct (finite_vector_inv _ Hp) as (px & py & Hpos).
  destruct (finite_vector_inv _ Hv) as (vx & vy & Hvel).
  unfold of_nat. cbn [div]. rewrite !Reqb_false by lra.
  change (Vector.new (Some [Fin (INR w / 2); Fin (INR h / 2)]))
    with (Vector.mk (Fin (INR w / 2)) (Fin (INR h / 2))).
  destruct (pointImpulse_bounded this px py vx vy a r c m Hpos Hvel Hvis Hco Hm
                                 Hm0 (INR w / 2) (INR h / 2) Hcr)
    as (ix & iy & -> & _).
  apply finite_vector_fin.
Qed.

End RegularRules.

(** A finite impulse with a finite weight leaves a regular boid regular,
    and within [maxImpulse]. *)
Lemma applyImpulse_regular (this : Boid.t) (impulse : Vector.t) (weight : num) :
  regular this -> finite_vector impulse -> finite weight ->
  regular (Boid.applyImpulse this impulse weight)
  /\ within_maxImpulse (Boid.applyImpulse this impulse weight).
Proof.
  intros (Hp & Hv & (a & r & c & m & Hvis & Hco & Hm & Hcr & Hm0) & Hw) Hi Hwt.
  destruct (finite_vector_inv _ Hv) as (vx & vy & Hvel).
  destruct (finite_vector_inv _ Hi) as (ix & iy & ->).
  destruct (finite_inv _ Hwt) as (w & ->).
  unfold Boid.applyImpulse, within_maxImpulse.
  rewrite Hvel, Hm, scale_fin, add_fin.
  destruct (limit_fin_bound (vx + ix * w) (vy + iy * w) m Hm0)
    as (a' & b' & -> & Hle).
  split.
  - unfold regular. cbn [Boid.set_velocity Boid.position Boid.velocity
                         Boid.vision Boid.pointImpulseCoeff Boid.maxImpulse
                         Boid.weights].
    split; [assumption |]. split; [apply finite_vector_fin |].
    split; [| assumption]. exists a, r, c, m. auto.
  - cbn [Boid.set_velocity Boid.velocity Boid.maxImpulse].
    rewrite Hm, length_fin. cbn [le]. now apply Rleb_true.
Qed.

Lemma separation_regular (this : Boid.t) (self : nat) (boids : list Boid.t) :
  regular this -> Boid.separation this self boids = Vector.new None.
Proof.
  intros (_ & _ & (a & r & c & m & _ & _ & Hm & _) & _).
  apply separation_zero. rewrite Hm. discriminate.
Qed.

Lemma applyRules_regular (this : Boid.t) (self : nat) (boids : list Boid.t)
      (w h : nat) :
  regular this -> Forall regular boids ->
  regular (Boid.applyRules this self boids (of_nat w) (of_nat h))
  /\ within_maxImpulse (Boid.applyRules this self boids (of_nat w) (of_nat h)).
Proof.
  intros Hthis Hboids.
  pose proof (alignment_finite this self boids Hthis Hboids) as Hal.
  pose proof (cohesion_finite this self boids Hthis Hboids) as Hco.
  pose proof (wallAvoidance_finite this Hthis w h) as Hwall.
  pose proof Hthis as (_ & _ & _ & Hw1 & Hw2 & Hw3 & Hw4).
  unfold Boid.applyRules.
  rewrite (separation_regular this self boids Hthis).
  destruct (applyImpulse_regular this (Vector.new None)
              (Boid.w_separation (Boid.weights this)) Hthis
              (finite_vector_fin 0 0) Hw1) as [H1 _].
  destruct (applyImpulse_regular _ (Boid.alignment this self boids)
              (Boid.w_alignment (Boid.weights this)) H1 Hal Hw2) as [H2 _].
  destruct (applyImpulse_regular _ (Boid.cohesion this self boids)
              (Boid.w_cohesion (Boid.weights this)) H2 Hco Hw3) as [H3 Hb3].
  cbn [Boid.applyImpulse Boid.set_velocity Boid.weights] in *.
  destruct (Boid.wallAvoidance this (of_nat w) (of_nat h)) as [impulse |].
  - exact (applyImpulse_regular _ impulse
             (Boid.w_avoidance (Boid.weights this)) H3 Hwall Hw4).
  - split; assumption.
Qed.

Lemma Forall_set_nth {A : Type} (P : A -> Prop) (i : nat) (x : A) (l : list A) :
  Forall P l -> P x -> Forall P (set_nth i x l).
Proof.
  intros Hl Hx. revert i.
  induction Hl as [| y l Hy Hl IH]; intros [| i]; cbn; constructor; auto.
Qed.

Lemma Forall_nth_error {A : Type} (P : A -> Prop) (l : list A) (i : nat) (x : A) :
  Forall P l -> nth_error l i = Some x -> P x.
Proof.
  intros Hl Hx. rewrite Forall_forall in Hl. apply Hl.
  eapply nth_error_In. eassumption.
Qed.

Lemma Forall_firstn_skipn {A : Type} (P : A -> Prop) (n : nat) (l : list A) :
  Forall P l -> Forall P (firstn n l) /\ Forall P (skipn n l).
Proof.
  intros Hl. rewrite <- (firstn_skipn n l) in Hl.
  now apply Forall_app in Hl.
Qed.

(** The first loop of [moveFlock] keeps a flock of regular boids
    regular. *)
Lemma decide_regular (fl : Flock.t) :
  Forall regular (Flock.boids fl) -> Forall regular (Flock.decide fl).
Proof.
  intros Hfl. unfold Flock.decide.
  apply (for_upto_inv (Forall regular)); [| assumption].
  intros i bs _ Hbs. unfold Flock.decide_step, slot_step.
  destruct (nth_error bs i) as [b |] eqn:Hb; [| assumption].
  apply Forall_set_nth; [assumption |].
  apply applyRules_regular; [| assumption].
  exact (Forall_nth_error _ _ _ _ Hbs Hb).
Qed.

Lemma decide_within_maxImpulse (fl : Flock.t) :
  Forall regular (Flock.boids fl) -> Forall within_maxImpulse (Flock.decide fl).
Proof.
  intros Hfl. pose proof (decide_regular fl Hfl) as Hdec.
  apply Forall_forall. intros b' Hin.
  apply In_nth_error in Hin. destruct Hin as [i Hi].
  rewrite decide_nth in Hi.
  destruct (nth_error (Flock.boids fl) i) as [b |] eqn:Hb; [| discriminate].
  cbn [option_map] in Hi. injection Hi as <-.
  apply applyRules_regular.
  - exact (Forall_nth_error _ _ _ _ Hfl Hb).
  - apply Forall_app. split.
    + apply (Forall_firstn_skipn regular i _ Hdec).
    + apply (Forall_firstn_skipn regular i _ Hfl).
Qed.

Lemma move_regular (b : Boid.t) :
  regular b -> regular (Boid.move b).
Proof.
  intros (Hp & Hv & Hrest). unfold regular, Boid.move.
  cbn [Boid.set_position Boid.position Boid.velocity Boid.vision
       Boid.pointImpulseCoeff Boid.maxImpulse Boid.weights].
  split; [| split; assumption].
  destruct (finite_vector_inv _ Hp) as (x & y & ->).
  destruct (finite_vector_inv _ Hv) as (u & v & ->).
  rewrite add_fin. apply finite_vector_fin.
Qed.

Lemma moveFlock_regular (fl : Flock.t) :
  Forall regular (Flock.boids fl) ->
  Forall (fun b => regular b /\ within_maxImpulse b)
         (Flock.boids (Flock.moveFlock fl)).
Proof.
  intros Hfl.
  pose proof (decide_regular fl Hfl) as Hreg.
  pose proof (decide_within_maxImpulse fl Hfl) as Hbound.
  rewrite moveFlock_boids. apply Forall_map.
  apply Forall_forall. intros b Hb.
  rewrite Forall_forall in Hreg, Hbound.
  split; [apply move_regular; auto |].
  exact (Hbound b Hb).
Qed.

Lemma ticks_regular (fl : Flock.t) (n : nat) :
  Forall regular (Flock.boids fl) ->
  Forall (fun b => regular b /\ within_maxImpulse b)
         (Flock.boids (Nat.iter (S n) Flock.moveFlock fl)).
Proof.
  intros Hfl. induction n as [| n IH].
  - now apply moveFlock_regular.
  - change (Nat.iter (S (S n)) Flock.moveFlock fl)
      with (Flock.moveFlock (Nat.iter (S n) Flock.moveFlock fl)).
    apply moveFlock_regular.
    eapply Forall_impl; [| exact IH]. intros b [Hb _]. exact Hb.
Qed.

(** ** A velocity with a NaN entry *)

Lemma length_has_NaN (v : Vector.t) : has_NaN v -> Vector.length v = NaN.
Proof.
  destruct v as [x y]. unfold has_NaN, Vector.length, Math_pow2.
  cbn [Vector.v0 Vector.v1]. intros [-> | ->]; [reflexivity |].
  now destruct (mul x x).
Qed.

Lemma limit_has_NaN (v : Vector.t) (m : num) : has_NaN v -> Vector.limit v m = v.
Proof.
  intros H. unfold Vector.limit, gt.
  rewrite (length_has_NaN v H), lt_NaN_r. now destruct v.
Qed.

Lemma add_has_NaN (v w : Vector.t) : has_NaN v -> has_NaN (Vector.add v w).
Proof.
  destruct v as [x y], w as [x' y']. unfold has_NaN, Vector.add, Vector.new.
  cbn [Vector.v0 Vector.v1 nth].
  intros [-> | ->]; [left; reflexivity | right; now destruct y'].
Qed.

(** No impulse brings a velocity with a NaN entry back: the sum keeps the
    NaN, and [limit] returns it as it is. *)
Lemma applyImpulse_has_NaN (this : Boid.t) (impulse : Vector.t) (weight : num) :
  has_NaN (Boid.velocity this) ->
  has_NaN (Boid.velocity (Boid.applyImpulse this impulse weight)).
Proof.
  intros H. unfold Boid.applyImpulse. cbn [Boid.set_velocity Boid.velocity].
  pose proof (add_has_NaN _ (Vector.scale impulse weight) H) as Hsum.
  now rewrite limit_has_NaN.
Qed.

Lemma applyRules_has_NaN (this : Boid.t) (self : nat) (boids : list Boid.t)
      (width height : num) :
  has_NaN (Boid.velocity this) ->
  has_NaN (Boid.velocity (Boid.applyRules this self boids width height)).
Proof.
  intros H. unfold Boid.applyRules.
  destruct (Boid.wallAvoidance this width height);
    repeat apply applyImpulse_has_NaN; exact H.
Qed.

Lemma moveFlock_has_NaN (fl : Flock.t) (i : nat) (b : Boid.t) :
  nth_error (Flock.boids fl) i = Some b ->
  has_NaN (Boid.velocity b) ->
  exists b',
    nth_error (Flock.boids (Flock.moveFlock fl)) i = Some b'
    /\ has_NaN (Boid.velocity b').
Proof.
  intros Hb Hnan. rewrite moveFlock_boids, nth_error_map, decide_nth, Hb.
  cbn [option_map]. eexists. split; [reflexivity |].
  unfold Boid.move. cbn [Boid.set_position Boid.velocity].
  now apply applyRules_has_NaN.
Qed.

(** X20.  A boid does not recover from a velocity with a NaN entry, in
    any flock: after every number of ticks its velocity still has a NaN
    entry, whatever the other boids do, and the test
    [|velocity| <= maxImpulse] is false for it. *)
Theorem NaN_velocity_stays (fl : Flock.t) (i ticks : nat) (b : Boid.t) :
  nth_error (Flock.boids fl) i = Some b ->
  has_NaN (Boid.velocity b) ->
  exists b',
    nth_error (Flock.boids (Nat.iter ticks Flock.moveFlock fl)) i = Some b'
    /\ has_NaN (Boid.velocity b')
    /\ le (Vector.length (Boid.velocity b')) (Boid.maxImpulse b') = false.
Proof.
  intros Hb Hnan.
  assert (exists b',
             nth_error (Flock.boids (Nat.iter ticks Flock.moveFlock fl)) i = Some b'
             /\ has_NaN (Boid.velocity b')) as (b' & Hb' & Hnan').
  { induction ticks as [| n (b0 & Hb0 & Hnan0)].
    - exists b. split; assumption.
    - change (Nat.iter (S n) Flock.moveFlock fl)
        with (Flock.moveFlock (Nat.iter n Flock.moveFlock fl)).
      exact (moveFlock_has_NaN _ i b0 Hb0 Hnan0). }
  exists b'. split; [assumption |]. split; [assumption |].
  now rewrite (length_has_NaN _ Hnan').
Qed.

Lemma NaN_velocity_stays_witness :
  exists b',
    nth_error
      (Flock.boids
         (Nat.iter 5 Flock.moveFlock
            (Flock.mk 400 200
               [Boid.set_velocity (boid_at 100 100 0 0 6) (Vector.mk PInf NaN);
                boid_at 113 100 1 0 6]))) 0 = Some b'
    /\ has_NaN (Boid.velocity b')
    /\ le (Vector.length (Boid.velocity b')) (Boid.maxImpulse b') = false.
Proof.
  apply (NaN_velocity_stays
           (Flock.mk 400 200
              [Boid.set_velocity (boid_at 100 100 0 0 6) (Vector.mk PInf NaN);
               boid_at 113 100 1 0 6])
           0 5
           (Boid.set_velocity (boid_at 100 100 0 0 6) (Vector.mk PInf NaN))).
  - reflexivity.
  - right. reflexivity.
Defined.

(** ** A velocity with a NaN entry spreads *)

Lemma add_has_NaN_r (v w : Vector.t) : has_NaN w -> has_NaN (Vector.add v w).
Proof.
  destruct v as [x y], w as [x' y']. unfold has_NaN, Vector.add, Vector.new.
  cbn [Vector.v0 Vector.v1 nth].
  intros [-> | ->]; [left; now destruct x | right; now destruct y].
Qed.

Lemma scale_has_NaN (v : Vector.t) (s : num) :
  has_NaN v -> has_NaN (Vector.scale v s).
Proof.
  destruct v as [x y]. unfold has_NaN, Vector.scale, Vector.new.
  cbn [Vector.v0 Vector.v1 nth]. intros [-> | ->]; [left | right]; reflexivity.
Qed.

Lemma normalize_has_NaN (v : Vector.t) :
  has_NaN v -> Vector.normalize v = Vector.mk NaN NaN.
Proof.
  intros H. unfold Vector.normalize. rewrite (length_has_NaN v H).
  cbn [strict_neq]. unfold Vector.new. cbn [nth].
  f_equal; [now destruct (Vector.v0 v) | now destruct (Vector.v1 v)].
Qed.

(** Once the sum of the alignment loop has a NaN entry it keeps it. *)
Lemma alignment_loop_has_NaN (this : Boid.t) (self : nat) (boids : list Boid.t) :
  forall start sum count,
    has_NaN sum ->
    has_NaN (fst (for_each (Boid.alignment_body this self) start boids
                           (sum, count))).
Proof.
  induction boids as [| b boids IH]; intros start sum count Hsum; cbn [for_each].
  - exact Hsum.
  - unfold Boid.alignment_body at 2.
    destruct (Boid.sees_other this self start b); apply IH; [| exact Hsum].
    now apply add_has_NaN.
Qed.

Lemma alignment_loop_count (this : Boid.t) (self : nat) (boids : list Boid.t) :
  forall start sum count,
    (count <= snd (for_each (Boid.alignment_body this self) start boids
                            (sum, count)))%nat.
Proof.
  induction boids as [| b boids IH]; intros start sum count; cbn [for_each].
  - cbn. lia.
  - unfold Boid.alignment_body at 2.
    destruct (Boid.sees_other this self start b); [| apply IH].
    specialize (IH (S start) (Vector.add sum (Boid.velocity b)) (S count)). lia.
Qed.

(** A neighbour that is seen and whose velocity has a NaN entry gives
    one to the sum. *)
Lemma alignment_loop_sees_NaN (this : Boid.t) (self : nat) (boids : list Boid.t) :
  forall start sum count k other,
    nth_error boids k = Some other ->
    Boid.sees_other this self (start + k) other = true ->
    has_NaN (Boid.velocity other) ->
    has_NaN (fst (for_each (Boid.alignment_body this self) start boids
                           (sum, count)))
    /\ (0 < snd (for_each (Boid.alignment_body this self) start boids
                          (sum, count)))%nat.
Proof.
  induction boids as [| b boids IH]; intros start sum count k other Hk Hsee Hnan;
    [destruct k; discriminate |].
  cbn [for_each]. destruct k as [| k].
  - cbn in Hk. injection Hk as ->. rewrite Nat.add_0_r in Hsee.
    unfold Boid.alignment_body at 2 4. rewrite Hsee. split.
    + apply alignment_loop_has_NaN. now apply add_has_NaN_r.
    + pose proof (alignment_loop_count this self boids (S start)
                    (Vector.add sum (Boid.velocity other)) (S count)). lia.
  - cbn in Hk. rewrite <- Nat.add_succ_comm in Hsee.
    unfold Boid.alignment_body at 2 4.
    destruct (Boid.sees_other this self start b);
      exact (IH (S start) _ _ k other Hk Hsee Hnan).
Qed.

Lemma alignment_sees_NaN (this : Boid.t) (self k : nat) (boids : list Boid.t)
      (other : Boid.t) :
  nth_error boids k = Some other -> k <> self ->
  Boid.canSee this (Vector.getX (Boid.position other))
              (Vector.getY (Boid.position other)) = true ->
  has_NaN (Boid.velocity other) ->
  Boid.alignment this self boids = Vector.mk NaN NaN.
Proof.
  intros Hk Hne Hsee Hnan.
  assert (Boid.sees_other this self (0 + k) other = true) as Hso.
  { unfold Boid.sees_other. cbn [Nat.add]. rewrite Hsee.
    apply Nat.eqb_neq in Hne. now rewrite Hne. }
  destruct (alignment_loop_sees_NaN this self boids 0%nat (Vector.new None) 0%nat
                                    k other Hk Hso Hnan) as [Hsum Hcount].
  unfold Boid.alignment.
  destruct (for_each _ _ _ _) as [sum count]. cbn [fst snd] in Hsum, Hcount.
  apply Nat.ltb_lt in Hcount. rewrite Hcount.
  rewrite (normalize_has_NaN _ (scale_has_NaN sum (Boid.one_over count) Hsum)).
  apply limit_has_NaN. left. reflexivity.
Qed.

Lemma applyImpulse_NaN (this : Boid.t) (impulse : Vector.t) (weight : num) :
  impulse = Vector.mk NaN NaN \/ Boid.velocity this = Vector.mk NaN NaN ->
  Boid.velocity (Boid.applyImpulse this impulse weight) = Vector.mk NaN NaN.
Proof.
  intros H. unfold Boid.applyImpulse. cbn [Boid.set_velocity Boid.velocity].
  assert (Vector.add (Boid.velocity this) (Vector.scale impulse weight)
          = Vector.mk NaN NaN) as ->.
  { destruct H as [-> | ->].
    - destruct (Boid.velocity this) as [x y]. unfold Vector.add, Vector.scale, Vector.new.
      cbn [Vector.v0 Vector.v1 nth mul]. f_equal; [now destruct x | now destruct y].
    - reflexivity. }
  apply limit_has_NaN. left. reflexivity.
Qed.

(** A boid that sees a boid whose velocity has a NaN entry leaves
    [applyRules] with the velocity (NaN, NaN): the alignment impulse is
    (NaN, NaN), and no later impulse and no limit removes it. *)
Lemma applyRules_sees_NaN (this : Boid.t) (self k : nat) (boids : list Boid.t)
      (other : Boid.t) (width height : num) :
  nth_error boids k = Some other -> k <> self ->
  Boid.canSee this (Vector.getX (Boid.position other))
              (Vector.getY (Boid.position other)) = true ->
  has_NaN (Boid.velocity other) ->
  Boid.velocity (Boid.applyRules this self boids width height) = Vector.mk NaN NaN.
Proof.
  intros Hk Hne Hsee Hnan. unfold Boid.applyRules.
  rewrite (alignment_sees_NaN this self k boids other Hk Hne Hsee Hnan).
  destruct (Boid.wallAvoidance this width height);
    [apply applyImpulse_NaN; right |];
    apply applyImpulse_NaN; right;
    apply applyImpulse_NaN; left; reflexivity.
Qed.

(** X31.  A velocity with a NaN entry spreads through the flock: in a
    tick, every boid that sees, from where it is and with the heading it
    has at the start of the tick, a boid whose velocity has a NaN entry
    ends the tick with the velocity (NaN, NaN). *)
Theorem NaN_velocity_spreads (fl : Flock.t) (i j : nat) (bi bj : Boid.t) :
  nth_error (Flock.boids fl) i = Some bi ->
  nth_error (Flock.boids fl) j = Some bj ->
  i <> j ->
  has_NaN (Boid.velocity bi) ->
  Boid.canSee bj (Vector.getX (Boid.position bi))
              (Vector.getY (Boid.position bi)) = true ->
  exists bj',
    nth_error (Flock.boids (Flock.moveFlock fl)) j = Some bj'
    /\ Boid.velocity bj' = Vector.mk NaN NaN.
Proof.
  intros Hi Hj Hne Hnan Hsee.
  rewrite moveFlock_boids, nth_error_map, decide_nth, Hj. cbn [option_map].
  eexists. split; [reflexivity |].
  unfold Boid.move. cbn [Boid.set_position Boid.velocity].
  assert (j < length (Flock.boids fl))%nat as Hjlen
    by (apply nth_error_Some; congruence).
  pose proof (decide_length fl) as Hlen.
  assert (exists other,
             nth_error (firstn j (Flock.decide fl) ++ skipn j (Flock.boids fl)) i
             = Some other
             /\ Boid.position other = Boid.position bi
             /\ has_NaN (Boid.velocity other)) as (other & Hother & Hpos & Hnan').
  { destruct (Nat.lt_ge_cases i j) as [Hlt | Hge].
    - rewrite nth_error_app1 by (rewrite firstn_length_le; lia).
      rewrite nth_error_firstn.
      apply Nat.ltb_lt in Hlt. rewrite Hlt.
      rewrite decide_nth, Hi. cbn [option_map]. eexists. split; [reflexivity |].
      split; [apply applyRules_position | now apply applyRules_has_NaN].
    - exists bi. split; [| split; [reflexivity | assumption]].
      rewrite nth_error_app2 by (rewrite firstn_length_le; lia).
      rewrite firstn_length_le by lia.
      rewrite nth_error_skipn. rewrite <- Hi. f_equal. lia. }
  apply (applyRules_sees_NaN bj j i _ other); try assumption.
  now rewrite Hpos.
Qed.

Lemma NaN_velocity_spreads_witness :
  exists bj',
    nth_error
      (Flock.boids
         (Flock.moveFlock
            (Flock.mk 400 200
               [Boid.set_velocity (boid_at 113 100 0 0 6) (Vector.mk PInf NaN);
                boid_at 100 100 1 0 6]))) 1 = Some bj'
    /\ Boid.velocity bj' = Vector.mk NaN NaN.
Proof.
  apply (NaN_velocity_spreads
           (Flock.mk 400 200
              [Boid.set_velocity (boid_at 113 100 0 0 6) (Vector.mk PInf NaN);
               boid_at 100 100 1 0 6])
           0 1
           (Boid.set_velocity (boid_at 113 100 0 0 6) (Vector.mk PInf NaN))
           (boid_at 100 100 1 0 6)).
  - reflexivity.
  - reflexivity.
  - lia.
  - right. reflexivity.
  - apply (sees_ahead 100 100 1 6 113); lra.
Defined.

(** ** A boid at rest *)

(** The neighbour loops count what they add: without a neighbour the sum
    is as it was. *)
Lemma sum_loop_count (f : Boid.t -> Vector.t) (test : nat -> Boid.t -> bool)
      (boids : list Boid.t) :
  forall start sum count,
    let res :=
      for_each
        (fun i other (acc : Vector.t * nat) =>
           let (sum, count) := acc in
           if test i other then (Vector.add sum (f other), S count)
           else (sum, count))
        start boids (sum, count) in
    (count <= snd res)%nat /\ (snd res = count -> fst res = sum).
Proof.
  induction boids as [| b boids IH]; intros start sum count; cbn [for_each].
  - cbn. split; [lia | reflexivity].
  - destruct (test start b).
    + destruct (IH (S start) (Vector.add sum (f b)) (S count)) as [Hle _].
      cbv zeta in *. split; [lia | lia].
    + apply IH.
Qed.

Section AtRest.

Variable this : Boid.t.
Hypothesis Hthis : regular this.
Hypothesis Hrest : Boid.velocity this = Vector.mk (Fin 0) (Fin 0).

(** The length of every point impulse is the speed of the boid, outside
    the near field: at rest it is the zero vector. *)
Lemma pointImpulse_at_rest (x y : R) :
  Boid.pointImpulse this (Vector.mk (Fin x) (Fin y)) = Vector.mk (Fin 0) (Fin 0).
Proof.
  destruct Hthis as (Hp & _ & (a & r & c & m & Hvis & Hco & Hm & Hcr & Hm0) & _).
  destruct (finite_vector_inv _ Hp) as (px & py & Hpos).
  set (d := sqrt ((x - px) * (x - px) + (y - py) * (y - py))).
  destruct (Rlt_dec d (r / 2)) as [Hnear | Hfar].
  - now apply (pointImpulse_near this px py a r m).
  - rewrite (pointImpulse_far this px py 0 0 a r c m)
      by (assumption || (fold d; lra)).
    fold d. rewrite sqrt_sumsq_zero.
    replace ((x - px) / d * 0) with 0 by ring.
    replace ((y - py) / d * 0) with 0 by ring.
    apply limit_zero. discriminate.
Qed.

Lemma applyImpulse_at_rest (w : num) :
  finite w -> Boid.applyImpulse this (Vector.mk (Fin 0) (Fin 0)) w = this.
Proof.
  intros Hw. destruct (finite_inv w Hw) as [k ->].
  change (Vector.mk (Fin 0) (Fin 0)) with (Vector.new None).
  rewrite (applyImpulse_zero_limit this 0 0 k Hrest).
  rewrite limit_zero.
  - rewrite <- Hrest. apply set_velocity_same.
  - destruct Hthis as (_ & _ & (a & r & c & m & _ & _ & -> & _) & _). discriminate.
Qed.

Variable self : nat.
Variable boids : list Boid.t.
Hypothesis Hboids : Forall regular boids.

(** The alignment impulse is scaled to the speed of the boid. *)
Lemma alignment_at_rest :
  Boid.alignment this self boids = Vector.mk (Fin 0) (Fin 0).
Proof.
  destruct Hthis as (_ & _ & (a & r & c & m & _ & _ & Hm & _ & Hm0) & _).
  unfold Boid.alignment.
  pose proof (sum_loop_finite Boid.velocity (Boid.sees_other this self) boids)
    as Hloop.
  specialize (Hloop (Forall_impl _ (fun b (H : regular b) => proj1 (proj2 H)) Hboids)
                    0%nat (Vector.new None) 0%nat (finite_vector_fin 0 0)).
  change (fun (i : nat) (other : Boid.t) (acc : Vector.t * nat) =>
            let (sum, count) := acc in
            if Boid.sees_other this self i other
            then (Vector.add sum (Boid.velocity other), S count)
            else (sum, count))
    with (Boid.alignment_body this self) in Hloop.
  destruct (for_each _ _ _ _) as [sum count]. cbn [fst] in Hloop.
  destruct (Nat.ltb_spec 0 count) as [Hc | Hc]; [| reflexivity].
  destruct (finite_vector_inv _ Hloop) as (x & y & ->).
  rewrite Hrest, one_over_fin, scale_fin by assumption.
  destruct (normalize_finite (x * (1 / INR count)) (y * (1 / INR count)))
    as (nx & ny & ->).
  rewrite length_fin, scale_fin, subtract_fin, Hm, sqrt_sumsq_zero.
  replace (nx * 0 - 0) with 0 by ring. replace (ny * 0 - 0) with 0 by ring.
  apply limit_zero. discriminate.
Qed.

Lemma cohesion_at_rest :
  Boid.cohesion this self boids = Vector.mk (Fin 0) (Fin 0).
Proof.
  unfold Boid.cohesion.
  pose proof (sum_loop_finite Boid.position (Boid.sees_other this self) boids)
    as Hloop.
  specialize (Hloop (Forall_impl _ (fun b (H : regular b) => proj1 H) Hboids)
                    0%nat (Vector.new None) 0%nat (finite_vector_fin 0 0)).
  pose proof (sum_loop_count Boid.position (Boid.sees_other this self) boids
                             0%nat (Vector.new None) 0%nat) as Hcount.
  cbv zeta in Hcount.
  change (fun (i : nat) (other : Boid.t) (acc : Vector.t * nat) =>
            let (sum, count) := acc in
            if Boid.sees_other this self i other
            then (Vector.add sum (Boid.position other), S count)
            else (sum, count))
    with (Boid.cohesion_body this self) in Hloop, Hcount.
  destruct (for_each _ _ _ _) as [sum count]. cbn [fst snd] in Hloop, Hcount.
  destruct (Nat.ltb_spec 0 count) as [Hc | Hc].
  - destruct (finite_vector_inv _ Hloop) as (x & y & ->).
    apply pointImpulse_at_rest.
  - destruct Hcount as [_ Hsum]. rewrite Hsum by lia. reflexivity.
Qed.

Lemma applyRules_at_rest (w h : nat) :
  Boid.applyRules this self boids (of_nat w) (of_nat h) = this.
Proof.
  pose proof Hthis as (_ & _ & _ & Hw1 & Hw2 & Hw3 & Hw4).
  unfold Boid.applyRules.
  rewrite (separation_regular this self boids Hthis), alignment_at_rest,
    cohesion_at_rest.
  change (Vector.new None) with (Vector.mk (Fin 0) (Fin 0)).
  rewrite !applyImpulse_at_rest by assumption.
  unfold Boid.wallAvoidance.
  destruct (_ || _ || _ || _); [| reflexivity].
  unfold of_nat. cbn [div]. rewrite !Reqb_false by lra.
  change (Vector.new (Some [Fin (INR w / 2); Fin (INR h / 2)]))
    with (Vector.mk (Fin (INR w / 2)) (Fin (INR h / 2))).
  rewrite pointImpulse_at_rest. now apply applyImpulse_at_rest.
Qed.

End AtRest.

Lemma move_at_rest (b : Boid.t) :
  regular b -> Boid.velocity b = Vector.mk (Fin 0) (Fin 0) -> Boid.move b = b.
Proof.
  intros (Hp & _) Hv. unfold Boid.move. rewrite Hv.
  destruct (finite_vector_inv _ Hp) as (px & py & Hpos).
  rewrite Hpos, add_fin.
  replace (px + 0) with px by ring. replace (py + 0) with py by ring.
  rewrite <- Hpos. now destruct b.
Qed.

(** A regular boid at rest in a flock of regular boids is the same boid
    after the tick. *)
Lemma moveFlock_at_rest (fl : Flock.t) (i : nat) (b : Boid.t) :
  Forall regular (Flock.boids fl) ->
  nth_error (Flock.boids fl) i = Some b ->
  Boid.velocity b = Vector.mk (Fin 0) (Fin 0) ->
  nth_error (Flock.boids (Flock.moveFlock fl)) i = Some b.
Proof.
  intros Hfl Hb Hv. pose proof (decide_regular fl Hfl) as Hdec.
  pose proof (Forall_nth_error _ _ _ _ Hfl Hb) as Hreg.
  rewrite moveFlock_boids, nth_error_map, decide_nth, Hb. cbn [option_map].
  rewrite (applyRules_at_rest b Hreg Hv).
  - now rewrite move_at_rest.
  - apply Forall_app. split.
    + apply (Forall_firstn_skipn regular i _ Hdec).
    + apply (Forall_firstn_skipn regular i _ Hfl).
Qed.

Lemma ticks_at_rest (fl : Flock.t) (i ticks : nat) (b : Boid.t) :
  Forall regular (Flock.boids fl) ->
  nth_error (Flock.boids fl) i = Some b ->
  Boid.velocity b = Vector.mk (Fin 0) (Fin 0) ->
  Forall regular (Flock.boids (Nat.iter ticks Flock.moveFlock fl))
  /\ nth_error (Flock.boids (Nat.iter ticks Flock.moveFlock fl)) i = Some b.
Proof.
  intros Hfl Hb Hv. induction ticks as [| n [IHreg IHb]].
  - split; assumption.
  - change (Nat.iter (S n) Flock.moveFlock fl)
      with (Flock.moveFlock (Nat.iter n Flock.moveFlock fl)).
    split.
    + eapply Forall_impl; [| exact (moveFlock_regular _ IHreg)].
      now intros b0 [H _].
    + now apply moveFlock_at_rest.
Qed.

(** X21.  In a tick every boid keeps its size, vision, [maxImpulse],
    coefficients and weights, and its position after the tick is its
    position before the tick plus its velocity after the tick. *)
Theorem moveFlock_integrates (fl : Flock.t) (i : nat) :
  match nth_error (Flock.boids fl) i,
        nth_error (Flock.boids (Flock.moveFlock fl)) i with
  | Some b, Some b' =>
      Boid.position b' = Vector.add (Boid.position b) (Boid.velocity b')
      /\ Boid.size b' = Boid.size b
      /\ Boid.vision b' = Boid.vision b
      /\ Boid.maxImpulse b' = Boid.maxImpulse b
      /\ Boid.pointImpulseCoeff b' = Boid.pointImpulseCoeff b
      /\ Boid.separationCoeff b' = Boid.separationCoeff b
      /\ Boid.weights b' = Boid.weights b
  | None, None => True
  | _, _ => False
  end.
Proof.
  rewrite moveFlock_boids, nth_error_map, decide_nth.
  destruct (nth_error (Flock.boids fl) i) as [b |]; cbn [option_map]; [| exact I].
  unfold Boid.move, Boid.applyRules.
  destruct (Boid.wallAvoidance b _ _); cbn; repeat split.
Qed.

(** ** The Flock constructor *)

(** A loop invariant that depends on the number of iterations made. *)
Lemma for_upto_ind {St : Type} (P : nat -> St -> Prop) (n : nat)
      (body : nat -> St -> St) (s : St) :
  P 0%nat s ->
  (forall i s, (i < n)%nat -> P i s -> P (S i) (body i s)) ->
  P n (for_upto n body s).
Proof.
  intros H0 Hstep.
  assert (forall k, (k <= n)%nat -> P k (for_upto k body s)) as Hk.
  { induction k as [| k IH]; intros Hle; [exact H0 |].
    rewrite for_upto_S. apply Hstep; [lia | apply IH; lia]. }
  apply Hk. lia.
Qed.

Lemma rng_ok_shift (g : rng) (k : nat) :
  rng_ok g -> rng_ok (fun n => g (k + n)%nat).
Proof. intros Hg n. apply Hg. Qed.

(** What [addRandomBoid] does to the flock and to the draws. *)
Lemma addRandomBoid_spec (fl : Flock.t) (g : rng) :
  exists b,
    Flock.addRandomBoid fl g
    = (Flock.mk (Flock.canvas_width fl) (Flock.canvas_height fl)
                (Flock.boids fl ++ [b]),
       fun n => g (4 + n)%nat)
    /\ b = fst (Boid.new
                  (Number (Fin (g 0%nat * INR (Flock.canvas_width fl))))
                  (Number (Fin (g 1%nat * INR (Flock.canvas_height fl))))
                  (Number (Fin (INR (Flock.canvas_height fl) * (3 / 100))))
                  Undefined (fun n => g (2 + n)%nat)).
Proof.
  eexists. split; reflexivity.
Qed.

(** X22.  The constructor makes a flock of [initialSize] boids, of 5
    boids when [initialSize] is missing or 0, on the canvas that it is
    given; every boid has [maxImpulse] 5, and four draws of
    [Math.random] are taken per boid. *)
Theorem Flock_new_size (width height : nat) (initialSize : option nat) (g : rng) :
  let n := match initialSize with Some (S k) => S k | _ => 5%nat end in
  let fl := fst (Flock.new width height initialSize g) in
  Flock.size fl = n
  /\ Flock.canvas_width fl = width
  /\ Flock.canvas_height fl = height
  /\ Forall (fun b => Boid.maxImpulse b = Fin 5) (Flock.boids fl)
  /\ forall i, snd (Flock.new width height initialSize g) i = g (4 * n + i)%nat.
Proof.
  intros n fl. subst fl. unfold Flock.new. fold n.
  pose proof
    (for_upto_ind
       (fun k (s : Flock.t * rng) =>
          Flock.size (fst s) = k
          /\ Flock.canvas_width (fst s) = width
          /\ Flock.canvas_height (fst s) = height
          /\ Forall (fun b => Boid.maxImpulse b = Fin 5) (Flock.boids (fst s))
          /\ forall i, snd s i = g (4 * k + i)%nat)
       n (fun _ s => Flock.addRandomBoid (fst s) (snd s))
       (Flock.mk width height [], g)) as Hind.
  apply Hind; clear Hind.
  - cbn. repeat split. constructor.
  - intros i [fl0 g0] _ (Hsize & Hw & Hh & Hmax & Hg). cbn [fst snd] in *.
    destruct (addRandomBoid_spec fl0 g0) as (b & -> & Hb). cbn [fst snd].
    unfold Flock.size in *. cbn [Flock.boids Flock.canvas_width Flock.canvas_height].
    rewrite length_app, Hsize. cbn [length].
    split; [lia |]. split; [assumption |]. split; [assumption |].
    split.
    + apply Forall_app. split; [assumption |]. constructor; [| constructor].
      rewrite Hb. reflexivity.
    + intros j. rewrite Hg. f_equal. lia.
Qed.

(** A boid that the flock creates on a canvas higher than 250 is regular
    and within its [maxImpulse]. *)
Lemma Boid_new_regular (x y s : R) (g : rng) :
  rng_ok g -> 15 / 2 < s ->
  let b := fst (Boid.new (Number (Fin x)) (Number (Fin y)) (Number (Fin s))
                         Undefined g) in
  regular b /\ within_maxImpulse b.
Proof.
  intros Hg Hs b. subst b. unfold Boid.new, Math_random.
  rewrite (or_default_fin s) by lra.
  assert (forall z, exists z', or_default (Number (Fin z)) (Fin 10) = Fin z') as Hd.
  { intros z. destruct (Req_dec z 0) as [-> | Hz].
    - rewrite or_default_zero. eauto.
    - rewrite or_default_fin by assumption. eauto. }
  destruct (Hd x) as [x' ->]. destruct (Hd y) as [y' ->].
  cbn [fst mul sub add neg div Math_PI or_default truthy ToNumber].
  rewrite Reqb_false by lra.
  change (Vector.new (Some [Fin (g 0%nat * 4 + - (2)); Fin (g 1%nat * 4 + - (2))]))
    with (Vector.mk (Fin (g 0%nat * 4 - 2)) (Fin (g 1%nat * 4 - 2))).
  split.
  - unfold regular. cbn. repeat split; try exact I.
    exists (PI / 4), (s * 4), 15, 5. repeat split; try reflexivity; lra.
  - unfold within_maxImpulse. cbn [Boid.velocity Boid.maxImpulse].
    rewrite length_fin. cbn [le]. apply Rleb_true. left. now apply initial_speed.
Qed.

Lemma Flock_new_regular (width height : nat) (initialSize : option nat) (g : rng) :
  rng_ok g -> (250 < height)%nat ->
  Forall (fun b => regular b /\ within_maxImpulse b)
         (Flock.boids (fst (Flock.new width height initialSize g))).
Proof.
  intros Hg Hh. unfold Flock.new.
  assert (15 / 2 < INR height * (3 / 100)) as Hsize.
  { apply lt_INR in Hh.
    assert (INR 250 = 250) as E by (rewrite INR_IZR_INZ; reflexivity).
    lra. }
  apply (for_upto_inv
           (fun s : Flock.t * rng =>
              Flock.canvas_height (fst s) = height
              /\ rng_ok (snd s)
              /\ Forall (fun b => regular b /\ within_maxImpulse b)
                        (Flock.boids (fst s)))).
  - intros i [fl0 g0] _ (Hh0 & Hg0 & Hall). cbn [fst snd] in *.
    destruct (addRandomBoid_spec fl0 g0) as (b & -> & Hb). cbn [fst snd].
    cbn [Flock.boids Flock.canvas_height].
    split; [assumption |]. split; [exact (rng_ok_shift g0 4 Hg0) |].
    apply Forall_app. split; [assumption |]. constructor; [| constructor].
    rewrite Hb, Hh0. apply Boid_new_regular; [| assumption].
    exact (rng_ok_shift g0 2 Hg0).
  - cbn. split; [reflexivity |]. split; [assumption | constructor].
Qed.

(** X23.  On a canvas higher than 250 pixels, with [Math.random]
    returning numbers in [0, 1), the flock that the constructor makes
    satisfies the speed bound with a tolerance, and so does the flock
    after any number of ticks: every velocity is finite, and its length
    is at most [maxImpulse] + 10^-6. *)
Theorem Flock_speed_bound_forever
        (width height : nat) (initialSize : option nat) (g : rng) (ticks : nat) :
  rng_ok g -> (250 < height)%nat ->
  Forall (speed_within (1 / 1000000))
         (Flock.boids (Nat.iter ticks Flock.moveFlock
                                (fst (Flock.new width height initialSize g)))).
Proof.
  intros Hg Hh.
  pose proof (Flock_new_regular width height initialSize g Hg Hh) as Hnew.
  assert (forall b, regular b /\ within_maxImpulse b ->
                    speed_within (1 / 1000000) b) as Hslack.
  { intros b [(_ & Hv & (a & r & c & m & _ & _ & Hm & _) & _) Hb].
    destruct (finite_vector_inv _ Hv) as (vx & vy & Hvel).
    exists vx, vy, m. split; [assumption |]. split; [assumption |].
    unfold within_maxImpulse in Hb. rewrite Hvel, Hm, length_fin in Hb.
    cbn [le] in Hb. unfold Rleb in Hb.
    destruct (Rle_dec (sqrt (vx * vx + vy * vy)) m); [lra | discriminate]. }
  destruct ticks as [| n].
  - cbn [Nat.iter nat_rect]. eapply Forall_impl; [exact Hslack | exact Hnew].
  - eapply Forall_impl; [exact Hslack | apply ticks_regular].
    eapply Forall_impl; [| exact Hnew]. now intros b [Hb _].
Qed.

Lemma Flock_speed_bound_forever_witness :
  Forall (speed_within (1 / 1000000))
         (Flock.boids (Nat.iter 10 Flock.moveFlock
                                (fst (Flock.new 400 300 (Some 2%nat) moving_draws)))).
Proof.
  apply Flock_speed_bound_forever.
  - intros n. unfold moving_draws.
    do 8 (destruct n as [| n]; [cbn; lra |]). destruct n; cbn; lra.
  - apply Nat.ltb_lt. reflexivity.
Defined.

(** The velocities of the boids that the constructor makes. *)
Lemma Flock_new_velocities (width height : nat) (initialSize : option nat)
      (g : rng) (i : nat) :
  (i < match initialSize with Some (S k) => S k | _ => 5%nat end)%nat ->
  exists b,
    nth_error (Flock.boids (fst (Flock.new width height initialSize g))) i = Some b
    /\ Boid.velocity b
       = Vector.mk (Fin (g (4 * i + 2)%nat * 4 - 2)) (Fin (g (4 * i + 3)%nat * 4 - 2)).
Proof.
  unfold Flock.new.
  set (n := match initialSize with Some (S k) => S k | _ => 5%nat end).
  intros Hi.
  pose proof
    (for_upto_ind
       (fun k (s : Flock.t * rng) =>
          (forall j, snd s j = g (4 * k + j)%nat)
          /\ length (Flock.boids (fst s)) = k
          /\ forall j, (j < k)%nat ->
               exists b,
                 nth_error (Flock.boids (fst s)) j = Some b
                 /\ Boid.velocity b
                    = Vector.mk (Fin (g (4 * j + 2)%nat * 4 - 2))
                                (Fin (g (4 * j + 3)%nat * 4 - 2)))
       n (fun _ s => Flock.addRandomBoid (fst s) (snd s))
       (Flock.mk width height [], g)) as Hloop.
  destruct Hloop as (_ & _ & Hall).
  - cbn [fst snd Flock.boids length]. split; [| split].
    + intros j. reflexivity.
    + reflexivity.
    + intros j Hj. lia.
  - intros k [fl0 g0] _ (Hg0 & Hlen & Hprev). cbn [fst snd] in *.
    destruct (addRandomBoid_spec fl0 g0) as (b & -> & Hb). cbn [fst snd Flock.boids].
    split; [| split].
    + intros j. rewrite Hg0. f_equal. lia.
    + rewrite length_app, Hlen. cbn. lia.
    + intros j Hj. destruct (Nat.eq_dec j k) as [-> | Hne].
      * exists b. split.
        -- rewrite nth_error_app2 by lia. rewrite Hlen, Nat.sub_diag. reflexivity.
        -- rewrite Hb. unfold Boid.new, Math_random. cbn [fst Boid.velocity].
           rewrite !Hg0. unfold Vector.new. cbn [nth sub mul neg add].
           replace (4 * k + 2)%nat with (4 * k + 2 + 0)%nat by lia.
           replace (4 * k + 3)%nat with (4 * k + 2 + 1)%nat by lia.
           replace (4 * k + (2 + 0))%nat with (4 * k + 2 + 0)%nat by lia.
           replace (4 * k + (2 + 1))%nat with (4 * k + 2 + 1)%nat by lia.
           reflexivity.
      * destruct (Hprev j ltac:(lia)) as (b0 & Hb0 & Hv0).
        exists b0. split; [| assumption].
        rewrite nth_error_app1 by (rewrite Hlen; lia). assumption.
  - exact (Hall i Hi).
Qed.

(** X16.  A boid that the constructor makes at rest never moves.  On a
    canvas higher than 250 pixels, with [Math.random] returning numbers
    in [0, 1), a boid whose two velocity draws are 0.5 has the zero
    velocity, and after any number of ticks it is the boid that it was,
    at its position and at rest: the impulses of alignment, of cohesion
    and of the walls are scaled to its own speed 0, whatever it sees. *)
Theorem boid_at_rest_stays
        (width height : nat) (initialSize : option nat) (g : rng) (i ticks : nat) :
  rng_ok g -> (250 < height)%nat ->
  (i < match initialSize with Some (S k) => S k | _ => 5%nat end)%nat ->
  g (4 * i + 2)%nat = 1 / 2 -> g (4 * i + 3)%nat = 1 / 2 ->
  exists b,
    nth_error (Flock.boids (fst (Flock.new width height initialSize g))) i = Some b
    /\ Boid.velocity b = Vector.new None
    /\ nth_error
         (Flock.boids (Nat.iter ticks Flock.moveFlock
                                (fst (Flock.new width height initialSize g)))) i
       = Some b.
Proof.
  intros Hg Hh Hi H2 H3.
  destruct (Flock_new_velocities width height initialSize g i Hi) as (b & Hb & Hv).
  assert (Boid.velocity b = Vector.mk (Fin 0) (Fin 0)) as Hrest.
  { rewrite Hv, H2, H3. f_equal; f_equal; lra. }
  assert (Forall regular (Flock.boids (fst (Flock.new width height initialSize g))))
    as Hreg.
  { eapply Forall_impl; [| exact (Flock_new_regular width height initialSize g Hg Hh)].
    now intros b0 [H _]. }
  exists b. split; [assumption |]. split; [exact Hrest |].
  apply ticks_at_rest; assumption.
Qed.

Lemma boid_at_rest_stays_witness :
  exists b,
    nth_error (Flock.boids (fst (Flock.new 400 300 (Some 2%nat) resting_draws))) 0
    = Some b
    /\ Boid.velocity b = Vector.new None
    /\ nth_error
         (Flock.boids (Nat.iter 10 Flock.moveFlock
                                (fst (Flock.new 400 300 (Some 2%nat) resting_draws))))
         0
       = Some b.
Proof.
  apply (boid_at_rest_stays 400 300 (Some 2%nat) resting_draws 0 10).
  - intros n. unfold resting_draws.
    do 8 (destruct n as [| n]; [cbn; lra |]). destruct n; cbn; lra.
  - apply Nat.ltb_lt. reflexivity.
  - lia.
  - reflexivity.
  - reflexivity.
Defined.

(** ** The earlier flock: turning, culling and placing boids *)

Lemma nth_error_set_nth_eq {A : Type} (i : nat) (x : A) (a : list A) :
  (i < length a)%nat -> nth_error (set_nth i x a) i = Some x.
Proof.
  revert i. induction a as [| y a IH]; intros [| i] H; cbn in *; try lia.
  - reflexivity.
  - apply IH. lia.
Qed.

Lemma nth_error_set_nth_neq {A : Type} (i j : nat) (x : A) (a : list A) :
  i <> j -> nth_error (set_nth i x a) j = nth_error a j.
Proof.
  revert i j. induction a as [| y a IH]; intros [| i] [| j] H; cbn;
    try reflexivity; try congruence.
  apply IH. congruence.
Qed.

Section EarlierFlockMoves.

Variable Rest : Type.
Variable new_rest : num -> Rest.
Variable detectObstacles :
  EarlierFlock.boid Rest -> num -> num -> EarlierFlock.boid Rest.
Variable decideDirection :
  EarlierFlock.boid Rest -> nat -> list (EarlierFlock.boid Rest) -> rng ->
  num * EarlierFlock.boid Rest * rng.

(** X24.  One iteration of the first loop of the earlier [moveFlock]
    adds a turn to the direction of the boid and then moves the boid by
    1.5 times the cosine and the sine of the new direction.  The turn is
    the angle from the direction to the desired direction, or
    [maxTurn = Math.PI / 30], or [-maxTurn], and the test
    [|turn| > maxTurn] fails for it. *)
Theorem earlier_turn_limited
        (w h : num) (i : nat) (bs : list (EarlierFlock.boid Rest))
        (terminate : list nat) (g g' : rng) (b b' : EarlierFlock.boid Rest)
        (desired : num) :
  nth_error bs i = Some b ->
  decideDirection (detectObstacles b w h) i
                  (set_nth i (detectObstacles b w h) bs) g
  = (desired, b', g') ->
  let maxTurn := div Math_PI (Fin 30) in
  let d := EarlierFlock.direction Rest b' in
  exists turn : num,
    gt (Math_abs turn) maxTurn = false
    /\ (turn = Math_atan2 (Math_sin (sub desired d)) (Math_cos (sub desired d))
        \/ turn = maxTurn \/ turn = neg maxTurn)
    /\ nth_error
         (fst (fst (EarlierFlock.turn_step Rest detectObstacles decideDirection
                                           w h i (bs, terminate, g)))) i
       = Some (EarlierFlock.mkBoid Rest
                 (add d turn)
                 (add (EarlierFlock.position_x Rest b')
                      (mul (Fin (15 / 10)) (Math_cos (add d turn))))
                 (add (EarlierFlock.position_y Rest b')
                      (mul (Fin (15 / 10)) (Math_sin (add d turn))))
                 (EarlierFlock.rest Rest b')).
Proof.
  intros Hb Hdec maxTurn d. pose proof PI_RGT_0 as Hpi.
  assert (i < length bs)%nat as Hi by (apply nth_error_Some; congruence).
  assert (maxTurn = Fin (PI / 30)) as HmaxTurn.
  { unfold maxTurn, Math_PI. cbn [div]. now rewrite Reqb_false by lra. }
  assert (gt (Math_abs maxTurn) maxTurn = false
          /\ gt (Math_abs (neg maxTurn)) maxTurn = false) as [Hpos Hneg].
  { rewrite HmaxTurn. unfold gt. cbn [neg Math_abs lt].
    rewrite Rabs_Ropp, Rabs_right by lra. split; apply Rltb_false; lra. }
  unfold EarlierFlock.turn_step. rewrite Hb, Hdec. fold maxTurn d.
  set (t := Math_atan2 (Math_sin (sub desired d)) (Math_cos (sub desired d))).
  destruct (gt (Math_abs t) maxTurn) eqn:Hclamp.
  - destruct (gt t (Fin 0)).
    + exists maxTurn. split; [exact Hpos |]. split; [auto |].
      cbn [fst]. apply nth_error_set_nth_eq. now rewrite set_nth_length.
    + exists (neg maxTurn). split; [exact Hneg |]. split; [auto |].
      cbn [fst]. apply nth_error_set_nth_eq. now rewrite set_nth_length.
  - exists t. split; [exact Hclamp |]. split; [auto |].
    cbn [fst]. apply nth_error_set_nth_eq. now rewrite set_nth_length.
Qed.

(** X25.  With [Math.random] in [0, 1), the earlier [addRandomBoid]
    appends one boid whose direction is in (-pi, pi] and whose position
    is within the canvas. *)
Theorem earlier_addRandomBoid_range (fl : EarlierFlock.t Rest) (g : rng) :
  rng_ok g ->
  exists d x y r,
    EarlierFlock.boids Rest (fst (EarlierFlock.addRandomBoid Rest new_rest fl g))
    = EarlierFlock.boids Rest fl
      ++ [EarlierFlock.mkBoid Rest (Fin d) (Fin x) (Fin y) r]
    /\ - PI < d <= PI
    /\ 0 <= x <= INR (EarlierFlock.canvas_width Rest fl)
    /\ 0 <= y <= INR (EarlierFlock.canvas_height Rest fl).
Proof.
  intros Hg. pose proof PI_RGT_0 as Hpi.
  pose proof (Hg 0%nat) as H0. pose proof (Hg 1%nat) as H1.
  pose proof (Hg 2%nat) as H2.
  pose proof (pos_INR (EarlierFlock.canvas_width Rest fl)) as Hw.
  pose proof (pos_INR (EarlierFlock.canvas_height Rest fl)) as Hh.
  assert (forall z, or_default (Number (Fin z)) (Fin 0) = Fin z) as Hd.
  { intros z. destruct (Req_dec z 0) as [-> | Hz].
    - apply or_default_zero.
    - now apply or_default_fin. }
  unfold EarlierFlock.addRandomBoid, EarlierFlock.Boid_new, Math_random, of_nat.
  cbn [fst snd mul sub neg add Math_PI EarlierFlock.set_boids EarlierFlock.boids].
  rewrite !Hd.
  eexists _, _, _, _. split; [reflexivity |].
  repeat split; try nra.
Qed.

(** X26.  The earlier [addBoid] keeps [x] within [0, width]; it raises a
    negative [y] to 0, but compares [y] with the width of the canvas: a
    [y] up to the width is kept, also above the height, and a [y] above
    the width becomes the height. *)
Theorem earlier_addBoid_clamp (fl : EarlierFlock.t Rest) (x y : R) (g : rng) :
  let width := INR (EarlierFlock.canvas_width Rest fl) in
  let height := INR (EarlierFlock.canvas_height Rest fl) in
  exists d r,
    EarlierFlock.boids Rest (fst (EarlierFlock.addBoid Rest new_rest fl (Fin x) (Fin y) g))
    = EarlierFlock.boids Rest fl
      ++ [EarlierFlock.mkBoid Rest (Fin d)
            (Fin (Rmin (Rmax x 0) width))
            (Fin (if Rltb width (Rmax y 0) then height else Rmax y 0)) r]
    /\ 0 <= Rmin (Rmax x 0) width <= width.
Proof.
  intros width height.
  pose proof (pos_INR (EarlierFlock.canvas_width Rest fl)) as Hw.
  fold width in Hw.
  assert (forall z, or_default (Number (Fin z)) (Fin 0) = Fin z) as Hd.
  { intros z. destruct (Req_dec z 0) as [-> | Hz].
    - apply or_default_zero.
    - now apply or_default_fin. }
  assert ((if gt (if lt (Fin x) (Fin 0) then Fin 0 else Fin x) (Fin width)
           then Fin width else if lt (Fin x) (Fin 0) then Fin 0 else Fin x)
          = Fin (Rmin (Rmax x 0) width)) as Ex.
  { unfold gt. cbn [lt]. unfold Rltb, Rmin, Rmax.
    destruct (Rlt_dec x 0); cbn [lt]; unfold Rltb;
      destruct (Rle_dec x 0); try lra;
        match goal with |- context [Rlt_dec ?a ?b] => destruct (Rlt_dec a b) end;
        match goal with |- context [Rle_dec ?a ?b] => destruct (Rle_dec a b) end;
        try reflexivity; try (f_equal; lra). }
  assert ((if gt (if lt (Fin y) (Fin 0) then Fin 0 else Fin y) (Fin width)
           then Fin height else if lt (Fin y) (Fin 0) then Fin 0 else Fin y)
          = Fin (if Rltb width (Rmax y 0) then height else Rmax y 0)) as Ey.
  { unfold gt. cbn [lt]. unfold Rltb, Rmax.
    destruct (Rlt_dec y 0); cbn [lt]; unfold Rltb;
      destruct (Rle_dec y 0); try lra;
        repeat match goal with
               | |- context [Rlt_dec ?a ?b] => destruct (Rlt_dec a b)
               end;
        try reflexivity; try (f_equal; lra); try lra. }
  unfold EarlierFlock.addBoid, EarlierFlock.Boid_new, Math_random, of_nat.
  fold width height. rewrite Ex, Ey.
  cbn [fst snd mul sub neg add Math_PI EarlierFlock.set_boids EarlierFlock.boids].
  rewrite !Hd.
  eexists _, _. split; [reflexivity |].
  unfold Rmin, Rmax. destruct (Rle_dec x 0); destruct (Rle_dec _ width); lra.
Qed.

End EarlierFlockMoves.

Lemma earlier_turn_limited_witness :
  exists turn : num,
    gt (Math_abs turn) (div Math_PI (Fin 30)) = false
    /\ (turn = Math_atan2 (Math_sin (sub (Fin 1) (Fin 0)))
                          (Math_cos (sub (Fin 1) (Fin 0)))
        \/ turn = div Math_PI (Fin 30) \/ turn = neg (div Math_PI (Fin 30)))
    /\ nth_error
         (fst (fst (EarlierFlock.turn_step
                      unit (fun b _ _ => b) (fun b _ _ g => (Fin 1, b, g))
                      (Fin 100) (Fin 100) 0
                      ([EarlierFlock.mkBoid unit (Fin 0) (Fin 0) (Fin 0) tt], [],
                       fun _ => 0)))) 0
       = Some (EarlierFlock.mkBoid unit
                 (add (Fin 0) turn)
                 (add (Fin 0) (mul (Fin (15 / 10)) (Math_cos (add (Fin 0) turn))))
                 (add (Fin 0) (mul (Fin (15 / 10)) (Math_sin (add (Fin 0) turn))))
                 tt).
Proof.
  apply (earlier_turn_limited
           unit (fun b _ _ => b) (fun b _ _ g => (Fin 1, b, g))
           (Fin 100) (Fin 100) 0
           [EarlierFlock.mkBoid unit (Fin 0) (Fin 0) (Fin 0) tt] []
           (fun _ => 0) (fun _ => 0)
           (EarlierFlock.mkBoid unit (Fin 0) (Fin 0) (Fin 0) tt)
           (EarlierFlock.mkBoid unit (Fin 0) (Fin 0) (Fin 0) tt)
           (Fin 1)); reflexivity.
Defined.

Lemma earlier_addRandomBoid_range_witness :
  exists d x y r,
    EarlierFlock.boids unit
      (fst (EarlierFlock.addRandomBoid unit (fun _ => tt)
              (EarlierFlock.mk unit 800 600 800 600 []) (fun _ => 1 / 4)))
    = [] ++ [EarlierFlock.mkBoid unit (Fin d) (Fin x) (Fin y) r]
    /\ - PI < d <= PI
    /\ 0 <= x <= INR 800
    /\ 0 <= y <= INR 600.
Proof.
  apply (earlier_addRandomBoid_range
           unit (fun _ => tt) (EarlierFlock.mk unit 800 600 800 600 [])
           (fun _ => 1 / 4)).
  intros n. lra.
Defined.

(** ** The earlier flock: which boids a tick keeps *)

Lemma firstn_S_nth {A : Type} (k : nat) (a : list A) (x : A) :
  nth_error a k = Some x -> firstn (S k) a = firstn k a ++ [x].
Proof.
  revert k. induction a as [| y a IH]; intros [| k] H; cbn in *; try discriminate.
  - congruence.
  - f_equal. now apply IH.
Qed.

Lemma splice1_middle {A : Type} (done rest : list A) (x : A) :
  splice1 (length done) (done ++ x :: rest) = done ++ rest.
Proof.
  induction done as [| y done IH]; cbn; [reflexivity |]. now rewrite IH.
Qed.

Section EarlierFlockCull.

Variable Rest : Type.
Variable new_rest : num -> Rest.
Variable detectObstacles :
  EarlierFlock.boid Rest -> num -> num -> EarlierFlock.boid Rest.
Variable decideDirection :
  EarlierFlock.boid Rest -> nat -> list (EarlierFlock.boid Rest) -> rng ->
  num * EarlierFlock.boid Rest * rng.

Lemma turn_step_culls (w h : num) (i : nat) (bs : list (EarlierFlock.boid Rest))
      (terminate : list nat) (g : rng) :
  (i < length bs)%nat ->
  exists bs' g',
    EarlierFlock.turn_step Rest detectObstacles decideDirection w h i
                           (bs, terminate, g)
    = (bs', (if left_canvas_at w h bs' i then terminate ++ [i] else terminate), g')
    /\ length bs' = length bs
    /\ forall j, j <> i -> nth_error bs' j = nth_error bs j.
Proof.
  intros Hi. unfold EarlierFlock.turn_step.
  destruct (nth_error bs i) as [b |] eqn:Hb;
    [| apply nth_error_None in Hb; lia].
  destruct (decideDirection _ _ _ _) as [[desired b'] g'].
  match goal with
  | |- exists bs1 g1, (?B, _, _) = _ /\ _ => exists B, g'
  end.
  split; [| split].
  - unfold left_canvas_at.
    rewrite nth_error_set_nth_eq by (rewrite set_nth_length; exact Hi).
    reflexivity.
  - now rewrite !set_nth_length.
  - intros j Hj. rewrite !nth_error_set_nth_neq by congruence. reflexivity.
Qed.

Lemma turn_loop_culls (w h : num) (bs : list (EarlierFlock.boid Rest)) (g : rng) :
  let s :=
    for_upto (length bs)
             (EarlierFlock.turn_step Rest detectObstacles decideDirection w h)
             (bs, [], g) in
  length (fst (fst s)) = length bs
  /\ snd (fst s) = filter (left_canvas_at w h (fst (fst s))) (seq 0 (length bs)).
Proof.
  apply (for_upto_ind
           (fun k (s : EarlierFlock.turn_state Rest) =>
              length (fst (fst s)) = length bs
              /\ snd (fst s) = filter (left_canvas_at w h (fst (fst s))) (seq 0 k))).
  - split; reflexivity.
  - intros i [[bs0 term] g0] Hi [Hlen Hterm]. cbn [fst snd] in Hlen, Hterm.
    destruct (turn_step_culls w h i bs0 term g0) as (bs' & g' & -> & Hl & Hsame);
      [lia |].
    cbn [fst snd]. split; [congruence |].
    rewrite seq_S, filter_app. cbn [Nat.add filter].
    assert (filter (left_canvas_at w h bs') (seq 0 i) = term) as ->.
    { rewrite Hterm. apply filter_ext_in. intros j Hj. apply in_seq in Hj.
      unfold left_canvas_at. rewrite Hsame by lia. reflexivity. }
    destruct (left_canvas_at w h bs' i); [reflexivity | now rewrite app_nil_r].
Qed.

Lemma replace_loop_keeps (w h : num) (bs : list (EarlierFlock.boid Rest)) (k : nat) :
  (k <= length bs)%nat ->
  forall (post : list (EarlierFlock.boid Rest)) (s : EarlierFlock.t Rest * rng),
    EarlierFlock.boids Rest (fst s) = firstn k bs ++ post ->
    exists fresh,
      EarlierFlock.boids Rest
        (fst (fold_left
                (fun s index => EarlierFlock.replace_step Rest new_rest index s)
                (rev (filter (left_canvas_at w h bs) (seq 0 k))) s))
      = filter (fun b => negb (left_canvas w h b)) (firstn k bs) ++ post ++ fresh
      /\ length fresh = length (filter (left_canvas w h) (firstn k bs)).
Proof.
  induction k as [| k IH]; intros Hk post s Hs.
  - exists []. cbn. rewrite app_nil_r. split; [exact Hs | reflexivity].
  - destruct (nth_error bs k) as [x |] eqn:Hx;
      [| apply nth_error_None in Hx; lia].
    rewrite (firstn_S_nth k bs x Hx) in *.
    rewrite seq_S, !filter_app, rev_app_distr. cbn [Nat.add filter].
    unfold left_canvas_at at 1. rewrite Hx.
    assert (length (firstn k bs) = k) as Hlen by (apply firstn_length_le; lia).
    destruct (left_canvas w h x) eqn:Hout; cbn [negb rev app fold_left].
    + destruct s as [fl g]. cbn [fst] in Hs.
      unfold EarlierFlock.replace_step at 2.
      destruct (EarlierFlock.addRandomBoid Rest new_rest _ g) as [fl' g'] eqn:Hadd.
      assert (exists b, EarlierFlock.boids Rest fl' = firstn k bs ++ (post ++ [b]))
        as [b Hfl'].
      { unfold EarlierFlock.addRandomBoid, Math_random in Hadd.
        inversion Hadd as [[Hfl Hg]]. cbn [EarlierFlock.set_boids EarlierFlock.boids].
        eexists. rewrite Hs, <- app_assoc. cbn [app].
        rewrite <- Hlen at 1. rewrite splice1_middle, <- app_assoc. reflexivity. }
      destruct (IH ltac:(lia) (post ++ [b]) (fl', g') Hfl') as (fresh & Hb & Hf).
      exists (b :: fresh). rewrite Hb, app_nil_r, <- app_assoc. cbn [app].
      split; [reflexivity |]. rewrite !length_app. cbn [length]. lia.
    + assert (EarlierFlock.boids Rest (fst s) = firstn k bs ++ (x :: post)) as Hs'.
      { rewrite Hs, <- app_assoc. reflexivity. }
      destruct (IH ltac:(lia) (x :: post) s Hs') as (fresh & Hb & Hf).
      exists fresh. rewrite Hb, <- app_assoc. cbn [app].
      split; [reflexivity |]. rewrite !length_app. cbn [length]. lia.
Qed.

(** X27.  What a tick of the earlier flock keeps.  Let [moved] be the
    array after the first loop of [moveFlock].  After [moveFlock] the
    flock holds the boids of [moved] that are within the canvas, in their
    order, followed by one new boid for each boid of [moved] that has left
    the canvas. *)
Theorem earlier_moveFlock_keeps (fl : EarlierFlock.t Rest) (g : rng) :
  let w := of_nat (EarlierFlock.canvas_clientWidth Rest fl) in
  let h := of_nat (EarlierFlock.canvas_clientHeight Rest fl) in
  let moved :=
    fst (fst (for_upto (EarlierFlock.size Rest fl)
                       (EarlierFlock.turn_step Rest detectObstacles
                                               decideDirection w h)
                       (EarlierFlock.boids Rest fl, [], g))) in
  exists fresh,
    EarlierFlock.boids Rest
      (fst (EarlierFlock.moveFlock Rest new_rest detectObstacles decideDirection
                                   fl g))
    = filter (fun b => negb (left_canvas w h b)) moved ++ fresh
    /\ length fresh = length (filter (left_canvas w h) moved).
Proof.
  intros w h moved.
  unfold EarlierFlock.moveFlock, EarlierFlock.moveFlock_trace.
  fold w h. unfold EarlierFlock.size in *.
  pose proof (turn_loop_culls w h (EarlierFlock.boids Rest fl) g) as Hloop.
  cbv zeta in Hloop. subst moved.
  destruct (for_upto _ _ _) as [[bs term] g1]. cbn [fst snd] in *.
  destruct Hloop as [Hlen ->]. rewrite <- Hlen.
  destruct (replace_loop_keeps w h bs (length bs) (Nat.le_refl _) []
              (EarlierFlock.set_boids Rest fl bs, g1)) as (fresh & Hb & Hf).
  { cbn. now rewrite firstn_all, app_nil_r. }
  rewrite firstn_all in Hb, Hf. exists fresh. split; assumption.
Qed.

End EarlierFlockCull.

(** ** Drawing the flock *)

Lemma saved_states_app (a b : Context2D.t) (depth : nat) :
  Context2D.saved_states (a ++ b) depth
  = Context2D.saved_states b (Context2D.saved_states a depth).
Proof. unfold Context2D.saved_states. apply fold_left_app. Qed.

Lemma translations_app (a b : Context2D.t) :
  Context2D.translations (a ++ b)
  = Context2D.translations a ++ Context2D.translations b.
Proof. unfold Context2D.translations. apply flat_map_app. Qed.

(** What [drawBoid] and [drawBoidVision] do for a boid of the array. *)
Lemma drawBoid_in_range (fl : Flock.t) (ctx : Context2D.t) (index : nat)
      (b : Boid.t) (depth : nat) :
  nth_error (Flock.boids fl) index = Some b ->
  snd (Drawing.drawBoid fl ctx index) = Drawing.Returned
  /\ (exists calls, fst (Drawing.drawBoid fl ctx index) = ctx ++ calls)
  /\ Context2D.saved_states (fst (Drawing.drawBoid fl ctx index)) depth
     = Context2D.saved_states ctx depth
  /\ Context2D.translations (fst (Drawing.drawBoid fl ctx index))
     = Context2D.translations ctx
       ++ [(Vector.getX (Boid.position b), Vector.getY (Boid.position b))].
Proof.
  intros Hb. unfold Drawing.drawBoid. rewrite Hb. cbn [fst snd].
  split; [reflexivity |]. split; [| split].
  - rewrite <- app_assoc. eexists. reflexivity.
  - rewrite !saved_states_app. reflexivity.
  - rewrite !translations_app. cbn. now rewrite app_nil_r.
Qed.

Lemma drawBoidVision_in_range (fl : Flock.t) (ctx : Context2D.t) (index : nat)
      (b : Boid.t) (depth : nat) :
  nth_error (Flock.boids fl) index = Some b ->
  snd (Drawing.drawBoidVision fl ctx index) = Drawing.Returned
  /\ (exists calls, fst (Drawing.drawBoidVision fl ctx index) = ctx ++ calls)
  /\ Context2D.saved_states (fst (Drawing.drawBoidVision fl ctx index)) depth
     = S (Context2D.saved_states ctx depth)
  /\ Context2D.translations (fst (Drawing.drawBoidVision fl ctx index))
     = Context2D.translations ctx
       ++ [(Vector.getX (Boid.position b), Vector.getY (Boid.position b))].
Proof.
  intros Hb. unfold Drawing.drawBoidVision. rewrite Hb. cbn [fst snd].
  split; [reflexivity |]. split; [| split].
  - rewrite <- app_assoc. eexists. reflexivity.
  - rewrite !saved_states_app. reflexivity.
  - rewrite !translations_app. cbn. now rewrite app_nil_r.
Qed.

Lemma drawFlock_spec (fl : Flock.t) (clientWidth : num) (ctx : Context2D.t)
      (depth : nat) :
  let r := Drawing.drawFlock fl clientWidth ctx in
  let at_boid := fun b : Boid.t =>
    (Vector.getX (Boid.position b), Vector.getY (Boid.position b)) in
  snd r = Drawing.Returned
  /\ (exists calls,
         fst r = ctx ++ Context2D.clearRect (Fin 0) (Fin 0) clientWidth clientWidth
                     :: calls)
  /\ Context2D.saved_states (fst r) depth
     = (Context2D.saved_states ctx depth
        + if (0 <? Flock.size fl)%nat then 1 else 0)%nat
  /\ Context2D.translations (fst r)
     = Context2D.translations ctx
       ++ map at_boid (firstn 1 (Flock.boids fl))
       ++ map at_boid (Flock.boids fl).
Proof.
  intros r at_boid. subst r. unfold Drawing.drawFlock, Flock.size.
  set (ctx1 := ctx ++ [Context2D.clearRect (Fin 0) (Fin 0) clientWidth clientWidth]).
  set (vision := if (0 <? length (Flock.boids fl))%nat
                 then Drawing.drawBoidVision fl ctx1 0
                 else (ctx1, Drawing.Returned)).
  assert (snd vision = Drawing.Returned
          /\ (exists calls, fst vision = ctx1 ++ calls)
          /\ Context2D.saved_states (fst vision) depth
             = (Context2D.saved_states ctx depth
                + if (0 <? length (Flock.boids fl))%nat then 1 else 0)%nat
          /\ Context2D.translations (fst vision)
             = Context2D.translations ctx
               ++ map at_boid (firstn 1 (Flock.boids fl)))
    as (Hret & [calls0 Hcalls] & Hdepth & Htr).
  { subst vision. destruct (Flock.boids fl) as [| b bs] eqn:Hbs.
    - cbn. unfold ctx1. rewrite saved_states_app, translations_app. cbn.
      rewrite Nat.add_0_r. repeat split. exists []. now rewrite app_nil_r.
    - cbn [length Nat.ltb Nat.leb firstn map].
      destruct (drawBoidVision_in_range fl ctx1 0 b depth) as (H1 & H2 & H3 & H4).
      { now rewrite Hbs. }
      split; [assumption |]. split; [assumption |].
      rewrite H3, H4. unfold ctx1. rewrite saved_states_app, translations_app.
      cbn. rewrite app_nil_r. split; [lia | reflexivity]. }
  rewrite Hret.
  pose proof
    (for_upto_ind
       (fun k (s : Context2D.t * Drawing.outcome) =>
          snd s = Drawing.Returned
          /\ (exists calls, fst s = ctx1 ++ calls)
          /\ Context2D.saved_states (fst s) depth
             = Context2D.saved_states (fst vision) depth
          /\ Context2D.translations (fst s)
             = Context2D.translations (fst vision)
               ++ map at_boid (firstn k (Flock.boids fl)))
       (length (Flock.boids fl))
       (fun i s =>
          match snd s with
          | Drawing.TypeError => s
          | Drawing.Returned => Drawing.drawBoid fl (fst s) i
          end)
       (fst vision, Drawing.Returned)) as Hloop.
  destruct Hloop as (L1 & [calls L2] & L3 & L4).
  - cbn [fst snd firstn map]. rewrite app_nil_r. repeat split.
    exists calls0. assumption.
  - intros i [c o] Hi (Ho & [calls Hc] & Hd & Ht). cbn [fst snd] in *. subst o.
    destruct (nth_error (Flock.boids fl) i) as [b |] eqn:Hb;
      [| apply nth_error_None in Hb; lia].
    destruct (drawBoid_in_range fl c i b depth Hb) as (H1 & [calls' H2] & H3 & H4).
    split; [assumption |]. split; [| split].
    + exists (calls ++ calls'). rewrite H2, Hc. now rewrite app_assoc.
    + congruence.
    + rewrite H4, Ht, (firstn_S_nth i _ b Hb), map_app, <- app_assoc. reflexivity.
  - split; [assumption |]. split; [| split].
    + exists calls. rewrite L2. unfold ctx1. rewrite <- app_assoc. reflexivity.
    + congruence.
    + rewrite L4, Htr, firstn_all, <- app_assoc. reflexivity.
Qed.

(** X28.  [drawBoid] of a boid of the array returns with as many drawing
    states saved as before, having moved the origin once, to the position
    of the boid; [drawBoid] of an index outside the array throws after it
    has saved the drawing state, which stays saved. *)
Theorem drawBoid_restores (fl : Flock.t) (ctx : Context2D.t) (index depth : nat) :
  match nth_error (Flock.boids fl) index with
  | Some b =>
    snd (Drawing.drawBoid fl ctx index) = Drawing.Returned
    /\ Context2D.saved_states (fst (Drawing.drawBoid fl ctx index)) depth
       = Context2D.saved_states ctx depth
    /\ Context2D.translations (fst (Drawing.drawBoid fl ctx index))
       = Context2D.translations ctx
         ++ [(Vector.getX (Boid.position b), Vector.getY (Boid.position b))]
  | None =>
    Drawing.drawBoid fl ctx index = (ctx ++ [Context2D.save], Drawing.TypeError)
    /\ Context2D.saved_states (fst (Drawing.drawBoid fl ctx index)) depth
       = S (Context2D.saved_states ctx depth)
  end.
Proof.
  destruct (nth_error (Flock.boids fl) index) as [b |] eqn:Hb.
  - destruct (drawBoid_in_range fl ctx index b depth Hb) as (H1 & _ & H3 & H4).
    auto.
  - unfold Drawing.drawBoid. rewrite Hb. cbn [fst]. split; [reflexivity |].
    rewrite saved_states_app. reflexivity.
Qed.

(** X29.  [drawFlock] never throws.  It first clears the canvas, with
    [clientWidth] for the width and for the height; it moves the origin to
    the first boid, for its vision, and then to every boid in the order of
    the array; and for a flock that is not empty it leaves one more
    drawing state saved than there was, the one that [drawBoidVision]
    saves last. *)
Theorem drawFlock_draws_every_boid
        (fl : Flock.t) (clientWidth : num) (ctx : Context2D.t) (depth : nat) :
  let r := Drawing.drawFlock fl clientWidth ctx in
  let at_boid := fun b : Boid.t =>
    (Vector.getX (Boid.position b), Vector.getY (Boid.position b)) in
  snd r = Drawing.Returned
  /\ (exists calls,
         fst r = ctx ++ Context2D.clearRect (Fin 0) (Fin 0) clientWidth clientWidth
                     :: calls)
  /\ Context2D.saved_states (fst r) depth
     = (Context2D.saved_states ctx depth
        + if (0 <? Flock.size fl)%nat then 1 else 0)%nat
  /\ Context2D.translations (fst r)
     = Context2D.translations ctx
       ++ map at_boid (firstn 1 (Flock.boids fl))
       ++ map at_boid (Flock.boids fl).
Proof. exact (drawFlock_spec fl clientWidth ctx depth). Qed.

(** X30.  Animation: after any number of calls of [step] on a flock that
    is not empty, every call has returned, the flock has its size, and
    the context holds one more saved drawing state for each call. *)
Theorem step_saved_states
        (clientWidth : num) (fl : Flock.t) (ctx : Context2D.t)
        (depth frames : nat) :
  (0 < Flock.size fl)%nat ->
  let frame := fun s : Flock.t * (Context2D.t * Drawing.outcome) =>
    match snd (snd s) with
    | Drawing.TypeError => s
    | Drawing.Returned => Drawing.step clientWidth (fst s, fst (snd s))
    end in
  let s := Nat.iter frames frame (fl, (ctx, Drawing.Returned)) in
  snd (snd s) = Drawing.Returned
  /\ Flock.size (fst s) = Flock.size fl
  /\ Context2D.saved_states (fst (snd s)) depth
     = (Context2D.saved_states ctx depth + frames)%nat.
Proof.
  intros Hsize frame. induction frames as [| n IH]; cbv zeta.
  - cbn [Nat.iter nat_rect fst snd]. rewrite Nat.add_0_r. repeat split.
  - change (Nat.iter (S n) frame (fl, (ctx, Drawing.Returned)))
      with (frame (Nat.iter n frame (fl, (ctx, Drawing.Returned)))).
    cbv zeta in IH. destruct IH as (Hret & Hsz & Hdepth).
    set (s := Nat.iter n frame (fl, (ctx, Drawing.Returned))) in *.
    unfold frame at 1 2 3. rewrite Hret. unfold Drawing.step. cbn [fst snd].
    pose proof (drawFlock_spec (Flock.moveFlock (fst s)) clientWidth
                               (fst (snd s)) depth) as Hd.
    cbv zeta in Hd. destruct Hd as (D1 & _ & D3 & _).
    assert (Flock.size (Flock.moveFlock (fst s)) = Flock.size fl) as Hsz'.
    { rewrite <- Hsz. apply moveFlock_size. }
    split; [assumption |]. split; [assumption |].
    rewrite D3, Hsz', Hdepth.
    destruct (Nat.ltb_spec 0 (Flock.size fl)); lia.
Qed.

Lemma step_saved_states_witness :
  snd (snd (Nat.iter 3
              (fun s : Flock.t * (Context2D.t * Drawing.outcome) =>
                 match snd (snd s) with
                 | Drawing.TypeError => s
                 | Drawing.Returned => Drawing.step (Fin 1000) (fst s, fst (snd s))
                 end)
              (in_line, ([], Drawing.Returned)))) = Drawing.Returned
  /\ Flock.size
       (fst (Nat.iter 3
               (fun s : Flock.t * (Context2D.t * Drawing.outcome) =>
                  match snd (snd s) with
                  | Drawing.TypeError => s
                  | Drawing.Returned => Drawing.step (Fin 1000) (fst s, fst (snd s))
                  end)
               (in_line, ([], Drawing.Returned)))) = Flock.size in_line
  /\ Context2D.saved_states
       (fst (snd (Nat.iter 3
                    (fun s : Flock.t * (Context2D.t * Drawing.outcome) =>
                       match snd (snd s) with
                       | Drawing.TypeError => s
                       | Drawing.Returned =>
                         Drawing.step (Fin 1000) (fst s, fst (snd s))
                       end)
                    (in_line, ([], Drawing.Returned))))) 0
     = (Context2D.saved_states [] 0 + 3)%nat.
Proof.
  apply (step_saved_states (Fin 1000) in_line [] 0 3).
  cbn. lia.
Defined.
